(** * Sliced send/receive over a rendezvous table

    A shallow embedding of [tensorflow/core/kernels/slice_sendrecv_ops.cc]
    (the [_SliceSend] and [_SliceRecv] kernels) together with the part of
    [tensorflow/core/framework/rendezvous.h] they use, and the properties of
    the slicing protocol proved over it. *)

From Stdlib Require Import ZArith List Bool Lia.
From Stdlib Require Import Ascii String.
From Stdlib Require Import Strings.Byte.
From Stdlib Require Import DecimalString DecimalZ.
Import ListNotations.

Local Open Scope Z_scope.

(** ** Strings *)

Module Str.

Local Open Scope string_scope.

(** [std::to_string] on an [int64], and the decimal rendering that
    [strings::StrAppend] applies to its integer arguments. *)
Definition to_string (z : Z) : string :=
  NilEmpty.string_of_int (Z.to_int z).

(** Every character of [s] satisfies [p]. *)
Fixpoint all_chars (p : ascii -> bool) (s : string) : bool :=
  match s with
  | EmptyString => true
  | String c s' => p c && all_chars p s'
  end.

(** The characters a decimal rendering is made of. *)
Definition is_decimal_char (c : ascii) : bool :=
  match c with
  | "0" | "1" | "2" | "3" | "4" | "5" | "6" | "7" | "8" | "9" | "-" => true
  | _ => false
  end%char.

(** The tails of [s] that directly follow an occurrence of [c]. *)
Fixpoint tails_after (c : ascii) (s : string) : list string :=
  match s with
  | EmptyString => []
  | String d s' =>
      if Ascii.eqb d c then s' :: tails_after c s' else tails_after c s'
  end.

(** [s] without its first character. *)
Definition behead (s : string) : string :=
  match s with
  | EmptyString => EmptyString
  | String _ s' => s'
  end.

(** The characters that follow the last [;] of a key. *)
Definition is_discriminator_char (c : ascii) : bool :=
  is_decimal_char c || Ascii.eqb c ":".

End Str.

(** ** Machine integers

    The kernels compute with [int64] and [size_t]; both are kept as [Z] with
    the wrap-around of each operation written out. *)

Definition INT64_MAX : Z := 2 ^ 63 - 1.

(** Two's complement value of [z] in 64 bits ([int64]). *)
Definition int64_wrap (z : Z) : Z := (z + 2 ^ 63) mod 2 ^ 64 - 2 ^ 63.

(** Value of [z] as a [size_t] / [uint64]. *)
Definition size_t_wrap (z : Z) : Z := z mod 2 ^ 64.

Module I64.
Definition add (a b : Z) : Z := int64_wrap (a + b).
Definition sub (a b : Z) : Z := int64_wrap (a - b).
Definition mul (a b : Z) : Z := int64_wrap (a * b).
(** C++ division truncates towards zero and is undefined on a zero
    divisor. *)
Definition div (a b : Z) : option Z :=
  if b =? 0 then None else Some (int64_wrap (Z.quot a b)).
End I64.

Module U64.
Definition add (a b : Z) : Z := size_t_wrap (a + b).
Definition sub (a b : Z) : Z := size_t_wrap (a - b).
Definition div (a b : Z) : option Z :=
  if b =? 0 then None else Some (Z.quot a b).
End U64.

(** ** Rendezvous keys *)

(** Modelled from the spec: [FrameAndIter] is declared in
    [framework/control_flow.h], which is not among the sources; the data model
    gives the frame and iteration discriminators as two integers. *)
Record FrameAndIter := { frame_id : Z; iter_id : Z }.

(** Modelled from the spec: [strings::FpToString] is not among the sources;
    the key wire format gives the source incarnation in decimal. *)
Definition FpToString (fp : Z) : string := Str.to_string fp.

Definition GetSliceRendezvousKeyPrefix (send_device recv_device : string)
    (send_device_incarnation : Z) (tensor_name : string) : string :=
  (send_device ++ ";" ++ FpToString send_device_incarnation ++ ";"
     ++ recv_device ++ ";" ++ tensor_name)%string.

Definition GetSliceRendezvousKey (key_prefix tensor_name_suffix : string)
    (frame_iter : FrameAndIter) : string :=
  (key_prefix ++ tensor_name_suffix ++ ";"
     ++ Str.to_string (frame_id frame_iter) ++ ":"
     ++ Str.to_string (iter_id frame_iter))%string.

(** The phases of one transfer, and the suffix each one appends to the
    channel name. *)
Inductive Phase :=
| TransferData
| TotalBytesPhase
| ShapePhase
| ElementsSizePhase
| DataSlice (i : Z)
| DataSubSlice (i j : Z).

Definition phase_suffix (p : Phase) : string :=
  match p with
  | TransferData => "_transfer_data"
  | TotalBytesPhase => "_slice_transfer_totalbytes"
  | ShapePhase => "_slice_transfer_shape"
  | ElementsSizePhase => "_slice_transfer_elements_size"
  | DataSlice i => "_slice_transfer_data_" ++ Str.to_string i
  | DataSubSlice i j =>
      "_slice_transfer_data_" ++ Str.to_string i ++ "_" ++ Str.to_string j
  end%string.

Definition phase_key (key_prefix : string) (frame_iter : FrameAndIter)
    (p : Phase) : string :=
  GetSliceRendezvousKey key_prefix (phase_suffix p) frame_iter.

(** ** Tensors *)

Inductive DataType :=
| DT_FLOAT | DT_DOUBLE | DT_INT32 | DT_UINT8 | DT_INT16 | DT_INT8
| DT_STRING | DT_INT64 | DT_BOOL.

Definition DataType_eqb (a b : DataType) : bool :=
  match a, b with
  | DT_FLOAT, DT_FLOAT | DT_DOUBLE, DT_DOUBLE | DT_INT32, DT_INT32
  | DT_UINT8, DT_UINT8 | DT_INT16, DT_INT16 | DT_INT8, DT_INT8
  | DT_STRING, DT_STRING | DT_INT64, DT_INT64 | DT_BOOL, DT_BOOL => true
  | _, _ => false
  end.

(** Width in bytes of one element; [0] for the variable-length type. *)
Definition DataTypeSize (dt : DataType) : Z :=
  match dt with
  | DT_FLOAT => 4 | DT_DOUBLE => 8 | DT_INT32 => 4 | DT_UINT8 => 1
  | DT_INT16 => 2 | DT_INT8 => 1 | DT_STRING => 0 | DT_INT64 => 8
  | DT_BOOL => 1
  end.

(** A [tstring] is a sequence of bytes. *)
Definition tstring := list byte.

(** The contents of a tensor, as the kernels reach them: the flat bytes
    behind [data()] for a fixed-width tensor, the integers behind
    [scalar<int64>()], [vec<int64>()] and [flat<int64>()] for the three
    [DT_INT64] envelopes the kernels build themselves, and the elements
    behind [flat<tstring>()] for a [DT_STRING] tensor. *)
Inductive TensorBuffer :=
| RawBytes (b : list byte)
| Int64Values (v : list Z)
| StringValues (s : list tstring).

Record Tensor := {
  dtype : DataType;
  shape : list Z;
  buf : TensorBuffer
}.

Definition num_elements (sh : list Z) : Z := fold_right Z.mul 1 sh.

Definition NumElements (t : Tensor) : Z := num_elements (shape t).

Definition size {A} (l : list A) : Z := Z.of_nat (List.length l).

Definition sum_sizes (l : list tstring) : Z :=
  fold_right (fun e acc => size e + acc) 0 l.

(** ** Status codes and outcomes *)

Inductive Code :=
| INTERNAL | INVALID_ARGUMENT | DEADLINE_EXCEEDED | CANCELLED | ABORTED.

(** Ways in which a kernel fails to return: undefined behaviour of the
    arithmetic or of a memory access, a failed [CHECK], or a wait that no
    producer ends. *)
Inductive Fault :=
| DivideByZero | OutOfRange | CheckFailed | BadAccess | Blocked.

Inductive Outcome (A : Type) :=
| Done (a : A)
| Failed (c : Code)
| Halt (f : Fault).

Arguments Done {A} a.
Arguments Failed {A} c.
Arguments Halt {A} f.

(** ** The parts of the framework the kernels rely on *)

(** [Rendezvous::ParseKey] is only declared in [rendezvous.h] and the size of
    a [tstring] object is fixed by the platform; both are parameters.
    [ParseKey] is kept as its verdict on a full key. *)
Class Framework := {
  ParseKey : string -> bool;
  sizeof_tstring : Z;
  sizeof_tstring_nonneg : 0 <= sizeof_tstring
}.

(** Modelled from the spec: [Tensor::TotalBytes] is not among the sources.
    The total size of a fixed-width tensor is the size of the buffer behind
    [data()], which [SendBasicType] slices; for a string tensor it counts the
    element objects and the bytes they hold. *)
Definition TotalBytes `{Framework} (t : Tensor) : Z :=
  match buf t with
  | RawBytes b => size b
  | Int64Values v => 8 * size v
  | StringValues s => sizeof_tstring * size s + sum_sizes s
  end.

(** ** The rendezvous table *)

(** The opaque bag of attributes that travels with a transfer. *)
Record Args := {
  device_context : Z;
  alloc_attrs : Z;
  cancellation_manager : option Z
}.

(** The default-constructed [AllocatorAttributes]. *)
Definition AllocatorAttributes : Z := 0.

(** The message [{val, is_dead}] of [rendezvous.h], with the sender's
    [Args]. *)
Record Message := {
  msg_args : Args;
  msg_val : Tensor;
  msg_is_dead : bool
}.

(** Modelled from the spec: [Rendezvous::Send] and [Rendezvous::Recv] have no
    body among the sources. The table keeps the deposited messages in the
    order they were sent, each under its full key, and the status of an abort
    once there was one. *)
Record Rendezvous := {
  table : list (string * Message);
  aborted : option Code
}.

(** The calls made on the rendezvous, in order: what was sent under which
    key, and what each receive found. *)
Inductive Event :=
| SendEvent (key : string) (m : Message)
| RecvEvent (key : string) (found : option Message).

Record World := {
  rendezvous : Rendezvous;
  trace : list Event
}.

(** Kernel code runs against the world and either returns a value, returns a
    non-OK status, or does not return. *)
Definition M (A : Type) : Type := World -> Outcome A * World.

Definition ret {A} (a : A) : M A := fun w => (Done a, w).

Definition fail {A} (c : Code) : M A := fun w => (Failed c, w).

Definition halt {A} (f : Fault) : M A := fun w => (Halt f, w).

Definition bind {A B} (m : M A) (k : A -> M B) : M B :=
  fun w =>
    match m w with
    | (Done a, w') => k a w'
    | (Failed c, w') => (Failed c, w')
    | (Halt f, w') => (Halt f, w')
    end.

Declare Scope kernel_scope.
Delimit Scope kernel_scope with kernel.
Notation "x <- m ;; k" := (bind m (fun x => k))
  (at level 61, m at next level, right associativity) : kernel_scope.
Notation "m ;; k" := (bind m (fun _ => k))
  (at level 61, right associativity) : kernel_scope.
Local Open Scope kernel_scope.

(** [for (int64 i = start; i < start + n; i++) body(i)], leaving at the first
    iteration that does not return OK. *)
Fixpoint for_loop (n : nat) (i : Z) (body : Z -> M unit) : M unit :=
  match n with
  | O => ret tt
  | S n' => body i ;; for_loop n' (i + 1) body
  end.

(** The same loop around a body that updates a local value. *)
Fixpoint for_loop_acc {A} (n : nat) (i : Z) (body : Z -> A -> M A) (a : A)
    : M A :=
  match n with
  | O => ret a
  | S n' => a' <- body i a ;; for_loop_acc n' (i + 1) body a'
  end.

(** [CHECK_EQ(is_dead, false)]. *)
Definition CHECK_not_dead (is_dead : bool) : M unit :=
  if is_dead then halt CheckFailed else ret tt.

(** A value that a failed [CHECK] or an undefined access guards. *)
Definition guard {A} (f : Fault) (o : option A) : M A :=
  match o with
  | Some a => ret a
  | None => halt f
  end.

(** First message under [key], and the table without it. *)
Fixpoint take_first (key : string) (tbl : list (string * Message))
    : option (Message * list (string * Message)) :=
  match tbl with
  | [] => None
  | (k, m) :: rest =>
      if String.eqb k key then Some (m, rest)
      else match take_first key rest with
           | Some (m', rest') => Some (m', (k, m) :: rest')
           | None => None
           end
  end.

Definition log (e : Event) (w : World) : World :=
  {| rendezvous := rendezvous w; trace := trace w ++ [e] |}.

Definition set_table (tbl : list (string * Message)) (w : World) : World :=
  {| rendezvous := {| table := tbl; aborted := aborted (rendezvous w) |};
     trace := trace w |}.

(** Modelled from the spec: [Send] never waits; it deposits the message, or
    returns the abort status once the table was aborted. *)
Definition Send (key : string) (args : Args) (val : Tensor) (is_dead : bool)
    : M unit :=
  fun w =>
    let m := {| msg_args := args; msg_val := val; msg_is_dead := is_dead |} in
    let w' := log (SendEvent key m) w in
    match aborted (rendezvous w) with
    | Some c => (Failed c, w')
    | None => (Done tt, set_table (table (rendezvous w) ++ [(key, m)]) w')
    end.

(** Modelled from the spec: the synchronous [Recv] hands over the message
    deposited under [key] and removes it. With nothing deposited and no
    producer left to run, the wait ends at the deadline when there is one and
    does not end otherwise. The [args] are not consulted: the cancellation
    manager they may hold never fires here, so no wait ends in [CANCELLED]. *)
Definition Recv (key : string) (args : Args) (timeout_ms : Z)
    : M (Tensor * bool) :=
  fun w =>
    match aborted (rendezvous w) with
    | Some c => (Failed c, log (RecvEvent key None) w)
    | None =>
        match take_first key (table (rendezvous w)) with
        | Some (m, rest) =>
            (Done (msg_val m, msg_is_dead m),
             set_table rest (log (RecvEvent key (Some m)) w))
        | None =>
            (if 0 <? timeout_ms then Failed DEADLINE_EXCEEDED
             else Halt Blocked,
             log (RecvEvent key None) w)
        end
    end.

(** [TF_RETURN_IF_ERROR(Rendezvous::ParseKey(parsed_key.buf_, &parsed_key))]:
    the parsed key is the full key itself once it is accepted. *)
Definition ParseKey_checked `{Framework} (key : string) : M unit :=
  if ParseKey key then ret tt else fail INVALID_ARGUMENT.

(** ** Tensor accessors *)

(** [t.scalar<int64>()()], which checks the type and the single element. *)
Definition scalar_int64 (t : Tensor) : option Z :=
  match dtype t, buf t with
  | DT_INT64, Int64Values [v] => Some v
  | _, _ => None
  end.

(** [t.vec<int64>()], which checks the type and the rank. *)
Definition vec_int64 (t : Tensor) : option (list Z) :=
  match dtype t, shape t, buf t with
  | DT_INT64, [n], Int64Values v => if n =? size v then Some v else None
  | _, _, _ => None
  end.

(** [t.flat<int64>()]. *)
Definition flat_int64 (t : Tensor) : option (list Z) :=
  match dtype t, buf t with
  | DT_INT64, Int64Values v =>
      if NumElements t =? size v then Some v else None
  | _, _ => None
  end.

(** [t.scalar<tstring>()()]. *)
Definition scalar_tstring (t : Tensor) : option tstring :=
  match dtype t, buf t with
  | DT_STRING, StringValues [s] => Some s
  | _, _ => None
  end.

(** [t.flat<tstring>()]. *)
Definition flat_tstring (t : Tensor) : option (list tstring) :=
  match dtype t, buf t with
  | DT_STRING, StringValues s =>
      if NumElements t =? size s then Some s else None
  | _, _ => None
  end.

(** [t.data()] seen as [unsigned char*]: the flat bytes of a fixed-width
    tensor. *)
Definition data (t : Tensor) : option (list byte) :=
  match buf t with
  | RawBytes b => Some b
  | _ => None
  end.

(** [flat(i)], which is not bounds-checked. *)
Definition flat_get {A} (l : list A) (i : Z) : option A :=
  if i <? 0 then None else nth_error l (Z.to_nat i).

(** [flat(i) = v]. *)
Definition flat_set {A} (l : list A) (i : Z) (v : A) : option (list A) :=
  if (0 <=? i) && (i <? size l)
  then Some (firstn (Z.to_nat i) l ++ v :: skipn (Z.to_nat (i + 1)) l)
  else None.

(** [std::memcpy(dst + dst_off, src + src_off, n)] between two buffers. *)
Definition memcpy (dst : list byte) (dst_off : Z) (src : list byte)
    (src_off n : Z) : option (list byte) :=
  if (0 <=? n) && (0 <=? dst_off) && (0 <=? src_off)
     && (dst_off + n <=? size dst) && (src_off + n <=? size src)
  then Some (firstn (Z.to_nat dst_off) dst
               ++ firstn (Z.to_nat n) (skipn (Z.to_nat src_off) src)
               ++ skipn (Z.to_nat (dst_off + n)) dst)
  else None.

(** [s.substr(pos, len)], which throws when [pos] is past the end and stops
    at the end otherwise. *)
Definition substr (s : tstring) (pos len : Z) : option tstring :=
  if size s <? pos then None
  else Some (firstn (Z.to_nat len) (skipn (Z.to_nat pos) s)).

(** [allocate_temp] and [allocate_output]: a tensor of the given type and
    shape; fresh memory is taken to hold zero bytes and fresh strings are
    empty. Running out of memory is not modelled. *)
Definition allocate (dt : DataType) (sh : list Z) : Tensor :=
  {| dtype := dt;
     shape := sh;
     buf :=
       match dt with
       | DT_STRING => StringValues (repeat [] (Z.to_nat (num_elements sh)))
       | _ => RawBytes (repeat x00 (Z.to_nat (num_elements sh * DataTypeSize dt)))
       end |}.

(** The tensor [t] after its contents were overwritten in place. *)
Definition set_buf (t : Tensor) (b : TensorBuffer) : Tensor :=
  {| dtype := dtype t; shape := shape t; buf := b |}.

(** ** The kernel context *)

Module OpKernelContext.
Record t := {
  has_rendezvous : bool;       (* ctx->rendezvous() != nullptr *)
  input : Tensor;              (* ctx->input(0) *)
  is_input_dead : bool;
  call_frame : option Z;       (* the address, unless nullptr *)
  frame_iter : FrameAndIter;
  op_device_context : Z;
  input_alloc_attr : Z;        (* ctx->input_alloc_attr(0) *)
  output_alloc_attr : Z;       (* ctx->output_alloc_attr(0) *)
  is_eager : bool;
  cancellation_manager : Z
}.
End OpKernelContext.

Definition GetFrameAndIter (ctx : OpKernelContext.t) (hostmem_sendrecv : bool)
    : FrameAndIter :=
  match hostmem_sendrecv, OpKernelContext.call_frame ctx with
  | true, Some addr => {| frame_id := addr; iter_id := 0 |}
  | _, _ => OpKernelContext.frame_iter ctx
  end.

(** The [Args] every send of a kernel starts from. *)
Definition send_args (ctx : OpKernelContext.t) (attrs : Z) : Args :=
  {| device_context := OpKernelContext.op_device_context ctx;
     alloc_attrs := attrs;
     cancellation_manager := None |}.

(** The [Args] every receive of a kernel starts from: the cancellation
    manager is set in eager mode only. *)
Definition recv_args (ctx : OpKernelContext.t) (attrs : Z) : Args :=
  {| device_context := OpKernelContext.op_device_context ctx;
     alloc_attrs := attrs;
     cancellation_manager :=
       if OpKernelContext.is_eager ctx
       then Some (OpKernelContext.cancellation_manager ctx)
       else None |}.

(** ** [SliceSendOp] *)

Module SliceSendOp.

(** The node attributes the constructor reads; the incarnation is the
    [uint64] the [int64] attribute is read into. *)
Record Attrs := {
  send_device : string;
  recv_device : string;
  send_device_incarnation : Z;
  tensor_name : string;
  hostmem_sendrecv : option bool;   (* "_hostmem_sendrecv", optional *)
  slice_size : Z;
  T : DataType
}.

Record t := {
  key_prefix_ : string;
  hostmem_sendrecv_ : bool;
  slice_size_ : Z;
  dtype_ : DataType
}.

(** [SliceSendOp::SliceSendOp]. *)
Definition construct (a : Attrs) : t :=
  {| key_prefix_ :=
       GetSliceRendezvousKeyPrefix (send_device a) (recv_device a)
         (send_device_incarnation a) (tensor_name a);
     hostmem_sendrecv_ :=
       match hostmem_sendrecv a with Some b => b | None => false end;
     slice_size_ := slice_size a;
     dtype_ := T a |}.

(** [slice_num] of [SendBasicType]. *)
Definition basic_slice_num (bytes_num slice_size : Z) : option Z :=
  I64.div (I64.sub (I64.add bytes_num slice_size) 1) slice_size.

(** The test [start > bytes_num - slice_size_] of [SendBasicType]. *)
Definition basic_is_last (bytes_num slice_size i : Z) : bool :=
  I64.sub bytes_num slice_size <? I64.mul i slice_size.

(** [start] and [copy_size] of slice [i] in [SendBasicType]. *)
Definition basic_slice (bytes_num slice_size i : Z) : Z * Z :=
  let start := I64.mul i slice_size in
  let copy_size := slice_size in
  let copy_size :=
    if basic_is_last bytes_num slice_size i
    then I64.sub bytes_num start else copy_size in
  (start, copy_size).

(** [slice_num] of [SendStringSlice], computed in [size_t] and stored in an
    [int64]. *)
Definition string_slice_num (elem_size slice_size : Z) : option Z :=
  option_map int64_wrap
    (U64.div (U64.sub (U64.add elem_size (size_t_wrap slice_size)) 1)
             (size_t_wrap slice_size)).

(** The test [start > elem.size() - slice_size_] of [SendStringSlice]. *)
Definition string_is_last (elem_size slice_size i : Z) : bool :=
  U64.sub elem_size (size_t_wrap slice_size)
  <? size_t_wrap (I64.mul i slice_size).

(** [start] and [copy_size] of slice [i] in [SendStringSlice]. *)
Definition string_slice (elem_size slice_size i : Z) : Z * Z :=
  let start := size_t_wrap (I64.mul i slice_size) in
  let copy_size := size_t_wrap slice_size in
  let copy_size :=
    if string_is_last elem_size slice_size i
    then U64.sub elem_size start else copy_size in
  (start, copy_size).

Section Kernel.
Context `{Framework}.
Variable op : t.
Variable ctx : OpKernelContext.t.

Definition SendTotalBytes (frame_iter : FrameAndIter) (input_t : Tensor)
    : M unit :=
  let args := send_args ctx AllocatorAttributes in
  let total_bytes_t :=
    {| dtype := DT_INT64; shape := [];
       buf := Int64Values [int64_wrap (TotalBytes input_t)] |} in
  let key :=
    GetSliceRendezvousKey (key_prefix_ op) "_slice_transfer_totalbytes"
      frame_iter in
  ParseKey_checked key ;;
  Send key args total_bytes_t (OpKernelContext.is_input_dead ctx).

Definition SendShape (frame_iter : FrameAndIter) (input_t : Tensor)
    : M unit :=
  let args := send_args ctx AllocatorAttributes in
  let shape := shape input_t in
  let rank := size shape in
  let shape_t :=
    {| dtype := DT_INT64; shape := [rank]; buf := Int64Values shape |} in
  let key :=
    GetSliceRendezvousKey (key_prefix_ op) "_slice_transfer_shape"
      frame_iter in
  ParseKey_checked key ;;
  Send key args shape_t (OpKernelContext.is_input_dead ctx).

Definition SendStringSlice (frame_iter : FrameAndIter) (elem : tstring)
    (index : Z) : M unit :=
  let args := send_args ctx (OpKernelContext.input_alloc_attr ctx) in
  slice_num <- guard DivideByZero
                 (string_slice_num (size elem) (slice_size_ op)) ;;
  for_loop (Z.to_nat slice_num) 0 (fun i =>
    let '(start, copy_size) :=
      string_slice (size elem) (slice_size_ op) i in
    piece <- guard OutOfRange (substr elem start copy_size) ;;
    let data_t :=
      {| dtype := DT_STRING; shape := []; buf := StringValues [piece] |} in
    let tensor_name_suffix :=
      ("_slice_transfer_data_" ++ Str.to_string index ++ "_"
         ++ Str.to_string i)%string in
    let key :=
      GetSliceRendezvousKey (key_prefix_ op) tensor_name_suffix frame_iter in
    ParseKey_checked key ;;
    Send key args data_t (OpKernelContext.is_input_dead ctx)).

Definition SendString (frame_iter : FrameAndIter) (input_t : Tensor)
    : M unit :=
  let args := send_args ctx AllocatorAttributes in
  (* send elements size. *)
  let num_elements := NumElements input_t in
  input_flat <- guard CheckFailed (flat_tstring input_t) ;;
  let elements_size_t :=
    {| dtype := DT_INT64; shape := shape input_t;
       buf := Int64Values (map size input_flat) |} in
  let key :=
    GetSliceRendezvousKey (key_prefix_ op) "_slice_transfer_elements_size"
      frame_iter in
  ParseKey_checked key ;;
  Send key args elements_size_t (OpKernelContext.is_input_dead ctx) ;;
  (* send data. *)
  let args := send_args ctx (OpKernelContext.input_alloc_attr ctx) in
  for_loop (Z.to_nat num_elements) 0 (fun i =>
    elem <- guard OutOfRange (flat_get input_flat i) ;;
    if size elem <=? size_t_wrap (slice_size_ op) then
      let data_t :=
        {| dtype := DT_STRING; shape := []; buf := StringValues [elem] |} in
      let tensor_name_suffix :=
        ("_slice_transfer_data_" ++ Str.to_string i)%string in
      let key :=
        GetSliceRendezvousKey (key_prefix_ op) tensor_name_suffix
          frame_iter in
      ParseKey_checked key ;;
      Send key args data_t (OpKernelContext.is_input_dead ctx)
    else
      SendStringSlice frame_iter elem i).

Definition SendBasicType (frame_iter : FrameAndIter) (input_t : Tensor)
    : M unit :=
  let args := send_args ctx (OpKernelContext.input_alloc_attr ctx) in
  (* send data. *)
  let bytes_num := int64_wrap (TotalBytes input_t) in
  slice_num <- guard DivideByZero
                 (basic_slice_num bytes_num (slice_size_ op)) ;;
  input_base <- guard BadAccess (data input_t) ;;
  for_loop (Z.to_nat slice_num) 0 (fun i =>
    let '(start, copy_size) := basic_slice bytes_num (slice_size_ op) i in
    let data_t := allocate DT_INT8 [copy_size] in
    data_base <- guard BadAccess (data data_t) ;;
    copied <- guard OutOfRange
                (memcpy data_base 0 input_base start copy_size) ;;
    let data_t := set_buf data_t (RawBytes copied) in
    let tensor_name_suffix :=
      ("_slice_transfer_data_" ++ Str.to_string i)%string in
    let key :=
      GetSliceRendezvousKey (key_prefix_ op) tensor_name_suffix frame_iter in
    ParseKey_checked key ;;
    Send key args data_t (OpKernelContext.is_input_dead ctx)).

Definition Compute : M unit :=
  if negb (OpKernelContext.has_rendezvous ctx) then fail INTERNAL else
  let input_t := OpKernelContext.input ctx in
  let frame_iter := GetFrameAndIter ctx (hostmem_sendrecv_ op) in
  (* send total_bytes. *)
  SendTotalBytes frame_iter input_t ;;
  (* if input is dead, only send total_bytes dead tensor. *)
  if OpKernelContext.is_input_dead ctx then ret tt else
  (* if total bytes is smaller than slice size, send directly. *)
  if TotalBytes input_t <=? size_t_wrap (slice_size_ op) then
    let args := send_args ctx (OpKernelContext.input_alloc_attr ctx) in
    let key :=
      GetSliceRendezvousKey (key_prefix_ op) "_transfer_data" frame_iter in
    ParseKey_checked key ;;
    Send key args input_t (OpKernelContext.is_input_dead ctx)
  else
    (* send shape. *)
    SendShape frame_iter input_t ;;
    (* send data. *)
    if DataType_eqb (dtype_ op) DT_STRING
    then SendString frame_iter input_t
    else SendBasicType frame_iter input_t.

End Kernel.

End SliceSendOp.

(** ** [SliceRecvOp] *)

Module SliceRecvOp.

(** The node attributes the constructor reads; the incarnation is the
    [uint64] the [int64] attribute is read into. *)
Record Attrs := {
  send_device : string;
  recv_device : string;
  send_device_incarnation : Z;
  tensor_name : string;
  hostmem_sendrecv : option bool;   (* "_hostmem_sendrecv", optional *)
  slice_size : Z;
  tensor_type : DataType;
  timeout_ms : Z
}.

Record t := {
  key_prefix_ : string;
  hostmem_sendrecv_ : bool;
  slice_size_ : Z;
  dtype_ : DataType;
  timeout_ms_ : Z
}.

(** [SliceRecvOp::SliceRecvOp]. *)
Definition construct (a : Attrs) : t :=
  {| key_prefix_ :=
       GetSliceRendezvousKeyPrefix (send_device a) (recv_device a)
         (send_device_incarnation a) (tensor_name a);
     hostmem_sendrecv_ :=
       match hostmem_sendrecv a with Some b => b | None => false end;
     slice_size_ := slice_size a;
     dtype_ := tensor_type a;
     timeout_ms_ := timeout_ms a |}.

(** [slice_num] of [RecvBasicType] and of [RecvStringSlice]. *)
Definition slice_num_of (total slice_size : Z) : option Z :=
  I64.div (I64.sub (I64.add total slice_size) 1) slice_size.

(** The test [start > total_bytes - slice_size_] of [RecvBasicType]. *)
Definition basic_is_last (total_bytes slice_size i : Z) : bool :=
  I64.sub total_bytes slice_size <? I64.mul i slice_size.

(** [start] and [copy_size] of slice [i] in [RecvBasicType]. *)
Definition basic_slice (total_bytes slice_size i : Z) : Z * Z :=
  let start := I64.mul i slice_size in
  let copy_size := slice_size in
  let copy_size :=
    if basic_is_last total_bytes slice_size i
    then I64.sub total_bytes start else copy_size in
  (start, copy_size).

Section Kernel.
Context `{Framework}.
Variable op : t.
Variable ctx : OpKernelContext.t.

(** Returns [is_dead] and [total_bytes]; the latter is left unset, here
    [0], when the envelope is dead. *)
Definition RecvTotalBytes (frame_iter : FrameAndIter) : M (bool * Z) :=
  let args := recv_args ctx AllocatorAttributes in
  let key :=
    GetSliceRendezvousKey (key_prefix_ op) "_slice_transfer_totalbytes"
      frame_iter in
  ParseKey_checked key ;;
  r <- Recv key args (timeout_ms_ op) ;;
  let '(total_bytes_t, is_dead) := r in
  if negb is_dead then
    total_bytes <- guard CheckFailed (scalar_int64 total_bytes_t) ;;
    ret (is_dead, total_bytes)
  else ret (is_dead, 0).

Definition RecvShape (frame_iter : FrameAndIter) : M (list Z) :=
  let args := recv_args ctx AllocatorAttributes in
  let key :=
    GetSliceRendezvousKey (key_prefix_ op) "_slice_transfer_shape"
      frame_iter in
  ParseKey_checked key ;;
  r <- Recv key args (timeout_ms_ op) ;;
  let '(shape_t, is_dead) := r in
  (* This shouldn't be a dead tensor. *)
  CHECK_not_dead is_dead ;;
  shape_vec <- guard CheckFailed (vec_int64 shape_t) ;;
  ret shape_vec.

Definition RecvStringSlice (frame_iter : FrameAndIter) (index : Z)
    (element_size : Z) (output_flat : list tstring) : M (list tstring) :=
  let args := recv_args ctx (OpKernelContext.output_alloc_attr ctx) in
  slice_num <- guard DivideByZero
                 (slice_num_of element_size (slice_size_ op)) ;;
  for_loop_acc (Z.to_nat slice_num) 0 (fun i output_flat =>
    let tensor_name_suffix :=
      ("_slice_transfer_data_" ++ Str.to_string index ++ "_"
         ++ Str.to_string i)%string in
    let key :=
      GetSliceRendezvousKey (key_prefix_ op) tensor_name_suffix frame_iter in
    ParseKey_checked key ;;
    r <- Recv key args (timeout_ms_ op) ;;
    let '(data_t, is_dead) := r in
    (* This shouldn't be a dead tensor. *)
    CHECK_not_dead is_dead ;;
    piece <- guard CheckFailed (scalar_tstring data_t) ;;
    old <- guard OutOfRange (flat_get output_flat index) ;;
    guard OutOfRange (flat_set output_flat index (old ++ piece))
  ) output_flat.

Definition RecvString (frame_iter : FrameAndIter) (shape : list Z)
    (output_t : Tensor) : M Tensor :=
  let args := recv_args ctx AllocatorAttributes in
  (* recv elements size. *)
  let key :=
    GetSliceRendezvousKey (key_prefix_ op) "_slice_transfer_elements_size"
      frame_iter in
  ParseKey_checked key ;;
  r <- Recv key args (timeout_ms_ op) ;;
  let '(elements_size_t, is_dead) := r in
  (* This shouldn't be a dead tensor. *)
  CHECK_not_dead is_dead ;;
  elements_size_flat <- guard CheckFailed (flat_int64 elements_size_t) ;;
  let num_elements := num_elements shape in
  let args := recv_args ctx (OpKernelContext.output_alloc_attr ctx) in
  output_flat <- guard CheckFailed (flat_tstring output_t) ;;
  output_flat <-
    for_loop_acc (Z.to_nat num_elements) 0 (fun i output_flat =>
      element_size <- guard OutOfRange (flat_get elements_size_flat i) ;;
      if element_size <=? slice_size_ op then
        let tensor_name_suffix :=
          ("_slice_transfer_data_" ++ Str.to_string i)%string in
        let key :=
          GetSliceRendezvousKey (key_prefix_ op) tensor_name_suffix
            frame_iter in
        ParseKey_checked key ;;
        r <- Recv key args (timeout_ms_ op) ;;
        let '(data_t, is_dead) := r in
        (* This shouldn't be a dead tensor. *)
        CHECK_not_dead is_dead ;;
        elem <- guard CheckFailed (scalar_tstring data_t) ;;
        guard OutOfRange (flat_set output_flat i elem)
      else
        RecvStringSlice frame_iter i element_size output_flat
    ) output_flat ;;
  ret (set_buf output_t (StringValues output_flat)).

Definition RecvBasicType (frame_iter : FrameAndIter) (total_bytes : Z)
    (output_t : Tensor) : M Tensor :=
  let args := recv_args ctx (OpKernelContext.output_alloc_attr ctx) in
  slice_num <- guard DivideByZero
                 (slice_num_of total_bytes (slice_size_ op)) ;;
  output_base <- guard BadAccess (data output_t) ;;
  output_base <-
    for_loop_acc (Z.to_nat slice_num) 0 (fun i output_base =>
      let '(start, copy_size) :=
        basic_slice total_bytes (slice_size_ op) i in
      let tensor_name_suffix :=
        ("_slice_transfer_data_" ++ Str.to_string i)%string in
      let key :=
        GetSliceRendezvousKey (key_prefix_ op) tensor_name_suffix
          frame_iter in
      ParseKey_checked key ;;
      r <- Recv key args (timeout_ms_ op) ;;
      let '(data_t, is_dead) := r in
      (* This shouldn't be a dead tensor. *)
      CHECK_not_dead is_dead ;;
      data_base <- guard BadAccess (data data_t) ;;
      guard OutOfRange (memcpy output_base start data_base 0 copy_size)
    ) output_base ;;
  ret (set_buf output_t (RawBytes output_base)).

(** Returns the output tensor, or nothing when the value is dead. The output
    is the value of a run that returns OK only: the source allocates output 0
    after the [Shape] phase and fills it in place, and what a run that stops
    in a data phase leaves in it is not kept. *)
Definition Compute : M (option Tensor) :=
  if negb (OpKernelContext.has_rendezvous ctx) then fail INTERNAL else
  let frame_iter := GetFrameAndIter ctx (hostmem_sendrecv_ op) in
  (* recv total_bytes. *)
  r <- RecvTotalBytes frame_iter ;;
  let '(is_dead, total_bytes) := r in
  if is_dead then ret None else
  (* if total bytes is smaller than slice size, recv directly. *)
  if total_bytes <=? slice_size_ op then
    let args := recv_args ctx (OpKernelContext.output_alloc_attr ctx) in
    let key :=
      GetSliceRendezvousKey (key_prefix_ op) "_transfer_data" frame_iter in
    ParseKey_checked key ;;
    r <- Recv key args (timeout_ms_ op) ;;
    let '(data_t, is_dead) := r in
    (* This shouldn't be a dead tensor. *)
    CHECK_not_dead is_dead ;;
    ret (Some data_t)
  else
    (* recv shape. *)
    shape <- RecvShape frame_iter ;;
    (* recv data *)
    let output_t := allocate (dtype_ op) shape in
    if DataType_eqb (dtype_ op) DT_STRING then
      output_t <- RecvString frame_iter shape output_t ;;
      ret (Some output_t)
    else
      output_t <- RecvBasicType frame_iter total_bytes output_t ;;
      ret (Some output_t).

End Kernel.

End SliceRecvOp.

(** ** Vocabulary of the properties *)

(** The least number of chunks of [b] units that cover [a] units. *)
Definition ceil_div (a b : Z) : Z :=
  a / b + (if a mod b =? 0 then 0 else 1).

(** The indices [0 .. n-1] a loop goes through. *)
Definition indices (n : Z) : list Z := map Z.of_nat (seq 0 (Z.to_nat n)).

(** The [(start, copy_size)] pairs the loop of [SendBasicType] goes
    through. *)
Definition send_slices (bytes_num slice_size : Z) : option (list (Z * Z)) :=
  option_map
    (fun n => map (SliceSendOp.basic_slice bytes_num slice_size) (indices n))
    (SliceSendOp.basic_slice_num bytes_num slice_size).

(** The [(start, copy_size)] pairs the loop of [RecvBasicType] goes
    through. *)
Definition recv_slices (total_bytes slice_size : Z) : option (list (Z * Z)) :=
  option_map
    (fun n => map (SliceRecvOp.basic_slice total_bytes slice_size) (indices n))
    (SliceRecvOp.slice_num_of total_bytes slice_size).

(** What one run of kernel code [m] adds to the log and how it may end: every
    event it logs satisfies [P] and every fault it ends in satisfies [F],
    except that ending in a fault of [X] excuses it from [P]. *)
Definition respects {A} (P : Event -> Prop) (F X : Fault -> Prop) (m : M A)
    : Prop :=
  forall w, exists evs,
    trace (snd (m w)) = trace w ++ evs
    /\ (forall f, fst (m w) = Halt f -> F f)
    /\ (Forall P evs \/ exists f, fst (m w) = Halt f /\ X f).

(** The key an event was logged under. *)
Definition event_key (e : Event) : string :=
  match e with
  | SendEvent key _ => key
  | RecvEvent key _ => key
  end.

(** The event was logged under the key of a phase of the transfer instance
    identified by [key_prefix] and [frame_iter]. *)
Definition on_phase_key (key_prefix : string) (frame_iter : FrameAndIter)
    (e : Event) : Prop :=
  exists p, event_key e = phase_key key_prefix frame_iter p.

(** The keys of the events of a log. *)
Definition keys_of (tr : list Event) : list string := map event_key tr.

(** The message an event carries, if any. *)
Definition event_message (e : Event) : option Message :=
  match e with
  | SendEvent _ m => Some m
  | RecvEvent _ found => found
  end.

(** An event under any key but [total_bytes_key] carries no dead message. *)
Definition live_after_total_bytes (total_bytes_key : string) (e : Event)
    : Prop :=
  event_key e = total_bytes_key
  \/ forall m, event_message e = Some m -> msg_is_dead m = false.

(** The world after [Send] deposited [m] under [key]. *)
Definition deposit (key : string) (m : Message) (w : World) : World :=
  set_table (table (rendezvous w) ++ [(key, m)]) (log (SendEvent key m) w).

(** The world after [Recv] took [m] from under [key] and left [rest]. *)
Definition withdraw (key : string) (m : Message)
    (rest : list (string * Message)) (w : World) : World :=
  set_table rest (log (RecvEvent key (Some m)) w).

(** The [DT_INT64] scalar that carries the total size. *)
Definition total_bytes_tensor `{Framework} (input_t : Tensor) : Tensor :=
  {| dtype := DT_INT64; shape := [];
     buf := Int64Values [int64_wrap (TotalBytes input_t)] |}.

(** The lengths of the [DT_INT8] slice tensors sent in a log. *)
Fixpoint sent_slice_lengths (tr : list Event) : list Z :=
  match tr with
  | [] => []
  | SendEvent _ m :: tr' =>
      match dtype (msg_val m), buf (msg_val m) with
      | DT_INT8, RawBytes b => size b :: sent_slice_lengths tr'
      | _, _ => sent_slice_lengths tr'
      end
  | RecvEvent _ _ :: tr' => sent_slice_lengths tr'
  end.

(** Number of occurrences of [c] in [s]. *)
Fixpoint count_char (c : ascii) (s : string) : nat :=
  match s with
  | EmptyString => O
  | String d s' => (if Ascii.eqb d c then 1 else 0) + count_char c s'
  end.

(** [n] consecutive indices from [i] on. *)
Fixpoint range (i : Z) (n : nat) : list Z :=
  match n with
  | O => []
  | S n' => i :: range (i + 1) n'
  end.

(** The rendezvous is usable and holds [ms] behind the older entries
    [older]. *)
Definition pending (older ms : list (string * Message)) (w : World) : Prop :=
  aborted (rendezvous w) = None /\ table (rendezvous w) = older ++ ms.

(** Run on a usable rendezvous, [m] returns OK after depositing exactly
    [ms], in this order. *)
Definition sends (ms : list (string * Message)) (m : M unit) : Prop :=
  forall w,
    aborted (rendezvous w) = None ->
    exists w',
      m w = (Done tt, w')
      /\ aborted (rendezvous w') = None
      /\ table (rendezvous w') = table (rendezvous w) ++ ms.

(** Run on a rendezvous holding [ms] behind [older], [m] takes exactly [ms]
    and returns a value that satisfies [Q]. *)
Definition receives {A} (older ms : list (string * Message)) (Q : A -> Prop)
    (m : M A) : Prop :=
  forall w later,
    pending older (ms ++ later) w ->
    exists a w', m w = (Done a, w') /\ pending older later w' /\ Q a.

(** A payload: a fixed-width tensor with the bytes of its elements, or a
    string tensor with its elements. *)
Definition payload_wf (t : Tensor) : Prop :=
  match buf t with
  | RawBytes b =>
      dtype t <> DT_STRING /\ size b = NumElements t * DataTypeSize (dtype t)
  | StringValues s => dtype t = DT_STRING /\ size s = NumElements t
  | Int64Values _ => False
  end.

(** Sender and receiver were built for the same edge, slice size and type. *)
Definition matching (sop : SliceSendOp.t) (rop : SliceRecvOp.t) : Prop :=
  SliceSendOp.key_prefix_ sop = SliceRecvOp.key_prefix_ rop
  /\ SliceSendOp.hostmem_sendrecv_ sop = SliceRecvOp.hostmem_sendrecv_ rop
  /\ SliceSendOp.slice_size_ sop = SliceRecvOp.slice_size_ rop
  /\ SliceSendOp.dtype_ sop = SliceRecvOp.dtype_ rop.

(** The phases that carry element [index] of a string tensor, and the
    phases of a whole transfer, in order. *)
Definition element_phases (slice_size index : Z) (elem : tstring)
    : list Phase :=
  if size elem <=? slice_size
  then [DataSlice index]
  else map (DataSubSlice index)
         (range 0 (Z.to_nat (ceil_div (size elem) slice_size))).

Fixpoint elements_phases (slice_size index : Z) (elems : list tstring)
    : list Phase :=
  match elems with
  | [] => []
  | elem :: rest =>
      element_phases slice_size index elem
        ++ elements_phases slice_size (index + 1) rest
  end.

Definition transfer_phases `{Framework} (slice_size : Z) (input_t : Tensor)
    : list Phase :=
  TotalBytesPhase
  :: (if TotalBytes input_t <=? slice_size
      then [TransferData]
      else ShapePhase
           :: match buf input_t with
              | RawBytes b =>
                  map DataSlice
                    (range 0 (Z.to_nat (ceil_div (size b) slice_size)))
              | StringValues elems =>
                  ElementsSizePhase :: elements_phases slice_size 0 elems
              | Int64Values _ => []
              end).

(** The element a data phase belongs to. *)
Definition data_index (p : Phase) : option Z :=
  match p with
  | DataSlice i => Some i
  | DataSubSlice i _ => Some i
  | _ => None
  end.

(** The sender's run on [w] returns OK, and the receiver's run on the world
    it leaves returns the sender's input tensor and leaves the table as it
    was in [w]. *)
Definition round_trips `{Framework} (sop : SliceSendOp.t)
    (rop : SliceRecvOp.t) (sctx rctx : OpKernelContext.t) (w : World)
    : Prop :=
  exists w1 w2,
    SliceSendOp.Compute sop sctx w = (Done tt, w1)
    /\ SliceRecvOp.Compute rop rctx w1
       = (Done (Some (OpKernelContext.input sctx)), w2)
    /\ table (rendezvous w2) = table (rendezvous w).

(** ** The messages of one transfer *)

Section TransferMessages.

Context `{Framework}.
Variable key_prefix : string.
Variable frame_iter : FrameAndIter.
Variable ctx : OpKernelContext.t.
Variable slice_size : Z.

Definition envelope (attrs : Z) (val : Tensor) : Message :=
  {| msg_args := send_args ctx attrs; msg_val := val; msg_is_dead := false |}.

(** Start and length of slice [i] of [total] bytes. *)
Definition slice_range (total i : Z) : Z * Z :=
  (i * slice_size,
   if total - slice_size <? i * slice_size
   then total - i * slice_size else slice_size).

(** The bytes of [b] in the range [r]. *)
Definition chunk (b : list byte) (r : Z * Z) : list byte :=
  firstn (Z.to_nat (snd r)) (skipn (Z.to_nat (fst r)) b).

Definition scalar_string (s : tstring) : Tensor :=
  {| dtype := DT_STRING; shape := []; buf := StringValues [s] |}.

Definition total_bytes_message (input_t : Tensor) : string * Message :=
  (phase_key key_prefix frame_iter TotalBytesPhase,
   envelope AllocatorAttributes (total_bytes_tensor input_t)).

Definition direct_message (input_t : Tensor) : string * Message :=
  (phase_key key_prefix frame_iter TransferData,
   envelope (OpKernelContext.input_alloc_attr ctx) input_t).

Definition shape_message (input_t : Tensor) : string * Message :=
  (phase_key key_prefix frame_iter ShapePhase,
   envelope AllocatorAttributes
     {| dtype := DT_INT64; shape := [size (shape input_t)];
        buf := Int64Values (shape input_t) |}).

Definition elements_size_message (input_t : Tensor) (elems : list tstring)
    : string * Message :=
  (phase_key key_prefix frame_iter ElementsSizePhase,
   envelope AllocatorAttributes
     {| dtype := DT_INT64; shape := shape input_t;
        buf := Int64Values (map size elems) |}).

Definition basic_slice_message (b : list byte) (i : Z) : string * Message :=
  (phase_key key_prefix frame_iter (DataSlice i),
   envelope (OpKernelContext.input_alloc_attr ctx)
     {| dtype := DT_INT8; shape := [snd (slice_range (size b) i)];
        buf := RawBytes (chunk b (slice_range (size b) i)) |}).

Definition string_slice_message (index : Z) (elem : tstring) (i : Z)
    : string * Message :=
  (phase_key key_prefix frame_iter (DataSubSlice index i),
   envelope (OpKernelContext.input_alloc_attr ctx)
     (scalar_string (chunk elem (slice_range (size elem) i)))).

(** The messages that carry element [index]. *)
Definition element_messages (index : Z) (elem : tstring)
    : list (string * Message) :=
  if size elem <=? slice_size
  then [(phase_key key_prefix frame_iter (DataSlice index),
         envelope (OpKernelContext.input_alloc_attr ctx) (scalar_string elem))]
  else map (string_slice_message index elem)
         (range 0 (Z.to_nat (ceil_div (size elem) slice_size))).

Fixpoint elements_messages (index : Z) (elems : list tstring)
    : list (string * Message) :=
  match elems with
  | [] => []
  | elem :: rest =>
      element_messages index elem ++ elements_messages (index + 1) rest
  end.

(** The messages of the transfer of [input_t], in the order of the phases. *)
Definition transfer_messages (input_t : Tensor) : list (string * Message) :=
  total_bytes_message input_t
  :: (if TotalBytes input_t <=? slice_size
      then [direct_message input_t]
      else shape_message input_t
           :: match buf input_t with
              | RawBytes b =>
                  map (basic_slice_message b)
                    (range 0 (Z.to_nat (ceil_div (size b) slice_size)))
              | StringValues elems =>
                  elements_size_message input_t elems
                  :: elements_messages 0 elems
              | Int64Values _ => []
              end).

End TransferMessages.

(** ** Vocabulary of the further properties *)

(** The event was logged under a key that [ParseKey] accepts. *)
Definition accepted `{Framework} (e : Event) : Prop :=
  ParseKey (event_key e) = true.

(** The event is a call of [Send]. *)
Definition is_send (e : Event) : Prop :=
  match e with
  | SendEvent _ _ => True
  | RecvEvent _ _ => False
  end.

(** The event is a call of [Recv]. *)
Definition is_recv (e : Event) : Prop :=
  match e with
  | SendEvent _ _ => False
  | RecvEvent _ _ => True
  end.

(** The messages waiting under [key], oldest first. *)
Definition pending_under (key : string) (w : World) : list Message :=
  map snd
    (filter (fun km => String.eqb (fst km) key) (table (rendezvous w))).

(** [key] is not the key of any phase of the transfer instance identified by
    [key_prefix] and [frame_iter]. *)
Definition foreign (key_prefix : string) (frame_iter : FrameAndIter)
    (key : string) : Prop :=
  forall p, key <> phase_key key_prefix frame_iter p.

(** From [w] to [w'] the abort status stayed and every queue only grew at its
    back, the queues under foreign keys not at all. *)
Definition only_deposited (key_prefix : string) (frame_iter : FrameAndIter)
    (w w' : World) : Prop :=
  aborted (rendezvous w') = aborted (rendezvous w)
  /\ forall key,
       exists added,
         pending_under key w' = pending_under key w ++ added
         /\ (foreign key_prefix frame_iter key -> added = []).

(** From [w] to [w'] the abort status stayed and every queue only lost
    messages at its front, the queues under foreign keys none. *)
Definition only_withdrew (key_prefix : string) (frame_iter : FrameAndIter)
    (w w' : World) : Prop :=
  aborted (rendezvous w') = aborted (rendezvous w)
  /\ forall key,
       exists taken,
         pending_under key w = taken ++ pending_under key w'
         /\ (foreign key_prefix frame_iter key -> taken = []).

(** Whatever the outcome, a run of [m] takes a world to one related by
    [R]. *)
Definition preserves {A} (R : World -> World -> Prop) (m : M A) : Prop :=
  forall w, R w (snd (m w)).

(** How a run of [m] may end other than by returning OK: a status it
    returns is one of [S], or the status the rendezvous was aborted with
    before the run; a fault is one of [F]; and the abort status is left as it
    was. *)
Definition ends {A} (S : Code -> Prop) (F : Fault -> Prop) (m : M A) : Prop :=
  forall w,
    aborted (rendezvous (snd (m w))) = aborted (rendezvous w)
    /\ (forall c, fst (m w) = Failed c ->
                  S c \/ aborted (rendezvous w) = Some c)
    /\ (forall f, fst (m w) = Halt f -> F f).

(** When a run of [m] returns a status, the status is one of [S], or [C]
    holds of it and of the world the run leaves. *)
Definition fails_by {A} (S : Code -> Prop) (C : Code -> World -> Prop)
    (m : M A) : Prop :=
  forall w c, fst (m w) = Failed c -> S c \/ C c (snd (m w)).

(** The bytes a data message carries: those of a slice tensor, or the string
    of a scalar string tensor. *)
Definition carried (km : string * Message) : list byte :=
  match buf (msg_val (snd km)) with
  | RawBytes c => c
  | StringValues [s] => s
  | _ => []
  end.

(** The messages [g] carry the bytes [b] in [DT_INT8] slice tensors of at
    least one and at most [slice_size] bytes, [ceil(size b / slice_size)] of
    them. *)
Definition carries_bytes (slice_size : Z) (b : list byte)
    (g : list (string * Message)) : Prop :=
  flat_map carried g = b
  /\ size g = ceil_div (size b) slice_size
  /\ Forall
       (fun km =>
          1 <= size (carried km) <= slice_size
          /\ msg_val (snd km)
             = {| dtype := DT_INT8; shape := [size (carried km)];
                  buf := RawBytes (carried km) |}) g.

(** The messages [g] carry the string [elem] in scalar string tensors: in one
    when it has at most [slice_size] bytes, and otherwise in
    [ceil(size elem / slice_size)] pieces of at least one and at most
    [slice_size] bytes. *)
Definition carries_element (slice_size : Z) (elem : tstring)
    (g : list (string * Message)) : Prop :=
  flat_map carried g = elem
  /\ size g
     = (if size elem <=? slice_size then 1
        else ceil_div (size elem) slice_size)
  /\ Forall
       (fun km =>
          size (carried km) <= slice_size
          /\ (slice_size < size elem -> 1 <= size (carried km))
          /\ msg_val (snd km) = scalar_string (carried km)) g.

(** How [Recv] ends when nothing is or comes under its key. *)
Definition timed_out {A} (timeout_ms : Z) : Outcome A :=
  if 0 <? timeout_ms then Failed DEADLINE_EXCEEDED else Halt Blocked.

(** Run on a rendezvous holding [ms] and then [left] behind [older], [m]
    takes exactly [ms] and then waits for a message that is not there. *)
Definition starves {A} (older ms left : list (string * Message))
    (timeout_ms : Z) (m : M A) : Prop :=
  forall w,
    pending older (ms ++ left) w ->
    exists w', m w = (timed_out timeout_ms, w') /\ pending older left w'.

(** Run on a rendezvous holding [ms] behind [older], [m] takes exactly [ms]
    and returns a value that satisfies [Q]; run on one that holds only a
    proper initial part of [ms], it takes that part and then waits for the
    message that is not there. *)
Definition takes {A} (older ms : list (string * Message)) (Q : A -> Prop)
    (timeout_ms : Z) (m : M A) : Prop :=
  receives older ms Q m
  /\ forall sent missing,
       ms = sent ++ missing -> missing <> [] ->
       starves older sent [] timeout_ms m.

(** The allocator attributes the sender gives the message of a phase: those
    of its input for the messages that carry data, the default ones for the
    three envelopes. *)
Definition phase_alloc_attrs (ctx : OpKernelContext.t) (p : Phase) : Z :=
  match p with
  | TotalBytesPhase | ShapePhase | ElementsSizePhase => AllocatorAttributes
  | TransferData | DataSlice _ | DataSubSlice _ _ =>
      OpKernelContext.input_alloc_attr ctx
  end.

(** The event is the send of a message of a phase of the transfer instance,
    with the [Args] of that phase. *)
Definition sent_with_args (key_prefix : string) (frame_iter : FrameAndIter)
    (ctx : OpKernelContext.t) (e : Event) : Prop :=
  exists p m,
    e = SendEvent (phase_key key_prefix frame_iter p) m
    /\ msg_args m = send_args ctx (phase_alloc_attrs ctx p)
    /\ msg_is_dead m = OpKernelContext.is_input_dead ctx.

(** No [;] occurs in [s]. *)
Definition semicolon_free (s : string) : Prop := count_char ";" s = O.

(** ** Inputs for the examples *)

(** A framework that accepts the keys made of five fields and gives a
    [tstring] object 24 bytes. *)
Definition example_framework : Framework :=
  {| ParseKey := fun key => Nat.eqb (count_char ";" key) 4;
     sizeof_tstring := 24;
     sizeof_tstring_nonneg := ltac:(discriminate) |}.

(** A rendezvous as [NewLocalRendezvous] returns it, and an empty log. *)
Definition fresh_world : World :=
  {| rendezvous := {| table := []; aborted := None |}; trace := [] |}.

Definition example_ctx (input : Tensor) (is_dead : bool) : OpKernelContext.t :=
  {| OpKernelContext.has_rendezvous := true;
     OpKernelContext.input := input;
     OpKernelContext.is_input_dead := is_dead;
     OpKernelContext.call_frame := None;
     OpKernelContext.frame_iter := {| frame_id := 1; iter_id := 0 |};
     OpKernelContext.op_device_context := 0;
     OpKernelContext.input_alloc_attr := 0;
     OpKernelContext.output_alloc_attr := 0;
     OpKernelContext.is_eager := false;
     OpKernelContext.cancellation_manager := 0 |}.

Definition example_send_attrs (slice_size : Z) (T : DataType)
    : SliceSendOp.Attrs :=
  {| SliceSendOp.send_device := "/job:worker/replica:0/task:0/device:CPU:0";
     SliceSendOp.recv_device := "/job:ps/replica:0/task:0/device:CPU:0";
     SliceSendOp.send_device_incarnation := 1;
     SliceSendOp.tensor_name := "edge_5_x";
     SliceSendOp.hostmem_sendrecv := None;
     SliceSendOp.slice_size := slice_size;
     SliceSendOp.T := T |}.

Definition example_recv_attrs (slice_size : Z) (T : DataType)
    : SliceRecvOp.Attrs :=
  {| SliceRecvOp.send_device := "/job:worker/replica:0/task:0/device:CPU:0";
     SliceRecvOp.recv_device := "/job:ps/replica:0/task:0/device:CPU:0";
     SliceRecvOp.send_device_incarnation := 1;
     SliceRecvOp.tensor_name := "edge_5_x";
     SliceRecvOp.hostmem_sendrecv := None;
     SliceRecvOp.slice_size := slice_size;
     SliceRecvOp.tensor_type := T;
     SliceRecvOp.timeout_ms := 1000 |}.

(** A rank-1 tensor of bytes and a rank-1 tensor of strings. *)
Definition bytes_tensor (b : list byte) : Tensor :=
  {| dtype := DT_UINT8; shape := [size b]; buf := RawBytes b |}.

Definition strings_tensor (s : list tstring) : Tensor :=
  {| dtype := DT_STRING; shape := [size s]; buf := StringValues s |}.

(** ** Facts about machine integers *)

Lemma int64_wrap_small (z : Z) :
  - 2 ^ 63 <= z <= INT64_MAX -> int64_wrap z = z.
Proof.
  unfold int64_wrap, INT64_MAX. intros Hz.
  rewrite Z.mod_small by lia. lia.
Qed.

Lemma size_t_wrap_small (z : Z) :
  0 <= z <= INT64_MAX -> size_t_wrap z = z.
Proof.
  unfold size_t_wrap, INT64_MAX. intros Hz.
  apply Z.mod_small. lia.
Qed.

Lemma ceil_div_eq (a b : Z) :
  0 < b -> ceil_div a b = (a + b - 1) / b.
Proof.
  intros Hb. unfold ceil_div.
  pose proof (Z.div_mod a b ltac:(lia)) as E.
  pose proof (Z.mod_pos_bound a b Hb) as B.
  destruct (Z.eqb_spec (a mod b) 0) as [Z0|NZ].
  - apply (Z.div_unique _ _ _ (b - 1)); lia.
  - apply (Z.div_unique _ _ _ (a mod b - 1)); lia.
Qed.

Lemma ceil_div_bounds (a b : Z) :
  0 < b -> (ceil_div a b - 1) * b < a <= ceil_div a b * b.
Proof.
  intros Hb. unfold ceil_div.
  pose proof (Z.div_mod a b ltac:(lia)) as E.
  pose proof (Z.mod_pos_bound a b Hb) as B.
  destruct (Z.eqb_spec (a mod b) 0); nia.
Qed.

Lemma quot_ceil (a b : Z) :
  0 <= a -> 0 < b -> Z.quot (a + b - 1) b = ceil_div a b.
Proof.
  intros Ha Hb. rewrite Z.quot_div_nonneg by lia.
  symmetry. now apply ceil_div_eq.
Qed.

Lemma index_in_range (a b i : Z) :
  0 < b -> 0 <= i < ceil_div a b -> 0 <= i * b < a.
Proof.
  intros Hb Hi. pose proof (ceil_div_bounds a b Hb). nia.
Qed.

Lemma last_index (a b i : Z) :
  0 < b -> 0 <= i < ceil_div a b -> a - b < i * b -> i = ceil_div a b - 1.
Proof.
  intros Hb Hi Hl. pose proof (ceil_div_bounds a b Hb). nia.
Qed.

(** ** The slicing rule *)

Section SliceArithmetic.

Variables total slice_size : Z.
Hypothesis slice_size_pos : 1 <= slice_size.
Hypothesis total_fits : total <= INT64_MAX.

Lemma send_basic_slice_num :
  0 <= total -> total + slice_size <= INT64_MAX ->
  SliceSendOp.basic_slice_num total slice_size
  = Some (ceil_div total slice_size).
Proof.
  intros Ht Hsum.
  unfold SliceSendOp.basic_slice_num, I64.div, I64.sub, I64.add.
  destruct (Z.eqb_spec slice_size 0); [lia|].
  unfold INT64_MAX in *.
  rewrite (int64_wrap_small (total + slice_size)) by (unfold INT64_MAX; lia).
  rewrite (int64_wrap_small (total + slice_size - 1))
    by (unfold INT64_MAX; lia).
  rewrite quot_ceil by lia.
  pose proof (ceil_div_bounds total slice_size ltac:(lia)).
  rewrite int64_wrap_small; [reflexivity|]. unfold INT64_MAX. nia.
Qed.

Lemma recv_slice_num_of :
  0 <= total -> total + slice_size <= INT64_MAX ->
  SliceRecvOp.slice_num_of total slice_size
  = Some (ceil_div total slice_size).
Proof. exact send_basic_slice_num. Qed.

Lemma send_string_slice_num :
  0 <= total -> total + slice_size <= INT64_MAX ->
  SliceSendOp.string_slice_num total slice_size
  = Some (ceil_div total slice_size).
Proof.
  intros Ht Hsum.
  unfold SliceSendOp.string_slice_num, U64.div, U64.sub, U64.add.
  unfold INT64_MAX in *.
  rewrite (size_t_wrap_small slice_size) by (unfold INT64_MAX; lia).
  destruct (Z.eqb_spec slice_size 0); [lia|].
  rewrite (size_t_wrap_small (total + slice_size))
    by (unfold INT64_MAX; lia).
  rewrite (size_t_wrap_small (total + slice_size - 1))
    by (unfold INT64_MAX; lia).
  rewrite quot_ceil by lia. simpl.
  pose proof (ceil_div_bounds total slice_size ltac:(lia)).
  rewrite int64_wrap_small; [reflexivity|]. unfold INT64_MAX. nia.
Qed.

Variable i : Z.
Hypothesis i_in_range : 0 <= i < ceil_div total slice_size.

Lemma mul_in_range : I64.mul i slice_size = i * slice_size.
Proof.
  pose proof (index_in_range total slice_size i ltac:(lia) i_in_range).
  unfold I64.mul. apply int64_wrap_small. unfold INT64_MAX in *. lia.
Qed.

Lemma send_basic_is_last :
  slice_size <= total ->
  SliceSendOp.basic_is_last total slice_size i
  = (total - slice_size <? i * slice_size).
Proof.
  intros Hs. unfold SliceSendOp.basic_is_last. rewrite mul_in_range.
  unfold I64.sub. rewrite int64_wrap_small; [reflexivity|].
  unfold INT64_MAX in *. lia.
Qed.

Lemma send_string_is_last :
  slice_size <= total ->
  SliceSendOp.string_is_last total slice_size i
  = (total - slice_size <? i * slice_size).
Proof.
  intros Hs. unfold SliceSendOp.string_is_last. rewrite mul_in_range.
  pose proof (index_in_range total slice_size i ltac:(lia) i_in_range).
  unfold U64.sub.
  rewrite (size_t_wrap_small slice_size) by (unfold INT64_MAX in *; lia).
  rewrite (size_t_wrap_small (total - slice_size))
    by (unfold INT64_MAX in *; lia).
  rewrite (size_t_wrap_small (i * slice_size))
    by (unfold INT64_MAX in *; lia).
  reflexivity.
Qed.

Lemma send_basic_slice :
  slice_size <= total ->
  SliceSendOp.basic_slice total slice_size i
  = (i * slice_size,
     if total - slice_size <? i * slice_size
     then total - i * slice_size else slice_size).
Proof.
  intros Hs. unfold SliceSendOp.basic_slice.
  rewrite send_basic_is_last by assumption. rewrite mul_in_range.
  pose proof (index_in_range total slice_size i ltac:(lia) i_in_range).
  unfold I64.sub. rewrite int64_wrap_small; [reflexivity|].
  unfold INT64_MAX in *. lia.
Qed.

Lemma recv_basic_slice :
  slice_size <= total ->
  SliceRecvOp.basic_slice total slice_size i
  = (i * slice_size,
     if total - slice_size <? i * slice_size
     then total - i * slice_size else slice_size).
Proof. exact send_basic_slice. Qed.

Lemma send_string_slice :
  slice_size <= total ->
  SliceSendOp.string_slice total slice_size i
  = (i * slice_size,
     if total - slice_size <? i * slice_size
     then total - i * slice_size else slice_size).
Proof.
  intros Hs. unfold SliceSendOp.string_slice.
  rewrite send_string_is_last by assumption. rewrite mul_in_range.
  pose proof (index_in_range total slice_size i ltac:(lia) i_in_range).
  unfold U64.sub.
  rewrite (size_t_wrap_small slice_size) by (unfold INT64_MAX in *; lia).
  rewrite (size_t_wrap_small (i * slice_size))
    by (unfold INT64_MAX in *; lia).
  rewrite (size_t_wrap_small (total - i * slice_size))
    by (unfold INT64_MAX in *; lia).
  reflexivity.
Qed.

End SliceArithmetic.

(** C8: for every total size [total >= slice_size >= 1] and every slice index
    [i] in range, the final-slice test the source uses,
    [i * slice_size > total - slice_size], holds exactly when
    [i * slice_size + slice_size > total]; this is so for the [int64] test of
    [SendBasicType] and [RecvBasicType] and for the [size_t] test of
    [SendStringSlice]. *)
Theorem final_slice_test_equivalence (total slice_size i : Z) :
  1 <= slice_size -> slice_size <= total -> total <= INT64_MAX ->
  0 <= i < ceil_div total slice_size ->
  (SliceSendOp.basic_is_last total slice_size i = true
   <-> i * slice_size + slice_size > total)
  /\ (SliceSendOp.string_is_last total slice_size i = true
      <-> i * slice_size + slice_size > total)
  /\ (SliceRecvOp.basic_is_last total slice_size i = true
      <-> i * slice_size + slice_size > total).
Proof.
  intros HS Hle Hmax Hi.
  change (SliceRecvOp.basic_is_last total slice_size i)
    with (SliceSendOp.basic_is_last total slice_size i).
  rewrite send_basic_is_last, send_string_is_last by assumption.
  rewrite Z.ltb_lt. lia.
Qed.

Lemma final_slice_test_equivalence_witness :
  (1 <= 3 /\ 3 <= 10 /\ 10 <= INT64_MAX /\ 0 <= 3 < ceil_div 10 3)
  /\ ((SliceSendOp.basic_is_last 10 3 3 = true <-> 3 * 3 + 3 > 10)
      /\ (SliceSendOp.string_is_last 10 3 3 = true <-> 3 * 3 + 3 > 10)
      /\ (SliceRecvOp.basic_is_last 10 3 3 = true <-> 3 * 3 + 3 > 10)).
Proof.
  assert (H : 1 <= 3 /\ 3 <= 10 /\ 10 <= INT64_MAX /\ 0 <= 3 < ceil_div 10 3)
    by (vm_compute; intuition discriminate).
  split; [exact H|].
  destruct H as (H1 & H2 & H3 & H4).
  exact (final_slice_test_equivalence 10 3 3 H1 H2 H3 H4).
Defined.

(** Outside its domain the rewritten comparison is a different one: with
    [slice_size > total] the [size_t] subtraction wraps around. *)
Example final_slice_test_needs_domain :
  SliceSendOp.string_is_last 1 2 0 = false /\ 0 * 2 + 2 > 1.
Proof. split; [reflexivity | lia]. Qed.

(** The two loops over the slices of a fixed-width payload: [SendBasicType]
    and [RecvBasicType] compute the same [ceil(N/S)] slices; slice [i] starts
    at [i * S] and has length [S], unless [i * S > N - S], which only the
    final slice can satisfy and which gives it the length [N - i * S]; the
    final slice has that length in every case. *)
Lemma slice_arithmetic (N S : Z) :
  1 <= S -> S < N -> N + S <= INT64_MAX ->
  let n := ceil_div N S in
  SliceSendOp.basic_slice_num N S = Some n
  /\ SliceRecvOp.slice_num_of N S = Some n
  /\ (forall i, 0 <= i < n ->
        SliceSendOp.basic_slice N S i
        = (i * S, if N - S <? i * S then N - i * S else S)
        /\ SliceRecvOp.basic_slice N S i
           = SliceSendOp.basic_slice N S i
        /\ (i < n - 1 -> snd (SliceSendOp.basic_slice N S i) = S)
        /\ (N - S < i * S -> i = n - 1))
  /\ snd (SliceSendOp.basic_slice N S (n - 1)) = N - (n - 1) * S.
Proof.
  intros HS HN Hfit n.
  assert (Hmax : N <= INT64_MAX) by lia.
  pose proof (ceil_div_bounds N S ltac:(lia)) as Hb. fold n in Hb.
  split; [apply send_basic_slice_num; lia|].
  split; [apply recv_slice_num_of; lia|].
  split.
  - intros i Hi. split; [apply send_basic_slice; lia|].
    split; [reflexivity|]. split.
    + intros Hlast. rewrite send_basic_slice by lia. simpl.
      destruct (Z.ltb_spec (N - S) (i * S)) as [Hl|_]; [|reflexivity].
      apply last_index in Hl; [fold n in Hl; lia | lia | assumption].
    + intros Hl. apply last_index; [lia | assumption | assumption].
  - rewrite send_basic_slice by (fold n; nia). simpl.
    destruct (Z.ltb_spec (N - S) ((n - 1) * S)); lia.
Qed.

(** ** What a run logs and how it ends *)

Section Respects.

Variable P : Event -> Prop.
Variables F X : Fault -> Prop.

Lemma respects_ret {A} (a : A) : respects P F X (ret a).
Proof.
  intros w. exists []. simpl. rewrite app_nil_r.
  repeat split; [discriminate | now left].
Qed.

Lemma respects_fail {A} (c : Code) : respects P F X (@fail A c).
Proof.
  intros w. exists []. simpl. rewrite app_nil_r.
  repeat split; [discriminate | now left].
Qed.

Lemma respects_halt {A} (f : Fault) : F f -> respects P F X (@halt A f).
Proof.
  intros Hf w. exists []. simpl. rewrite app_nil_r.
  repeat split; [intros g [= <-]; exact Hf | now left].
Qed.

Lemma respects_guard {A} (f : Fault) (o : option A) :
  (o = None -> F f) -> respects P F X (guard f o).
Proof.
  intros Hf. destruct o as [a|]; simpl.
  - apply respects_ret.
  - apply respects_halt. now apply Hf.
Qed.

Lemma respects_bind {A B} (m : M A) (k : A -> M B) :
  respects P F X m -> (forall a, respects P F X (k a)) ->
  respects P F X (bind m k).
Proof.
  intros Hm Hk w. unfold bind.
  destruct (Hm w) as (evs1 & Ht1 & Hf1 & Hp1).
  destruct (m w) as [[a|c|f] w1]; simpl in *.
  - destruct (Hk a w1) as (evs2 & Ht2 & Hf2 & Hp2).
    exists (evs1 ++ evs2). rewrite Ht2, Ht1, app_assoc.
    split; [reflexivity|]. split; [exact Hf2|].
    destruct Hp2 as [Hp2|Hx]; [|now right].
    destruct Hp1 as [Hp1|(f & Hd & _)]; [|discriminate].
    left. apply Forall_app. now split.
  - exists evs1. split; [exact Ht1|]. split; [discriminate|].
    destruct Hp1 as [Hp1|(f & Hd & _)]; [now left | discriminate].
  - exists evs1. split; [exact Ht1|].
    split; [intros g [= <-]; now apply Hf1|].
    destruct Hp1 as [Hp1|(g & [= <-] & Hx)]; [now left|].
    right. exists f. now split.
Qed.

Lemma respects_for_loop (n : nat) (body : Z -> M unit) :
  (forall i, respects P F X (body i)) ->
  forall i, respects P F X (for_loop n i body).
Proof.
  intros Hb. induction n as [|n IH]; intros i; simpl.
  - apply respects_ret.
  - apply respects_bind; [apply Hb | intros _; apply IH].
Qed.

Lemma respects_for_loop_acc {A} (n : nat) (body : Z -> A -> M A) :
  (forall i a, respects P F X (body i a)) ->
  forall i a, respects P F X (for_loop_acc n i body a).
Proof.
  intros Hb. induction n as [|n IH]; intros i a; simpl.
  - apply respects_ret.
  - apply respects_bind; [apply Hb | intros a'; apply IH].
Qed.

Lemma respects_CHECK_not_dead (is_dead : bool) :
  (is_dead = true -> F CheckFailed) ->
  respects P F X (CHECK_not_dead is_dead).
Proof.
  intros Hf. destruct is_dead; simpl.
  - apply respects_halt. now apply Hf.
  - apply respects_ret.
Qed.

Lemma respects_ParseKey_checked `{Framework} (key : string) :
  respects P F X (ParseKey_checked key).
Proof.
  unfold ParseKey_checked. destruct (ParseKey key).
  - apply respects_ret.
  - apply respects_fail.
Qed.

Lemma respects_Send (key : string) (args : Args) (val : Tensor)
    (is_dead : bool) :
  P (SendEvent key
       {| msg_args := args; msg_val := val; msg_is_dead := is_dead |}) ->
  respects P F X (Send key args val is_dead).
Proof.
  intros Hp w. eexists [_]. unfold Send.
  destruct (aborted (rendezvous w)); simpl;
    (split; [reflexivity|]; split; [discriminate|]; left; now constructor).
Qed.

Lemma respects_Recv (key : string) (args : Args) (timeout_ms : Z) :
  (forall found, P (RecvEvent key found)) -> F Blocked ->
  respects P F X (Recv key args timeout_ms).
Proof.
  intros Hp Hf w. unfold Recv.
  destruct (aborted (rendezvous w)).
  - exists [RecvEvent key None]. simpl.
    split; [reflexivity|]. split; [discriminate|]. left. now constructor.
  - destruct (take_first key (table (rendezvous w))) as [[m rest]|].
    + exists [RecvEvent key (Some m)]. simpl.
      split; [reflexivity|]. split; [discriminate|]. left. now constructor.
    + exists [RecvEvent key None]. simpl.
      split; [reflexivity|].
      split; [|left; now constructor].
      destruct (0 <? timeout_ms); [discriminate|].
      intros f [= <-]. exact Hf.
Qed.

(** A receive followed by its [CHECK_EQ(is_dead, false)]: a dead message is
    excused by the failed check. *)
Lemma respects_Recv_CHECK {A} (key : string) (args : Args) (timeout_ms : Z)
    (k : Tensor -> M A) :
  (forall m, msg_is_dead m = false -> P (RecvEvent key (Some m))) ->
  P (RecvEvent key None) -> F Blocked -> F CheckFailed -> X CheckFailed ->
  (forall v, respects P F X (k v)) ->
  respects P F X
    (bind (Recv key args timeout_ms)
       (fun r => let '(v, is_dead) := r in
                 bind (CHECK_not_dead is_dead) (fun _ => k v))).
Proof.
  intros Hlive Hnone Hb Hc Hx Hk w. unfold bind, Recv.
  destruct (aborted (rendezvous w)).
  - exists [RecvEvent key None]. simpl.
    split; [reflexivity|]. split; [discriminate|]. left. now constructor.
  - destruct (take_first key (table (rendezvous w))) as [[m rest]|].
    + destruct (msg_is_dead m) eqn:Ed.
      * exists [RecvEvent key (Some m)]. simpl.
        split; [reflexivity|]. split; [intros f [= <-]; exact Hc|].
        right. exists CheckFailed. now split.
      * unfold CHECK_not_dead, ret.
        match goal with
        | |- context [k ?v ?w1] => destruct (Hk v w1) as (evs & Ht & Hf & Hp)
        end.
        exists (RecvEvent key (Some m) :: evs).
        destruct (k (msg_val m) _) as [[a|c|f] w2]; simpl in *.
        -- split; [rewrite Ht; now rewrite <- app_assoc|].
           split; [discriminate|].
           destruct Hp as [Hp|(f & Hd & _)]; [|discriminate].
           left. constructor; auto.
        -- split; [rewrite Ht; now rewrite <- app_assoc|].
           split; [discriminate|].
           destruct Hp as [Hp|(f & Hd & _)]; [|discriminate].
           left. constructor; auto.
        -- split; [rewrite Ht; now rewrite <- app_assoc|].
           split; [exact Hf|].
           destruct Hp as [Hp|Hp]; [left; constructor; auto | now right].
    + exists [RecvEvent key None].
      destruct (0 <? timeout_ms); simpl.
      * split; [reflexivity|]. split; [discriminate|]. left. now constructor.
      * split; [reflexivity|]. split; [intros f [= <-]; exact Hb|].
        left. now constructor.
Qed.

End Respects.

(** One structural step of a [respects] proof; [side] discharges what the
    leaves ask of the predicates. *)
Ltac respects_step side :=
  lazymatch goal with
  | |- respects _ _ _ (ret _) => apply respects_ret
  | |- respects _ _ _ (fail _) => apply respects_fail
  | |- respects _ _ _ (halt _) => apply respects_halt; side
  | |- respects _ _ _ (guard _ _) => apply respects_guard; intros; side
  | |- respects _ _ _ (ParseKey_checked _) => apply respects_ParseKey_checked
  | |- respects _ _ _ (CHECK_not_dead _) =>
      apply respects_CHECK_not_dead; intros; side
  | |- respects _ _ _ (Send _ _ _ _) => apply respects_Send; side
  | |- respects _ _ _ (Recv _ _ _) => apply respects_Recv; intros; side
  | |- respects _ _ _ (for_loop _ _ _) => apply respects_for_loop; intros
  | |- respects _ _ _ (for_loop_acc _ _ _ _) =>
      apply respects_for_loop_acc; intros
  | |- respects _ _ _ (bind _ _) =>
      first [ apply respects_Recv_CHECK; [intros; side .. | intros]
            | apply respects_bind; [|intros] ]
  | |- respects _ _ _ (if ?b then _ else _) => destruct b eqn:?
  | |- respects _ _ _ (match ?r with _ => _ end) => destruct r
  end.

Ltac respects_kernel side :=
  unfold SliceSendOp.Compute, SliceSendOp.SendTotalBytes,
    SliceSendOp.SendShape, SliceSendOp.SendString,
    SliceSendOp.SendStringSlice, SliceSendOp.SendBasicType,
    SliceRecvOp.Compute, SliceRecvOp.RecvTotalBytes, SliceRecvOp.RecvShape,
    SliceRecvOp.RecvString, SliceRecvOp.RecvStringSlice,
    SliceRecvOp.RecvBasicType;
  repeat respects_step side.

(** ** The divisions by the slice size *)

Lemma I64_div_defined (a b : Z) : b <> 0 -> I64.div a b <> None.
Proof.
  intros Hb. unfold I64.div. destruct (Z.eqb_spec b 0); [lia | discriminate].
Qed.

Lemma string_slice_num_defined (n slice_size : Z) :
  1 <= slice_size <= INT64_MAX ->
  SliceSendOp.string_slice_num n slice_size <> None.
Proof.
  intros HS. unfold SliceSendOp.string_slice_num, U64.div.
  rewrite (size_t_wrap_small slice_size) by lia.
  destruct (Z.eqb_spec slice_size 0); [lia | discriminate].
Qed.

Ltac no_division_by_zero :=
  solve [ exact I
        | discriminate
        | exfalso;
          match goal with
          | H : SliceSendOp.basic_slice_num _ _ = None |- _ =>
              revert H; apply I64_div_defined; lia
          | H : SliceRecvOp.slice_num_of _ _ = None |- _ =>
              revert H; apply I64_div_defined; lia
          | H : SliceSendOp.string_slice_num _ _ = None |- _ =>
              revert H; apply string_slice_num_defined; lia
          end ].

Lemma send_never_divides_by_zero `{Framework} (op : SliceSendOp.t)
    (ctx : OpKernelContext.t) :
  1 <= SliceSendOp.slice_size_ op <= INT64_MAX ->
  respects (fun _ => True) (fun f => f <> DivideByZero) (fun _ => False)
    (SliceSendOp.Compute op ctx).
Proof. intros HS. respects_kernel no_division_by_zero. Qed.

Lemma recv_never_divides_by_zero `{Framework} (op : SliceRecvOp.t)
    (ctx : OpKernelContext.t) :
  1 <= SliceRecvOp.slice_size_ op <= INT64_MAX ->
  respects (fun _ => True) (fun f => f <> DivideByZero) (fun _ => False)
    (SliceRecvOp.Compute op ctx).
Proof. intros HS. respects_kernel no_division_by_zero. Qed.

(** C10: [slice_size >= 1] is an unchecked precondition of the slicing paths.
    With [slice_size >= 1] (an [int64] value) the slice counts of
    [SendBasicType], [SendStringSlice], [RecvBasicType] and [RecvStringSlice]
    divide by a nonzero divisor, and no run of either kernel ends in a
    division by zero. Nothing rejects [slice_size = 0]: both constructors
    store the attribute as it is, each of the divisions is then by zero, and
    both kernels reach one on a live one-byte payload. *)
Theorem slice_size_unchecked_precondition :
  (forall (fw : Framework) (sop : SliceSendOp.t) (rop : SliceRecvOp.t)
          (ctx : OpKernelContext.t) (w : World),
      1 <= SliceSendOp.slice_size_ sop <= INT64_MAX ->
      1 <= SliceRecvOp.slice_size_ rop <= INT64_MAX ->
      fst (SliceSendOp.Compute sop ctx w) <> Halt DivideByZero
      /\ fst (SliceRecvOp.Compute rop ctx w) <> Halt DivideByZero)
  /\ (forall n slice_size : Z,
        1 <= slice_size <= INT64_MAX ->
        SliceSendOp.basic_slice_num n slice_size <> None
        /\ SliceSendOp.string_slice_num n slice_size <> None
        /\ SliceRecvOp.slice_num_of n slice_size <> None)
  /\ (forall n : Z,
        SliceSendOp.basic_slice_num n 0 = None
        /\ SliceSendOp.string_slice_num n 0 = None
        /\ SliceRecvOp.slice_num_of n 0 = None)
  /\ (forall a, SliceSendOp.slice_size_ (SliceSendOp.construct a)
                = SliceSendOp.slice_size a)
  /\ (forall a, SliceRecvOp.slice_size_ (SliceRecvOp.construct a)
                = SliceRecvOp.slice_size a)
  /\ (let sent :=
        @SliceSendOp.Compute example_framework
          (SliceSendOp.construct (example_send_attrs 0 DT_UINT8))
          (example_ctx (bytes_tensor [x01]) false) fresh_world in
      fst sent = Halt DivideByZero
      /\ fst (@SliceRecvOp.Compute example_framework
                (SliceRecvOp.construct (example_recv_attrs 0 DT_UINT8))
                (example_ctx (bytes_tensor []) false) (snd sent))
         = Halt DivideByZero)
  /\ fst (@SliceSendOp.Compute example_framework
            (SliceSendOp.construct (example_send_attrs 0 DT_STRING))
            (example_ctx (strings_tensor [[x01]]) false) fresh_world)
     = Halt DivideByZero.
Proof.
  split.
  { intros fw sop rop ctx w Hs Hr. split.
    - destruct (send_never_divides_by_zero sop ctx Hs w) as (_ & _ & Hf & _).
      intros E. now apply (Hf _ E).
    - destruct (recv_never_divides_by_zero rop ctx Hr w) as (_ & _ & Hf & _).
      intros E. now apply (Hf _ E). }
  split.
  { intros n S HS. repeat split.
    - apply I64_div_defined. lia.
    - now apply string_slice_num_defined.
    - apply I64_div_defined. lia. }
  split; [intros n; repeat split|].
  split; [reflexivity|]. split; [reflexivity|].
  split; [split|]; vm_compute; reflexivity.
Qed.

Lemma slice_size_unchecked_precondition_witness :
  (1 <= 3 <= INT64_MAX)
  /\ fst (@SliceSendOp.Compute example_framework
            (SliceSendOp.construct (example_send_attrs 3 DT_UINT8))
            (example_ctx (bytes_tensor [x01; x02; x03; x04]) false)
            fresh_world)
     <> Halt DivideByZero
  /\ SliceSendOp.basic_slice_num 4 3 <> None.
Proof.
  assert (H : 1 <= 3 <= INT64_MAX) by (vm_compute; intuition discriminate).
  split; [exact H|]. split.
  - exact (proj1 (proj1 slice_size_unchecked_precondition example_framework
                    (SliceSendOp.construct (example_send_attrs 3 DT_UINT8))
                    (SliceRecvOp.construct (example_recv_attrs 3 DT_UINT8))
                    (example_ctx (bytes_tensor [x01; x02; x03; x04]) false)
                    fresh_world H H)).
  - exact (proj1 (proj1 (proj2 slice_size_unchecked_precondition) 4 3 H)).
Defined.

(** ** Facts about strings *)

Module StrFacts.

Import Str.
Local Open Scope string_scope.

Lemma append_nil_r (s : string) : s ++ "" = s.
Proof. induction s as [|c s IH]; simpl; [reflexivity | now rewrite IH]. Qed.

Lemma append_assoc (a b c : string) : (a ++ b) ++ c = a ++ (b ++ c).
Proof. induction a as [|x a IH]; simpl; [reflexivity | now rewrite IH]. Qed.

Lemma all_chars_append p (a b : string) :
  all_chars p (a ++ b) = all_chars p a && all_chars p b.
Proof.
  induction a as [|x a IH]; simpl; [reflexivity|].
  now rewrite IH, andb_assoc.
Qed.

Lemma all_chars_uint (d : Decimal.uint) :
  all_chars is_decimal_char (NilEmpty.string_of_uint d) = true.
Proof. induction d; simpl; auto. Qed.

Lemma all_chars_to_string (z : Z) :
  all_chars is_decimal_char (to_string z) = true.
Proof.
  unfold to_string. destruct (Z.to_int z) as [d|d]; simpl;
    apply all_chars_uint.
Qed.

Lemma to_string_inj (a b : Z) : to_string a = to_string b -> a = b.
Proof.
  unfold to_string. intros H. apply DecimalZ.to_int_inj.
  assert (E : Some (Z.to_int a) = Some (Z.to_int b)).
  { rewrite <- (NilEmpty.isi (Z.to_int a)), <- (NilEmpty.isi (Z.to_int b)).
    now rewrite H. }
  now injection E.
Qed.

(** A string free of [c] cannot be cut around an occurrence of [c]. *)
Lemma all_chars_no_occurrence p c (a b s : string) :
  all_chars p s = true -> p c = false -> s <> a ++ String c b.
Proof.
  intros Hs Hc E. subst s. rewrite all_chars_append in Hs. simpl in Hs.
  rewrite Hc in Hs. rewrite andb_false_r in Hs. discriminate.
Qed.

(** Cutting at the first occurrence of a separator is unambiguous. *)
Lemma split_first p c (a b x y : string) :
  p c = false -> all_chars p a = true -> all_chars p b = true ->
  a ++ String c x = b ++ String c y -> a = b /\ x = y.
Proof.
  intros Hc. revert b.
  induction a as [|d a IH]; intros [|e b] Ha Hb E; simpl in *.
  - injection E as E. now split.
  - injection E as E1 E2. subst e. rewrite Hc in Hb. discriminate.
  - injection E as E1 E2. subst d. rewrite Hc in Ha. discriminate.
  - injection E as E1 E2. subst e.
    apply andb_true_iff in Ha as [_ Ha]. apply andb_true_iff in Hb as [_ Hb].
    destruct (IH b Ha Hb E2) as [-> ->]. now split.
Qed.

(** Cutting at the last occurrence of a separator is unambiguous. *)
Lemma split_last p c (a b x y : string) :
  p c = false -> all_chars p x = true -> all_chars p y = true ->
  a ++ String c x = b ++ String c y -> a = b /\ x = y.
Proof.
  intros Hc Hx Hy. revert b.
  induction a as [|d a IH]; intros [|e b] E; simpl in *.
  - injection E as E. now split.
  - injection E as E1 E2. exfalso.
    now apply (all_chars_no_occurrence p c b y x).
  - injection E as E1 E2. exfalso.
    now apply (all_chars_no_occurrence p c a x y).
  - injection E as E1 E2. subst e.
    destruct (IH b E2) as [-> ->]. now split.
Qed.

(** Two decompositions of one string: one of the right parts is a tail of
    the other. *)
Lemma append_eq_cases (a s b t : string) :
  a ++ s = b ++ t ->
  (exists u, s = u ++ t /\ b = a ++ u) \/ (exists u, t = u ++ s /\ a = b ++ u).
Proof.
  revert b. induction a as [|x a IH]; intros b E; simpl in *.
  - left. exists b. now split.
  - destruct b as [|y b]; simpl in *.
    + right. exists (String x a). now split.
    + injection E as E1 E2. subst y.
      destruct (IH b E2) as [[u [H1 H2]]|[u [H1 H2]]].
      * left. exists u. split; [assumption | now rewrite H2].
      * right. exists u. split; [assumption | now rewrite H2].
Qed.

Lemma tails_after_append c (a b : string) :
  tails_after c (a ++ b)
  = (map (fun t => (t ++ b)%string) (tails_after c a) ++ tails_after c b)%list.
Proof.
  induction a as [|d a IH]; simpl; [reflexivity|].
  destruct (Ascii.eqb d c); simpl; now rewrite IH.
Qed.

Lemma tails_after_absent p c (s : string) :
  all_chars p s = true -> p c = false -> tails_after c s = [].
Proof.
  intros Hs Hc. induction s as [|d s IH]; simpl in *; [reflexivity|].
  apply andb_true_iff in Hs as [Hd Hs].
  destruct (Ascii.eqb_spec d c) as [->|_]; [congruence | auto].
Qed.

Lemma tails_after_In c (u r : string) :
  In r (tails_after c (u ++ String c r)).
Proof.
  induction u as [|d u IH]; simpl.
  - rewrite Ascii.eqb_refl. now left.
  - destruct (Ascii.eqb d c); [right|]; exact IH.
Qed.

Lemma all_chars_impl (p q : ascii -> bool) (s : string) :
  (forall c, p c = true -> q c = true) ->
  all_chars p s = true -> all_chars q s = true.
Proof.
  intros Hpq. induction s as [|c s IH]; simpl; [reflexivity|].
  intros Hs. apply andb_true_iff in Hs as [Hc Hs].
  now rewrite (Hpq c Hc), IH.
Qed.

(** The first character of a string that begins with a part made of
    characters of [p] and goes on with [c]. *)
Lemma head_of_append p c (a b r : string) (d : ascii) :
  all_chars p a = true -> a ++ String c b = String d r ->
  p d = true \/ d = c.
Proof.
  intros Ha E. destruct a as [|x a]; simpl in *.
  - injection E as E1 E2. now right.
  - injection E as E1 E2. subst x.
    apply andb_true_iff in Ha as [Hd _]. now left.
Qed.

Lemma head_of_to_string (z : Z) (d : ascii) (r : string) :
  to_string z = String d r -> is_decimal_char d = true.
Proof.
  intros E. pose proof (all_chars_to_string z) as Ha. rewrite E in Ha.
  simpl in Ha. now apply andb_true_iff in Ha as [Hd _].
Qed.

End StrFacts.

(** ** Facts about keys *)

Module KeyFacts.
Import Str StrFacts.
Local Open Scope string_scope.

Lemma underscore_free (z : Z) : tails_after "_" (to_string z) = [].
Proof.
  apply (tails_after_absent is_decimal_char);
    [apply all_chars_to_string | reflexivity].
Qed.

Lemma to_string_no_underscore (z : Z) (a b : string) :
  to_string z <> a ++ String "_" b.
Proof.
  apply (all_chars_no_occurrence is_decimal_char);
    [apply all_chars_to_string | reflexivity].
Qed.

Ltac decimal_head H :=
  first
    [ apply head_of_to_string in H; discriminate H
    | apply (head_of_append is_decimal_char) in H;
      [destruct H as [H|H]; discriminate H | apply all_chars_to_string] ].

Lemma phase_suffix_inj (a b : Phase) :
  phase_suffix a = phase_suffix b -> a = b.
Proof.
  destruct a, b; simpl; intros E; try reflexivity; try discriminate E.
  - injection E as E. now rewrite (to_string_inj _ _ E).
  - injection E as E. exfalso. now apply to_string_no_underscore in E.
  - injection E as E. exfalso. symmetry in E.
    now apply to_string_no_underscore in E.
  - injection E as E.
    apply (split_first is_decimal_char) in E as [E1 E2];
      try apply all_chars_to_string; [|reflexivity].
    now rewrite (to_string_inj _ _ E1), (to_string_inj _ _ E2).
Qed.

Lemma phase_suffix_tail (a b : Phase) (u : string) :
  phase_suffix a = u ++ phase_suffix b -> u = "".
Proof.
  destruct u as [|c u]; [reflexivity|]. intros E. exfalso.
  assert (T : exists r, phase_suffix b = String "_" r
                        /\ In r (tails_after "_" (behead (phase_suffix a)))).
  { rewrite E. destruct b; simpl; eexists; (split; [reflexivity|]);
      apply tails_after_In. }
  destruct T as (r & Hb & Hin). clear E.
  destruct a; simpl in Hin;
    repeat (progress
              (rewrite ?tails_after_append, ?underscore_free in Hin;
               simpl in Hin)).
  all: destruct b; simpl in Hb; injection Hb as Hb; subst r.
  all: repeat (destruct Hin as [Hin|Hin]; [try discriminate Hin|]);
    try contradiction.
  all: try (decimal_head Hin).
Qed.

Lemma discriminator_chars (frame_iter : FrameAndIter) :
  all_chars is_discriminator_char
    (to_string (frame_id frame_iter) ++ String ":"
       (to_string (iter_id frame_iter))) = true.
Proof.
  rewrite all_chars_append. simpl.
  assert (D : forall z, all_chars is_discriminator_char (to_string z) = true).
  { intros z. apply (all_chars_impl is_decimal_char);
      [|apply all_chars_to_string].
    intros c Hc. unfold is_discriminator_char. now rewrite Hc. }
  now rewrite !D.
Qed.

Lemma phase_key_split (key_prefix : string) (frame_iter : FrameAndIter)
    (p : Phase) :
  phase_key key_prefix frame_iter p
  = (key_prefix ++ phase_suffix p)
    ++ String ";" (to_string (frame_id frame_iter) ++ String ":"
                     (to_string (iter_id frame_iter))).
Proof.
  unfold phase_key, GetSliceRendezvousKey.
  rewrite append_assoc. reflexivity.
Qed.

Lemma phase_key_inj (p1 p2 : string) (fi1 fi2 : FrameAndIter)
    (ph1 ph2 : Phase) :
  phase_key p1 fi1 ph1 = phase_key p2 fi2 ph2 ->
  p1 = p2 /\ ph1 = ph2 /\ fi1 = fi2.
Proof.
  rewrite !phase_key_split. intros E.
  apply (split_last is_discriminator_char) in E as [E1 E2];
    [| reflexivity | apply discriminator_chars | apply discriminator_chars].
  apply (split_first is_decimal_char) in E2 as [F1 F2];
    [| reflexivity | apply all_chars_to_string | apply all_chars_to_string].
  apply to_string_inj in F1, F2.
  assert (Efi : fi1 = fi2).
  { destruct fi1, fi2; simpl in *. now subst. }
  destruct (append_eq_cases _ _ _ _ E1) as [(u & Hu & Hp)|(u & Hu & Hp)].
  - pose proof (phase_suffix_tail _ _ _ Hu) as ->. simpl in Hu.
    rewrite append_nil_r in Hp. apply phase_suffix_inj in Hu. now subst.
  - pose proof (phase_suffix_tail _ _ _ Hu) as ->. simpl in Hu.
    rewrite append_nil_r in Hp. apply phase_suffix_inj in Hu. now subst.
Qed.

End KeyFacts.

Lemma respects_all {A} (P : Event -> Prop) (F : Fault -> Prop) (m : M A) :
  respects P F (fun _ => False) m ->
  forall w, exists evs,
    trace (snd (m w)) = trace w ++ evs /\ Forall P evs.
Proof.
  intros Hm w. destruct (Hm w) as (evs & Ht & _ & [Hp|(f & _ & [])]).
  now exists evs.
Qed.

Ltac phase_key_used :=
  solve [ exact I
        | unfold on_phase_key; simpl;
          first [ exists TransferData; reflexivity
                | exists TotalBytesPhase; reflexivity
                | exists ShapePhase; reflexivity
                | exists ElementsSizePhase; reflexivity
                | eexists (DataSlice _); reflexivity
                | eexists (DataSubSlice _ _); reflexivity ] ].

Lemma send_uses_phase_keys `{Framework} (op : SliceSendOp.t)
    (ctx : OpKernelContext.t) :
  respects
    (on_phase_key (SliceSendOp.key_prefix_ op)
       (GetFrameAndIter ctx (SliceSendOp.hostmem_sendrecv_ op)))
    (fun _ => True) (fun _ => False)
    (SliceSendOp.Compute op ctx).
Proof. respects_kernel phase_key_used. Qed.

Lemma recv_uses_phase_keys `{Framework} (op : SliceRecvOp.t)
    (ctx : OpKernelContext.t) :
  respects
    (on_phase_key (SliceRecvOp.key_prefix_ op)
       (GetFrameAndIter ctx (SliceRecvOp.hostmem_sendrecv_ op)))
    (fun _ => True) (fun _ => False)
    (SliceRecvOp.Compute op ctx).
Proof. respects_kernel phase_key_used. Qed.

(** ** The phases of one transfer *)

Lemma In_range (j i : Z) (n : nat) :
  In j (range i n) <-> i <= j < i + Z.of_nat n.
Proof.
  revert i. induction n as [|n IH]; intros i; simpl; [lia|].
  rewrite IH. lia.
Qed.

Lemma NoDup_range (i : Z) (n : nat) : NoDup (range i n).
Proof.
  revert i. induction n as [|n IH]; intros i; simpl; constructor.
  - rewrite In_range. lia.
  - apply IH.
Qed.

Lemma NoDup_map_injective {A B} (f : A -> B) (l : list A) :
  (forall x y, f x = f y -> x = y) -> NoDup l -> NoDup (map f l).
Proof.
  intros Hf. apply NoDup_map_NoDup_ForallPairs. intros x y _ _. apply Hf.
Qed.

Lemma element_phases_index (slice_size index : Z) (elem : tstring)
    (p : Phase) :
  In p (element_phases slice_size index elem) -> data_index p = Some index.
Proof.
  unfold element_phases. destruct (size elem <=? slice_size); simpl.
  - intros [<-|[]]. reflexivity.
  - rewrite in_map_iff. intros (j & <- & _). reflexivity.
Qed.

Lemma elements_phases_index (slice_size : Z) (elems : list tstring) :
  forall (index : Z) (p : Phase),
    In p (elements_phases slice_size index elems) ->
    exists i, data_index p = Some i /\ index <= i.
Proof.
  induction elems as [|e elems IH]; intros index p; simpl; [tauto|].
  rewrite in_app_iff. intros [Hin|Hin].
  - exists index. split; [now apply element_phases_index in Hin | lia].
  - destruct (IH _ _ Hin) as (i & Hi & Hle). exists i. split; [exact Hi|lia].
Qed.

Lemma NoDup_element_phases (slice_size index : Z) (elem : tstring) :
  NoDup (element_phases slice_size index elem).
Proof.
  unfold element_phases. destruct (size elem <=? slice_size).
  - constructor; [simpl; tauto | constructor].
  - apply NoDup_map_injective; [|apply NoDup_range]. now intros x y [= ->].
Qed.

Lemma NoDup_elements_phases (slice_size : Z) (elems : list tstring) :
  forall index, NoDup (elements_phases slice_size index elems).
Proof.
  induction elems as [|e elems IH]; intros index; simpl; [constructor|].
  apply NoDup_app; [apply NoDup_element_phases | apply IH |].
  intros p Hp Hq. apply element_phases_index in Hp.
  destruct (elements_phases_index _ _ _ _ Hq) as (i & Hi & Hle).
  rewrite Hp in Hi. injection Hi as <-. lia.
Qed.

Lemma NoDup_transfer_phases `{Framework} (slice_size : Z) (input_t : Tensor) :
  NoDup (transfer_phases slice_size input_t).
Proof.
  unfold transfer_phases.
  destruct (TotalBytes input_t <=? slice_size).
  { repeat constructor; simpl; intuition discriminate. }
  destruct (buf input_t) as [b|v|elems].
  - constructor; [|constructor].
    + simpl. intros [E|E]; [discriminate|].
      apply in_map_iff in E as (j & E & _). discriminate.
    + rewrite in_map_iff. intros (j & E & _). discriminate.
    + apply NoDup_map_injective; [|apply NoDup_range]. now intros x y [= ->].
  - repeat constructor; simpl; intuition discriminate.
  - assert (Hd : forall p, In p (elements_phases slice_size 0 elems) ->
                           data_index p <> None).
    { intros p Hp. destruct (elements_phases_index _ _ _ _ Hp) as (i & -> & _).
      discriminate. }
    constructor; [|constructor; [|constructor]].
    + simpl. intros [E|[E|E]]; try discriminate. now apply Hd in E.
    + simpl. intros [E|E]; try discriminate. now apply Hd in E.
    + intros E. now apply Hd in E.
    + apply NoDup_elements_phases.
Qed.

Lemma elements_messages_keys `{Framework} (key_prefix : string)
    (frame_iter : FrameAndIter) (ctx : OpKernelContext.t) (slice_size : Z)
    (elems : list tstring) :
  forall index,
    map fst (elements_messages key_prefix frame_iter ctx slice_size index
               elems)
    = map (phase_key key_prefix frame_iter)
        (elements_phases slice_size index elems).
Proof.
  induction elems as [|e elems IH]; intros index; simpl; [reflexivity|].
  rewrite !map_app, IH. f_equal.
  unfold element_messages, element_phases.
  destruct (size e <=? slice_size); [reflexivity|].
  rewrite !map_map. reflexivity.
Qed.

Lemma transfer_messages_keys `{Framework} (key_prefix : string)
    (frame_iter : FrameAndIter) (ctx : OpKernelContext.t) (slice_size : Z)
    (input_t : Tensor) :
  map fst (transfer_messages key_prefix frame_iter ctx slice_size input_t)
  = map (phase_key key_prefix frame_iter)
      (transfer_phases slice_size input_t).
Proof.
  unfold transfer_messages, transfer_phases. simpl. f_equal.
  destruct (TotalBytes input_t <=? slice_size); [reflexivity|].
  simpl. f_equal. destruct (buf input_t) as [b|v|elems]; simpl.
  - rewrite !map_map. reflexivity.
  - reflexivity.
  - f_equal. apply elements_messages_keys.
Qed.

Lemma NoDup_transfer_keys `{Framework} (key_prefix : string)
    (frame_iter : FrameAndIter) (ctx : OpKernelContext.t) (slice_size : Z)
    (input_t : Tensor) :
  NoDup
    (map fst (transfer_messages key_prefix frame_iter ctx slice_size input_t)).
Proof.
  rewrite transfer_messages_keys.
  apply NoDup_map_injective; [|apply NoDup_transfer_phases].
  intros x y E. now apply KeyFacts.phase_key_inj in E.
Qed.

(** C5: every full key of the slice protocol reads
    [<send_device>;<incarnation>;<recv_device>;<tensor_name><suffix>;<frame_id>:<iter_id>]
    with the numbers in decimal, where the suffix is one of ["_transfer_data"],
    ["_slice_transfer_totalbytes"], ["_slice_transfer_shape"],
    ["_slice_transfer_elements_size"], ["_slice_transfer_data_<i>"] and
    ["_slice_transfer_data_<i>_<j>"]; both kernels log their sends and
    receives under such keys only, and each of the six suffixes is used. *)
Theorem key_wire_format :
  (forall (send_device recv_device tensor_name : string) (incarnation : Z)
          (p : Phase) (fi : FrameAndIter),
      phase_key
        (GetSliceRendezvousKeyPrefix send_device recv_device incarnation
           tensor_name) fi p
      = (send_device ++ ";" ++ Str.to_string incarnation ++ ";"
           ++ recv_device ++ ";" ++ tensor_name ++ phase_suffix p ++ ";"
           ++ Str.to_string (frame_id fi) ++ ":"
           ++ Str.to_string (iter_id fi))%string)
  /\ (map phase_suffix
        [TransferData; TotalBytesPhase; ShapePhase; ElementsSizePhase;
         DataSlice 12; DataSubSlice 3 40]
      = ["_transfer_data"; "_slice_transfer_totalbytes";
         "_slice_transfer_shape"; "_slice_transfer_elements_size";
         "_slice_transfer_data_12"; "_slice_transfer_data_3_40"]%string
      /\ Str.to_string 18446744073709551615 = "18446744073709551615"%string)
  /\ (forall (fw : Framework) (a : SliceSendOp.Attrs)
             (ctx : OpKernelContext.t) (w : World),
        exists evs,
          trace (snd (SliceSendOp.Compute (SliceSendOp.construct a) ctx w))
          = trace w ++ evs
          /\ Forall
               (on_phase_key
                  (GetSliceRendezvousKeyPrefix (SliceSendOp.send_device a)
                     (SliceSendOp.recv_device a)
                     (SliceSendOp.send_device_incarnation a)
                     (SliceSendOp.tensor_name a))
                  (GetFrameAndIter ctx
                     (SliceSendOp.hostmem_sendrecv_ (SliceSendOp.construct a))))
               evs)
  /\ (forall (fw : Framework) (a : SliceRecvOp.Attrs)
             (ctx : OpKernelContext.t) (w : World),
        exists evs,
          trace (snd (SliceRecvOp.Compute (SliceRecvOp.construct a) ctx w))
          = trace w ++ evs
          /\ Forall
               (on_phase_key
                  (GetSliceRendezvousKeyPrefix (SliceRecvOp.send_device a)
                     (SliceRecvOp.recv_device a)
                     (SliceRecvOp.send_device_incarnation a)
                     (SliceRecvOp.tensor_name a))
                  (GetFrameAndIter ctx
                     (SliceRecvOp.hostmem_sendrecv_ (SliceRecvOp.construct a))))
               evs)
  /\ (let op := SliceSendOp.construct (example_send_attrs 3 DT_STRING) in
      let input :=
        strings_tensor [[x01; x02; x03; x04; x05; x06; x07]; [x08]; []] in
      keys_of
        (trace (snd (@SliceSendOp.Compute example_framework op
                       (example_ctx input false) fresh_world)))
      = map (phase_key (SliceSendOp.key_prefix_ op)
               {| frame_id := 1; iter_id := 0 |})
          [TotalBytesPhase; ShapePhase; ElementsSizePhase;
           DataSubSlice 0 0; DataSubSlice 0 1; DataSubSlice 0 2;
           DataSlice 1; DataSlice 2])
  /\ (let op := SliceSendOp.construct (example_send_attrs 3 DT_UINT8) in
      keys_of
        (trace (snd (@SliceSendOp.Compute example_framework op
                       (example_ctx (bytes_tensor [x01; x02]) false)
                       fresh_world)))
      = map (phase_key (SliceSendOp.key_prefix_ op)
               {| frame_id := 1; iter_id := 0 |})
          [TotalBytesPhase; TransferData]).
Proof.
  split.
  { intros. unfold phase_key, GetSliceRendezvousKey,
      GetSliceRendezvousKeyPrefix, FpToString.
    now rewrite !StrFacts.append_assoc. }
  split; [split; reflexivity|].
  split.
  { intros fw a ctx w.
    apply (respects_all _ _ _ (send_uses_phase_keys (SliceSendOp.construct a)
                                 ctx)). }
  split.
  { intros fw a ctx w.
    apply (respects_all _ _ _ (recv_uses_phase_keys (SliceRecvOp.construct a)
                                 ctx)). }
  split; vm_compute; reflexivity.
Qed.

(** ** Dead values *)

Ltac live_after_total_bytes_side :=
  solve [ exact I
        | reflexivity
        | left; reflexivity
        | right; simpl; intros ? [= <-]; simpl; congruence
        | right; simpl; intros; discriminate
        | match goal with
          | found : option Message |- _ => destruct found; left; reflexivity
          end ].

Lemma recv_checks_later_phases `{Framework} (op : SliceRecvOp.t)
    (ctx : OpKernelContext.t) :
  respects
    (live_after_total_bytes
       (phase_key (SliceRecvOp.key_prefix_ op)
          (GetFrameAndIter ctx (SliceRecvOp.hostmem_sendrecv_ op))
          TotalBytesPhase))
    (fun _ => True) (eq CheckFailed)
    (SliceRecvOp.Compute op ctx).
Proof. respects_kernel live_after_total_bytes_side. Qed.

Lemma send_later_phases_live `{Framework} (op : SliceSendOp.t)
    (ctx : OpKernelContext.t) :
  respects
    (live_after_total_bytes
       (phase_key (SliceSendOp.key_prefix_ op)
          (GetFrameAndIter ctx (SliceSendOp.hostmem_sendrecv_ op))
          TotalBytesPhase))
    (fun _ => True) (fun _ => False)
    (SliceSendOp.Compute op ctx).
Proof. respects_kernel live_after_total_bytes_side. Qed.

(** C6: the receiver asserts every phase after [TotalBytes] non-dead: either
    every message it took from under another key than the [TotalBytes] one
    was live, or the run ended in a failed [CHECK]; so it does on a dead
    [Shape] envelope. And every message the sender deposits under another key
    than the [TotalBytes] one is live, because it returns right after the
    [TotalBytes] phase when its input is dead. *)
Theorem later_phases_are_live :
  (forall (fw : Framework) (op : SliceRecvOp.t) (ctx : OpKernelContext.t)
          (w : World),
      exists evs,
        trace (snd (SliceRecvOp.Compute op ctx w)) = trace w ++ evs
        /\ (Forall
              (live_after_total_bytes
                 (phase_key (SliceRecvOp.key_prefix_ op)
                    (GetFrameAndIter ctx (SliceRecvOp.hostmem_sendrecv_ op))
                    TotalBytesPhase)) evs
            \/ fst (SliceRecvOp.Compute op ctx w) = Halt CheckFailed))
  /\ (forall (fw : Framework) (op : SliceSendOp.t) (ctx : OpKernelContext.t)
             (w : World),
        exists evs,
          trace (snd (SliceSendOp.Compute op ctx w)) = trace w ++ evs
          /\ Forall
               (live_after_total_bytes
                  (phase_key (SliceSendOp.key_prefix_ op)
                     (GetFrameAndIter ctx (SliceSendOp.hostmem_sendrecv_ op))
                     TotalBytesPhase)) evs)
  /\ (let op := SliceRecvOp.construct (example_recv_attrs 3 DT_UINT8) in
      let ctx := example_ctx (bytes_tensor []) false in
      let key := phase_key (SliceRecvOp.key_prefix_ op)
                   {| frame_id := 1; iter_id := 0 |} in
      let envelope v is_dead :=
        {| msg_args := send_args ctx AllocatorAttributes;
           msg_val := v; msg_is_dead := is_dead |} in
      let total_bytes_t :=
        {| dtype := DT_INT64; shape := []; buf := Int64Values [10] |} in
      let shape_t :=
        {| dtype := DT_INT64; shape := [1]; buf := Int64Values [10] |} in
      let w :=
        set_table [(key TotalBytesPhase, envelope total_bytes_t false);
                   (key ShapePhase, envelope shape_t true)] fresh_world in
      fst (@SliceRecvOp.Compute example_framework op ctx w)
      = Halt CheckFailed).
Proof.
  split.
  { intros fw op ctx w.
    destruct (recv_checks_later_phases op ctx w) as (evs & Ht & _ & Hp).
    exists evs. split; [exact Ht|].
    destruct Hp as [Hp|(f & Hf & <-)]; [now left | now right]. }
  split.
  { intros fw op ctx w.
    apply (respects_all _ _ _ (send_later_phases_live op ctx)). }
  vm_compute. reflexivity.
Qed.

(** ** Single exchanges *)

Lemma Send_deposits (key : string) (args : Args) (val : Tensor)
    (is_dead : bool) (w : World) :
  aborted (rendezvous w) = None ->
  Send key args val is_dead w
  = (Done tt,
     deposit key
       {| msg_args := args; msg_val := val; msg_is_dead := is_dead |} w).
Proof. intros Ha. unfold Send. now rewrite Ha. Qed.

Lemma Recv_withdraws (key : string) (args : Args) (timeout_ms : Z)
    (w : World) (m : Message) (rest : list (string * Message)) :
  aborted (rendezvous w) = None ->
  take_first key (table (rendezvous w)) = Some (m, rest) ->
  Recv key args timeout_ms w
  = (Done (msg_val m, msg_is_dead m), withdraw key m rest w).
Proof. intros Ha Ht. unfold Recv. now rewrite Ha, Ht. Qed.

(** C4: on a dead input [SliceSendOp] sends the [TotalBytes] phase, marked
    dead, and nothing else; [SliceRecvOp], on taking a dead [TotalBytes]
    envelope, returns without an output and without another receive. *)
Theorem dead_short_circuit :
  (forall (fw : Framework) (op : SliceSendOp.t) (ctx : OpKernelContext.t)
          (w : World),
      let key :=
        phase_key (SliceSendOp.key_prefix_ op)
          (GetFrameAndIter ctx (SliceSendOp.hostmem_sendrecv_ op))
          TotalBytesPhase in
      let envelope :=
        {| msg_args := send_args ctx AllocatorAttributes;
           msg_val := total_bytes_tensor (OpKernelContext.input ctx);
           msg_is_dead := true |} in
      OpKernelContext.has_rendezvous ctx = true ->
      OpKernelContext.is_input_dead ctx = true ->
      ParseKey key = true ->
      trace (snd (SliceSendOp.Compute op ctx w))
      = trace w ++ [SendEvent key envelope]
      /\ (aborted (rendezvous w) = None ->
          SliceSendOp.Compute op ctx w = (Done tt, deposit key envelope w)))
  /\ (forall (fw : Framework) (op : SliceRecvOp.t) (ctx : OpKernelContext.t)
             (w : World) (m : Message) (rest : list (string * Message)),
        let key :=
          phase_key (SliceRecvOp.key_prefix_ op)
            (GetFrameAndIter ctx (SliceRecvOp.hostmem_sendrecv_ op))
            TotalBytesPhase in
        OpKernelContext.has_rendezvous ctx = true ->
        ParseKey key = true ->
        aborted (rendezvous w) = None ->
        take_first key (table (rendezvous w)) = Some (m, rest) ->
        msg_is_dead m = true ->
        SliceRecvOp.Compute op ctx w = (Done None, withdraw key m rest w)
        /\ trace (snd (SliceRecvOp.Compute op ctx w))
           = trace w ++ [RecvEvent key (Some m)]).
Proof.
  split.
  - intros fw op ctx w key envelope Hr Hd Hk.
    subst key envelope. unfold phase_key, phase_suffix in *.
    unfold SliceSendOp.Compute, SliceSendOp.SendTotalBytes, bind,
      ParseKey_checked.
    rewrite Hr, Hk, Hd. simpl. unfold Send.
    destruct (aborted (rendezvous w)); simpl.
    + split; [reflexivity | discriminate].
    + split; reflexivity.
  - intros fw op ctx w m rest key Hr Hk Ha Ht Hd.
    subst key. unfold phase_key, phase_suffix in *.
    match goal with
    | |- ?run = (_, ?w') /\ _ => assert (E : run = (Done None, w'))
    end.
    { unfold SliceRecvOp.Compute, SliceRecvOp.RecvTotalBytes, bind,
        ParseKey_checked.
      rewrite Hr, Hk. simpl.
      rewrite (Recv_withdraws _ _ _ _ _ _ Ha Ht), Hd. reflexivity. }
    split; [exact E | now rewrite E].
Qed.

Lemma dead_short_circuit_witness :
  let sop := SliceSendOp.construct (example_send_attrs 3 DT_UINT8) in
  let rop := SliceRecvOp.construct (example_recv_attrs 3 DT_UINT8) in
  let ctx := example_ctx (bytes_tensor [x01; x02; x03; x04]) true in
  let key :=
    phase_key (SliceSendOp.key_prefix_ sop) {| frame_id := 1; iter_id := 0 |}
      TotalBytesPhase in
  let envelope :=
    {| msg_args := send_args ctx AllocatorAttributes;
       msg_val := @total_bytes_tensor example_framework
                    (OpKernelContext.input ctx);
       msg_is_dead := true |} in
  let w := deposit key envelope fresh_world in
  (OpKernelContext.has_rendezvous ctx = true
   /\ OpKernelContext.is_input_dead ctx = true
   /\ @ParseKey example_framework key = true
   /\ aborted (rendezvous w) = None
   /\ take_first key (table (rendezvous w)) = Some (envelope, [])
   /\ msg_is_dead envelope = true)
  /\ trace (snd (@SliceSendOp.Compute example_framework sop ctx fresh_world))
     = [SendEvent key envelope]
  /\ @SliceRecvOp.Compute example_framework rop ctx w
     = (Done None, withdraw key envelope [] w).
Proof.
  intros sop rop ctx key envelope w.
  assert (H : OpKernelContext.has_rendezvous ctx = true
              /\ OpKernelContext.is_input_dead ctx = true
              /\ @ParseKey example_framework key = true
              /\ aborted (rendezvous w) = None
              /\ take_first key (table (rendezvous w)) = Some (envelope, [])
              /\ msg_is_dead envelope = true)
    by (repeat split; vm_compute; reflexivity).
  split; [exact H|].
  destruct H as (H1 & H2 & H3 & H4 & H5 & H6). split.
  - exact (proj1 (proj1 dead_short_circuit example_framework sop ctx
                    fresh_world H1 H2 H3)).
  - exact (proj1 (proj2 dead_short_circuit example_framework rop ctx w
                    envelope [] H1 H3 H4 H5 H6)).
Defined.

Lemma size_nonneg {A} (l : list A) : 0 <= size l.
Proof. unfold size. lia. Qed.

Lemma sum_sizes_nonneg (s : list tstring) : 0 <= sum_sizes s.
Proof.
  induction s as [|e s IH]; simpl; [lia|]. pose proof (size_nonneg e). lia.
Qed.

Lemma TotalBytes_nonneg `{Framework} (t : Tensor) : 0 <= TotalBytes t.
Proof.
  unfold TotalBytes. destruct (buf t) as [b|v|s].
  - apply size_nonneg.
  - pose proof (size_nonneg v). lia.
  - pose proof (size_nonneg s). pose proof (sum_sizes_nonneg s).
    pose proof sizeof_tstring_nonneg. nia.
Qed.

(** C3: when [total_bytes <= slice_size] and the input is live, the sender
    deposits the [TotalBytes] envelope and then the whole input tensor under
    the ["_transfer_data"] key, and nothing else; the receiver takes these two
    envelopes and returns the tensor of the second one, without a receive for
    a [Shape], element-sizes or data-slice phase. *)
Theorem fast_path_equivalence :
  (forall (fw : Framework) (op : SliceSendOp.t) (ctx : OpKernelContext.t)
          (w : World),
      let key :=
        phase_key (SliceSendOp.key_prefix_ op)
          (GetFrameAndIter ctx (SliceSendOp.hostmem_sendrecv_ op)) in
      let input_t := OpKernelContext.input ctx in
      let total_bytes :=
        {| msg_args := send_args ctx AllocatorAttributes;
           msg_val := total_bytes_tensor input_t;
           msg_is_dead := false |} in
      let direct :=
        {| msg_args := send_args ctx (OpKernelContext.input_alloc_attr ctx);
           msg_val := input_t;
           msg_is_dead := false |} in
      OpKernelContext.has_rendezvous ctx = true ->
      OpKernelContext.is_input_dead ctx = false ->
      SliceSendOp.slice_size_ op <= INT64_MAX ->
      TotalBytes input_t <= SliceSendOp.slice_size_ op ->
      ParseKey (key TotalBytesPhase) = true ->
      ParseKey (key TransferData) = true ->
      aborted (rendezvous w) = None ->
      SliceSendOp.Compute op ctx w
      = (Done tt,
         deposit (key TransferData) direct
           (deposit (key TotalBytesPhase) total_bytes w))
      /\ trace (snd (SliceSendOp.Compute op ctx w))
         = trace w ++ [SendEvent (key TotalBytesPhase) total_bytes;
                       SendEvent (key TransferData) direct])
  /\ (forall (fw : Framework) (op : SliceRecvOp.t) (ctx : OpKernelContext.t)
             (w : World) (m1 m2 : Message)
             (rest1 rest2 : list (string * Message)) (total_bytes : Z),
        let key :=
          phase_key (SliceRecvOp.key_prefix_ op)
            (GetFrameAndIter ctx (SliceRecvOp.hostmem_sendrecv_ op)) in
        OpKernelContext.has_rendezvous ctx = true ->
        ParseKey (key TotalBytesPhase) = true ->
        ParseKey (key TransferData) = true ->
        aborted (rendezvous w) = None ->
        take_first (key TotalBytesPhase) (table (rendezvous w))
        = Some (m1, rest1) ->
        msg_is_dead m1 = false ->
        scalar_int64 (msg_val m1) = Some total_bytes ->
        total_bytes <= SliceRecvOp.slice_size_ op ->
        take_first (key TransferData) rest1 = Some (m2, rest2) ->
        msg_is_dead m2 = false ->
        SliceRecvOp.Compute op ctx w
        = (Done (Some (msg_val m2)),
           withdraw (key TransferData) m2 rest2
             (withdraw (key TotalBytesPhase) m1 rest1 w))
        /\ trace (snd (SliceRecvOp.Compute op ctx w))
           = trace w ++ [RecvEvent (key TotalBytesPhase) (Some m1);
                         RecvEvent (key TransferData) (Some m2)]).
Proof.
  split.
  - intros fw op ctx w key input_t total_bytes direct
      Hr Hl Hmax Hle Hk1 Hk2 Ha.
    subst key. unfold phase_key, phase_suffix in *.
    match goal with
    | |- ?run = (_, ?w') /\ _ => assert (E : run = (Done tt, w'))
    end.
    { unfold SliceSendOp.Compute, SliceSendOp.SendTotalBytes, bind,
        ParseKey_checked.
      rewrite Hr, Hk1, Hl. simpl.
      rewrite (Send_deposits _ _ _ _ _ Ha).
      pose proof (TotalBytes_nonneg (OpKernelContext.input ctx)) as Hn.
      fold input_t in Hn |- *.
      rewrite size_t_wrap_small by lia.
      destruct (Z.leb_spec (TotalBytes input_t) (SliceSendOp.slice_size_ op));
        [|lia].
      rewrite Hk2. unfold ret. now rewrite Send_deposits. }
    split; [exact E|]. rewrite E. simpl. now rewrite <- app_assoc.
  - intros fw op ctx w m1 m2 rest1 rest2 total_bytes key
      Hr Hk1 Hk2 Ha Ht1 Hl1 Hs Hle Ht2 Hl2.
    subst key. unfold phase_key, phase_suffix in *.
    match goal with
    | |- ?run = (_, ?w') /\ _ =>
        assert (E : run = (Done (Some (msg_val m2)), w'))
    end.
    { unfold SliceRecvOp.Compute, SliceRecvOp.RecvTotalBytes, bind,
        ParseKey_checked.
      rewrite Hr, Hk1. simpl.
      rewrite (Recv_withdraws _ _ _ _ _ _ Ha Ht1), Hl1. simpl.
      rewrite Hs. simpl.
      destruct (Z.leb_spec total_bytes (SliceRecvOp.slice_size_ op)); [|lia].
      rewrite Hk2. unfold ret.
      rewrite (Recv_withdraws _ _ _ _ m2 rest2) by assumption.
      now rewrite Hl2. }
    split; [exact E|]. rewrite E. simpl. now rewrite <- app_assoc.
Qed.

Lemma fast_path_equivalence_witness :
  let sop := SliceSendOp.construct (example_send_attrs 3 DT_UINT8) in
  let rop := SliceRecvOp.construct (example_recv_attrs 3 DT_UINT8) in
  let input_t := bytes_tensor [x01; x02] in
  let ctx := example_ctx input_t false in
  let key :=
    phase_key (SliceSendOp.key_prefix_ sop)
      {| frame_id := 1; iter_id := 0 |} in
  let total_bytes :=
    {| msg_args := send_args ctx AllocatorAttributes;
       msg_val := @total_bytes_tensor example_framework input_t;
       msg_is_dead := false |} in
  let direct :=
    {| msg_args := send_args ctx (OpKernelContext.input_alloc_attr ctx);
       msg_val := input_t;
       msg_is_dead := false |} in
  let w :=
    deposit (key TransferData) direct
      (deposit (key TotalBytesPhase) total_bytes fresh_world) in
  (OpKernelContext.has_rendezvous ctx = true
   /\ OpKernelContext.is_input_dead ctx = false
   /\ SliceSendOp.slice_size_ sop <= INT64_MAX
   /\ @TotalBytes example_framework input_t <= SliceSendOp.slice_size_ sop
   /\ @ParseKey example_framework (key TotalBytesPhase) = true
   /\ @ParseKey example_framework (key TransferData) = true
   /\ aborted (rendezvous fresh_world) = None)
  /\ (aborted (rendezvous w) = None
      /\ take_first (key TotalBytesPhase) (table (rendezvous w))
         = Some (total_bytes, [(key TransferData, direct)])
      /\ msg_is_dead total_bytes = false
      /\ scalar_int64 (msg_val total_bytes) = Some 2
      /\ 2 <= SliceRecvOp.slice_size_ rop
      /\ take_first (key TransferData) [(key TransferData, direct)]
         = Some (direct, [])
      /\ msg_is_dead direct = false)
  /\ @SliceSendOp.Compute example_framework sop ctx fresh_world = (Done tt, w)
  /\ fst (@SliceRecvOp.Compute example_framework rop ctx w)
     = Done (Some input_t).
Proof.
  intros sop rop input_t ctx key total_bytes direct w.
  assert (HS : OpKernelContext.has_rendezvous ctx = true
               /\ OpKernelContext.is_input_dead ctx = false
               /\ SliceSendOp.slice_size_ sop <= INT64_MAX
               /\ @TotalBytes example_framework input_t
                  <= SliceSendOp.slice_size_ sop
               /\ @ParseKey example_framework (key TotalBytesPhase) = true
               /\ @ParseKey example_framework (key TransferData) = true
               /\ aborted (rendezvous fresh_world) = None)
    by (repeat split; vm_compute; solve [reflexivity | discriminate]).
  assert (HR : aborted (rendezvous w) = None
               /\ take_first (key TotalBytesPhase) (table (rendezvous w))
                  = Some (total_bytes, [(key TransferData, direct)])
               /\ msg_is_dead total_bytes = false
               /\ scalar_int64 (msg_val total_bytes) = Some 2
               /\ 2 <= SliceRecvOp.slice_size_ rop
               /\ take_first (key TransferData) [(key TransferData, direct)]
                  = Some (direct, [])
               /\ msg_is_dead direct = false)
    by (repeat split; vm_compute; solve [reflexivity | discriminate]).
  split; [exact HS|]. split; [exact HR|].
  destruct HS as (S1 & S2 & S3 & S4 & S5 & S6 & S7).
  destruct HR as (R1 & R2 & R3 & R4 & R5 & R6 & R7).
  split.
  - exact (proj1 (proj1 fast_path_equivalence example_framework sop ctx
                    fresh_world S1 S2 S3 S4 S5 S6 S7)).
  - exact (f_equal fst
             (proj1 (proj2 fast_path_equivalence example_framework rop ctx w
                       total_bytes direct [(key TransferData, direct)] []
                       2 S1 S5 S6 R1 R2 R3 R4 R5 R6 R7))).
Defined.

(** ** Deposits and withdrawals *)

Lemma bind_guard_Some {A B} (f : Fault) (a : A) (k : A -> M B) :
  bind (guard f (Some a)) k = k a.
Proof. reflexivity. Qed.

Lemma sends_ret : sends [] (ret tt).
Proof.
  intros w Ha. exists w. rewrite app_nil_r. now repeat split.
Qed.

Lemma sends_bind (ms1 ms2 : list (string * Message)) (m : M unit)
    (k : unit -> M unit) :
  sends ms1 m -> sends ms2 (k tt) -> sends (ms1 ++ ms2) (bind m k).
Proof.
  intros H1 H2 w Ha. unfold bind.
  destruct (H1 w Ha) as (w1 & E1 & A1 & T1). rewrite E1.
  destruct (H2 w1 A1) as (w2 & E2 & A2 & T2).
  exists w2. rewrite T2, T1, app_assoc. now repeat split.
Qed.

Lemma sends_ParseKey_checked `{Framework} (key : string) :
  ParseKey key = true -> sends [] (ParseKey_checked key).
Proof.
  intros Hk. unfold ParseKey_checked. rewrite Hk. apply sends_ret.
Qed.

Lemma sends_Send (key : string) (args : Args) (val : Tensor)
    (is_dead : bool) :
  sends [(key, {| msg_args := args; msg_val := val;
                  msg_is_dead := is_dead |})]
    (Send key args val is_dead).
Proof.
  intros w Ha. rewrite (Send_deposits _ _ _ _ _ Ha).
  eexists. split; [reflexivity|]. split; [exact Ha | reflexivity].
Qed.

(** A parsed key followed by the send under it. *)
Lemma sends_keyed `{Framework} (key : string) (args : Args) (val : Tensor)
    (is_dead : bool) :
  ParseKey key = true ->
  sends [(key, {| msg_args := args; msg_val := val;
                  msg_is_dead := is_dead |})]
    (bind (ParseKey_checked key) (fun _ => Send key args val is_dead)).
Proof.
  intros Hk.
  apply (sends_bind [] _ _ (fun _ => Send key args val is_dead)).
  - now apply sends_ParseKey_checked.
  - apply sends_Send.
Qed.

Lemma sends_for_loop (f : Z -> string * Message) (body : Z -> M unit)
    (n : nat) :
  forall i,
    (forall j, i <= j < i + Z.of_nat n -> sends [f j] (body j)) ->
    sends (map f (range i n)) (for_loop n i body).
Proof.
  induction n as [|n IH]; intros i Hb; simpl.
  - apply sends_ret.
  - apply (sends_bind [f i] _ _ (fun _ => for_loop n (i + 1) body)).
    + apply Hb. lia.
    + apply IH. intros j Hj. apply Hb. lia.
Qed.

Lemma take_first_behind (key : string) (m : Message)
    (older later : list (string * Message)) :
  ~ In key (map fst older) ->
  take_first key (older ++ (key, m) :: later) = Some (m, older ++ later).
Proof.
  induction older as [|[k m'] older IH]; simpl; intros Hn.
  - now rewrite String.eqb_refl.
  - destruct (String.eqb_spec k key) as [->|_]; [tauto|].
    rewrite IH by tauto. reflexivity.
Qed.

Lemma receives_ret {A} (older : list (string * Message)) (Q : A -> Prop)
    (a : A) :
  Q a -> receives older [] Q (ret a).
Proof.
  intros Hq w later Hp. exists a, w.
  split; [reflexivity|]. split; [exact Hp | exact Hq].
Qed.

Lemma receives_bind {A B} (older ms1 ms2 : list (string * Message))
    (Q1 : A -> Prop) (Q2 : B -> Prop) (m : M A) (k : A -> M B) :
  receives older ms1 Q1 m ->
  (forall a, Q1 a -> receives older ms2 Q2 (k a)) ->
  receives older (ms1 ++ ms2) Q2 (bind m k).
Proof.
  intros H1 H2 w later Hp. unfold bind. rewrite <- app_assoc in Hp.
  destruct (H1 w _ Hp) as (a & w1 & E1 & P1 & Q1a). rewrite E1.
  exact (H2 a Q1a w1 later P1).
Qed.

Lemma receives_weaken {A} (older ms : list (string * Message))
    (Q Q' : A -> Prop) (m : M A) :
  receives older ms Q m -> (forall a, Q a -> Q' a) -> receives older ms Q' m.
Proof.
  intros Hm Hq w later Hp. destruct (Hm w later Hp) as (a & w' & E & P & Qa).
  exists a, w'. auto.
Qed.

Lemma receives_ParseKey_checked `{Framework} (older : list (string * Message))
    (key : string) :
  ParseKey key = true ->
  receives older [] (fun _ => True) (ParseKey_checked key).
Proof.
  intros Hk. unfold ParseKey_checked. rewrite Hk. now apply receives_ret.
Qed.

Lemma receives_Recv (older : list (string * Message)) (key : string)
    (m : Message) (args : Args) (timeout_ms : Z) :
  ~ In key (map fst older) ->
  receives older [(key, m)] (fun r => r = (msg_val m, msg_is_dead m))
    (Recv key args timeout_ms).
Proof.
  intros Hn w later [Ha Ht]. simpl in Ht.
  rewrite (Recv_withdraws key args timeout_ms w m (older ++ later)).
  - eexists _, _. split; [reflexivity|]. split; [|reflexivity].
    split; [exact Ha | reflexivity].
  - exact Ha.
  - rewrite Ht. now apply take_first_behind.
Qed.

(** A parsed key, the receive under it of a live message and its check. *)
Lemma receives_keyed `{Framework} {A} (older ms : list (string * Message))
    (key : string) (val : Tensor) (sargs args : Args) (timeout_ms : Z)
    (Q : A -> Prop) (k : Tensor -> M A) :
  ParseKey key = true ->
  ~ In key (map fst older) ->
  receives older ms Q (k val) ->
  receives older
    ((key, {| msg_args := sargs; msg_val := val; msg_is_dead := false |})
       :: ms) Q
    (bind (ParseKey_checked key)
       (fun _ =>
          bind (Recv key args timeout_ms)
            (fun r => let '(v, is_dead) := r in
                      bind (CHECK_not_dead is_dead) (fun _ => k v)))).
Proof.
  intros Hk Hn Hr.
  apply (receives_bind older [] _ (fun _ => True)).
  { now apply receives_ParseKey_checked. }
  intros _ _.
  apply (receives_bind older [_] ms _ Q _ _ (receives_Recv _ _ _ _ _ Hn)).
  intros r ->. simpl. exact Hr.
Qed.

Lemma receives_for_loop_acc {A} (older : list (string * Message))
    (f : Z -> string * Message) (I : Z -> A -> Prop)
    (body : Z -> A -> M A) (n : nat) :
  forall i a,
    (forall j a', i <= j < i + Z.of_nat n -> I j a' ->
                  receives older [f j] (I (j + 1)) (body j a')) ->
    I i a ->
    receives older (map f (range i n)) (I (i + Z.of_nat n))
      (for_loop_acc n i body a).
Proof.
  induction n as [|n IH]; intros i a Hb Hi; simpl.
  - apply receives_ret. now rewrite Z.add_0_r.
  - apply (receives_bind older [f i] _ (I (i + 1))).
    + apply Hb; [lia | exact Hi].
    + intros a' Ha'.
      replace (i + Z.pos (Pos.of_succ_nat n)) with (i + 1 + Z.of_nat n)
        by lia.
      apply IH; [|exact Ha']. intros j a'' Hj. apply Hb. lia.
Qed.

(** ** Buffers and their chunks *)

Lemma firstn_plus {A} (l : list A) (a n : nat) :
  firstn a l ++ firstn n (skipn a l) = firstn (a + n) l.
Proof.
  revert l. induction a as [|a IH]; intros l; simpl; [reflexivity|].
  destruct l as [|x l]; simpl.
  - now rewrite firstn_nil.
  - now rewrite IH.
Qed.

Lemma size_app {A} (l l' : list A) : size (l ++ l') = size l + size l'.
Proof. unfold size. rewrite length_app. lia. Qed.

Lemma size_firstn {A} (l : list A) (n : Z) :
  0 <= n <= size l -> size (firstn (Z.to_nat n) l) = n.
Proof. unfold size. intros Hn. rewrite length_firstn. lia. Qed.

Lemma size_skipn {A} (l : list A) (n : Z) :
  0 <= n <= size l -> size (skipn (Z.to_nat n) l) = size l - n.
Proof. unfold size. intros Hn. rewrite length_skipn. lia. Qed.

Lemma size_repeat {A} (x : A) (n : Z) :
  0 <= n -> size (repeat x (Z.to_nat n)) = n.
Proof. unfold size. intros Hn. rewrite repeat_length. lia. Qed.

Lemma size_chunk (b : list byte) (start len : Z) :
  0 <= start -> 0 <= len -> start + len <= size b ->
  size (chunk b (start, len)) = len.
Proof.
  intros Hs Hl Hb. unfold chunk. simpl.
  rewrite size_firstn; [reflexivity|]. rewrite size_skipn; lia.
Qed.

Lemma firstn_chunk (b : list byte) (start len : Z) :
  0 <= start -> 0 <= len ->
  firstn (Z.to_nat start) b ++ chunk b (start, len)
  = firstn (Z.to_nat (start + len)) b.
Proof.
  intros Hs Hl. unfold chunk. simpl. rewrite firstn_plus.
  f_equal. lia.
Qed.

Lemma firstn_whole {A} (l : list A) (n : Z) :
  size l <= n -> firstn (Z.to_nat n) l = l.
Proof. unfold size. intros Hn. apply firstn_all2. lia. Qed.

(** The copy of [SendBasicType] into its fresh slice tensor. *)
Lemma memcpy_to_fresh (src : list byte) (start len : Z) :
  0 <= start -> 0 <= len -> start + len <= size src ->
  memcpy (repeat x00 (Z.to_nat (len * 1 * 1))) 0 src start len
  = Some (chunk src (start, len)).
Proof.
  intros Hs Hl Hb. unfold memcpy.
  replace (len * 1 * 1) with len by lia.
  rewrite size_repeat by lia.
  replace ((0 <=? len) && (0 <=? 0) && (0 <=? start) && (0 + len <=? len)
           && (start + len <=? size src)) with true
    by (symmetry; rewrite !andb_true_iff, !Z.leb_le; lia).
  simpl firstn at 1.
  rewrite (skipn_all2 (n := Z.to_nat (0 + len)) (repeat x00 (Z.to_nat len)))
    by (rewrite repeat_length; lia).
  now rewrite app_nil_r.
Qed.

(** The copy of [RecvBasicType] extends the part of the output that already
    agrees with the payload. *)
Lemma memcpy_into (out b : list byte) (start len : Z) :
  size out = size b -> 0 <= start -> 0 <= len -> start + len <= size b ->
  firstn (Z.to_nat start) out = firstn (Z.to_nat start) b ->
  exists out',
    memcpy out start (chunk b (start, len)) 0 len = Some out'
    /\ size out' = size b
    /\ firstn (Z.to_nat (start + len)) out'
       = firstn (Z.to_nat (start + len)) b.
Proof.
  intros Ho Hs Hl Hb Hp. unfold memcpy.
  rewrite size_chunk by assumption. rewrite Ho.
  replace ((0 <=? len) && (0 <=? start) && (0 <=? 0)
           && (start + len <=? size b) && (0 + len <=? len)) with true
    by (symmetry; rewrite !andb_true_iff, !Z.leb_le; lia).
  eexists. split; [reflexivity|].
  change (skipn (Z.to_nat 0) (chunk b (start, len)))
    with (chunk b (start, len)).
  rewrite (firstn_whole (chunk b (start, len)))
    by (rewrite size_chunk by assumption; lia).
  rewrite Hp. rewrite app_assoc, firstn_chunk by assumption.
  split.
  - rewrite size_app, size_firstn, size_skipn by lia. lia.
  - rewrite firstn_app.
    rewrite firstn_firstn, Nat.min_id.
    replace (Z.to_nat (start + len)
             - List.length (firstn (Z.to_nat (start + len)) b))%nat with O.
    + simpl. now rewrite app_nil_r.
    + rewrite length_firstn. unfold size in Hb. lia.
Qed.

Lemma flat_get_middle {A} (pre post : list A) (x : A) (i : Z) :
  size pre = i -> flat_get (pre ++ x :: post) i = Some x.
Proof.
  intros Hi. unfold flat_get. pose proof (size_nonneg pre).
  destruct (Z.ltb_spec i 0); [lia|].
  rewrite nth_error_app2 by (unfold size in Hi; lia).
  replace (Z.to_nat i - List.length pre)%nat with O by (unfold size in Hi; lia).
  reflexivity.
Qed.

Lemma flat_set_middle {A} (pre post : list A) (x y : A) (i : Z) :
  size pre = i -> flat_set (pre ++ x :: post) i y = Some (pre ++ y :: post).
Proof.
  intros Hi. unfold flat_set. pose proof (size_nonneg pre).
  pose proof (size_nonneg post).
  rewrite size_app. change (size (x :: post)) with (Z.of_nat (S (List.length post))).
  replace ((0 <=? i) && (i <? size pre + Z.of_nat (S (List.length post))))
    with true by (symmetry; rewrite andb_true_iff, Z.leb_le, Z.ltb_lt; lia).
  f_equal. unfold size in Hi.
  rewrite firstn_app, firstn_all2 by lia.
  replace (Z.to_nat i - List.length pre)%nat with O by lia. simpl.
  rewrite app_nil_r. f_equal.
  rewrite skipn_app, skipn_all2 by lia.
  replace (Z.to_nat (i + 1) - List.length pre)%nat with 1%nat by lia.
  reflexivity.
Qed.

Lemma slice_range_bounds (slice_size total i : Z) :
  1 <= slice_size -> slice_size <= total ->
  0 <= i < ceil_div total slice_size ->
  fst (slice_range slice_size total i) = i * slice_size
  /\ 0 <= i * slice_size < total
  /\ 0 <= snd (slice_range slice_size total i)
  /\ i * slice_size + snd (slice_range slice_size total i)
     = Z.min ((i + 1) * slice_size) total.
Proof.
  intros HS Hle Hi. unfold slice_range. simpl.
  pose proof (index_in_range total slice_size i ltac:(lia) Hi).
  destruct (Z.ltb_spec (total - slice_size) (i * slice_size)); lia.
Qed.

Lemma size_le_sum_sizes (e : tstring) (s : list tstring) :
  In e s -> size e <= sum_sizes s.
Proof.
  induction s as [|x s IH]; simpl; [tauto|].
  pose proof (sum_sizes_nonneg s). pose proof (size_nonneg x).
  intros [->|Hin]; [lia|]. specialize (IH Hin). lia.
Qed.

Lemma skipn_head {A} (l rest : list A) (x : A) (n : nat) :
  skipn n l = x :: rest ->
  nth_error l n = Some x /\ skipn (S n) l = rest.
Proof.
  revert l. induction n as [|n IH]; intros l E.
  - destruct l; simpl in E; [discriminate|]. injection E as -> ->. now split.
  - destruct l as [|y l]; simpl in E; [discriminate|]. now apply IH.
Qed.

(** ** The round trip *)

Section RoundTrip.

Context `{Framework}.
Variable sop : SliceSendOp.t.
Variable sctx : OpKernelContext.t.

Local Abbreviation input_t := (OpKernelContext.input sctx).
Local Abbreviation slice_size := (SliceSendOp.slice_size_ sop).
Local Abbreviation key_prefix := (SliceSendOp.key_prefix_ sop).
Local Abbreviation frame_iter :=
  (GetFrameAndIter sctx (SliceSendOp.hostmem_sendrecv_ sop)).

Hypothesis input_live : OpKernelContext.is_input_dead sctx = false.
Hypothesis slice_size_range : 1 <= slice_size <= INT64_MAX.
Hypothesis input_fits : TotalBytes input_t <= 2 ^ 62.
Hypothesis keys_accepted :
  forall p, ParseKey (phase_key key_prefix frame_iter p) = true.

Lemma SendTotalBytes_sends :
  sends [total_bytes_message key_prefix frame_iter sctx input_t]
    (SliceSendOp.SendTotalBytes sop sctx frame_iter input_t).
Proof.
  unfold SliceSendOp.SendTotalBytes. rewrite input_live.
  apply sends_keyed. apply (keys_accepted TotalBytesPhase).
Qed.

Lemma SendShape_sends :
  sends [shape_message key_prefix frame_iter sctx input_t]
    (SliceSendOp.SendShape sop sctx frame_iter input_t).
Proof.
  unfold SliceSendOp.SendShape. rewrite input_live.
  apply sends_keyed. apply (keys_accepted ShapePhase).
Qed.

Lemma SendBasicType_sends (b : list byte) :
  buf input_t = RawBytes b -> slice_size < size b ->
  sends
    (map (basic_slice_message key_prefix frame_iter sctx slice_size b)
       (range 0 (Z.to_nat (ceil_div (size b) slice_size))))
    (SliceSendOp.SendBasicType sop sctx frame_iter input_t).
Proof.
  intros Hb Hlt.
  assert (Hn : TotalBytes input_t = size b) by (unfold TotalBytes; now rewrite Hb).
  rewrite Hn in input_fits. unfold INT64_MAX in *.
  unfold SliceSendOp.SendBasicType. rewrite Hn, input_live.
  rewrite int64_wrap_small by (unfold INT64_MAX; pose proof (size_nonneg b); lia).
  rewrite send_basic_slice_num by (unfold INT64_MAX; lia).
  rewrite bind_guard_Some. unfold data at 1. rewrite Hb, bind_guard_Some.
  apply sends_for_loop. intros j Hj.
  rewrite send_basic_slice by (unfold INT64_MAX; lia).
  destruct (slice_range_bounds slice_size (size b) j) as (_ & B1 & B2 & B3);
    [lia | lia | lia |].
  unfold slice_range in B2, B3. simpl in B2, B3.
  change (data (allocate DT_INT8 [?c]))
    with (Some (repeat x00 (Z.to_nat (c * 1 * 1)))).
  rewrite bind_guard_Some.
  rewrite memcpy_to_fresh by lia.
  rewrite bind_guard_Some.
  apply sends_keyed. apply (keys_accepted (DataSlice j)).
Qed.

Lemma SendStringSlice_sends (elem : tstring) (index : Z) :
  slice_size < size elem -> size elem <= 2 ^ 62 ->
  sends
    (map (string_slice_message key_prefix frame_iter sctx slice_size index
            elem)
       (range 0 (Z.to_nat (ceil_div (size elem) slice_size))))
    (SliceSendOp.SendStringSlice sop sctx frame_iter elem index).
Proof.
  intros Hlt Hfit. unfold INT64_MAX in *.
  unfold SliceSendOp.SendStringSlice. rewrite input_live.
  rewrite send_string_slice_num by (unfold INT64_MAX; lia).
  rewrite bind_guard_Some.
  apply sends_for_loop. intros j Hj.
  rewrite send_string_slice by (unfold INT64_MAX; lia).
  destruct (slice_range_bounds slice_size (size elem) j)
    as (_ & B1 & B2 & B3); [lia | lia | lia |].
  unfold substr.
  destruct (Z.ltb_spec (size elem) (j * slice_size)); [lia|].
  rewrite bind_guard_Some.
  apply sends_keyed. apply (keys_accepted (DataSubSlice index j)).
Qed.

Lemma SendString_loop_sends (elems : list tstring) :
  (forall e, In e elems -> size e <= 2 ^ 62) ->
  forall (rest : list tstring) (i : Z),
    0 <= i -> skipn (Z.to_nat i) elems = rest ->
    sends (elements_messages key_prefix frame_iter sctx slice_size i rest)
      (for_loop (List.length rest) i (fun i =>
         bind (guard OutOfRange (flat_get elems i)) (fun elem =>
           if size elem <=? size_t_wrap slice_size then
             bind
               (ParseKey_checked
                  (GetSliceRendezvousKey key_prefix
                     ("_slice_transfer_data_" ++ Str.to_string i)%string
                     frame_iter))
               (fun _ =>
                  Send
                    (GetSliceRendezvousKey key_prefix
                       ("_slice_transfer_data_" ++ Str.to_string i)%string
                       frame_iter)
                    (send_args sctx (OpKernelContext.input_alloc_attr sctx))
                    {| dtype := DT_STRING; shape := [];
                       buf := StringValues [elem] |}
                    false)
           else SliceSendOp.SendStringSlice sop sctx frame_iter elem i))).
Proof.
  intros Hfit rest. induction rest as [|e rest IH]; intros i Hi Hs; simpl.
  - apply sends_ret.
  - destruct (skipn_head _ _ _ _ Hs) as [Hn Hs'].
    assert (Hin : In e elems) by (eapply nth_error_In; exact Hn).
    apply sends_bind.
    + unfold flat_get. destruct (Z.ltb_spec i 0); [lia|].
      rewrite Hn, bind_guard_Some.
      rewrite size_t_wrap_small by lia.
      unfold element_messages.
      destruct (Z.leb_spec (size e) slice_size) as [Hle|Hlt].
      * apply sends_keyed. apply (keys_accepted (DataSlice i)).
      * apply SendStringSlice_sends; [lia | now apply Hfit].
    + apply IH; [lia|]. rewrite <- Hs'. f_equal. lia.
Qed.

Lemma SendString_sends (elems : list tstring) :
  buf input_t = StringValues elems -> payload_wf input_t ->
  sends
    (elements_size_message key_prefix frame_iter sctx input_t elems
       :: elements_messages key_prefix frame_iter sctx slice_size 0 elems)
    (SliceSendOp.SendString sop sctx frame_iter input_t).
Proof.
  intros Hb Hwf. unfold payload_wf in Hwf. rewrite Hb in Hwf.
  destruct Hwf as [Hd Hn].
  unfold SliceSendOp.SendString, flat_tstring. rewrite Hd, Hb, <- Hn.
  rewrite Z.eqb_refl, bind_guard_Some, input_live.
  apply (sends_bind [] _);
    [apply sends_ParseKey_checked, (keys_accepted ElementsSizePhase)|].
  apply (sends_bind [_] _); [apply sends_Send|].
  unfold size at 1. rewrite Nat2Z.id.
  apply SendString_loop_sends; [|lia|reflexivity].
  intros e He. apply size_le_sum_sizes in He.
  unfold TotalBytes in input_fits. rewrite Hb in input_fits.
  pose proof sizeof_tstring_nonneg. pose proof (size_nonneg elems). nia.
Qed.

Lemma payload_branch :
  payload_wf input_t -> SliceSendOp.dtype_ sop = dtype input_t ->
  match buf input_t with
  | RawBytes _ => DataType_eqb (SliceSendOp.dtype_ sop) DT_STRING = false
  | StringValues _ => DataType_eqb (SliceSendOp.dtype_ sop) DT_STRING = true
  | Int64Values _ => False
  end.
Proof.
  unfold payload_wf. intros Hwf ->.
  destruct (buf input_t); [|exact Hwf|].
  - destruct Hwf as [Hd _]. destruct (dtype input_t); try reflexivity.
    now elim Hd.
  - destruct Hwf as [-> _]. reflexivity.
Qed.

Lemma Compute_sends :
  OpKernelContext.has_rendezvous sctx = true ->
  payload_wf input_t -> SliceSendOp.dtype_ sop = dtype input_t ->
  sends (transfer_messages key_prefix frame_iter sctx slice_size input_t)
    (SliceSendOp.Compute sop sctx).
Proof.
  intros Hr Hwf Ht. unfold SliceSendOp.Compute. rewrite Hr. simpl negb.
  cbv iota.
  unfold transfer_messages.
  apply (sends_bind [_] _); [apply SendTotalBytes_sends|].
  rewrite input_live.
  pose proof (TotalBytes_nonneg input_t) as Hn.
  rewrite size_t_wrap_small by lia.
  destruct (Z.leb_spec (TotalBytes input_t) slice_size) as [Hle|Hlt].
  - apply sends_keyed. apply (keys_accepted TransferData).
  - apply (sends_bind [_] _); [apply SendShape_sends|].
    pose proof (payload_branch Hwf Ht) as Hbr.
    destruct (buf input_t) as [b|v|s] eqn:Hb; [|contradiction|];
      rewrite Hbr.
    + apply SendBasicType_sends; [exact Hb|].
      unfold TotalBytes in Hlt. now rewrite Hb in Hlt.
    + now apply SendString_sends.
Qed.

Variable rop : SliceRecvOp.t.
Variable rctx : OpKernelContext.t.
Variable older : list (string * Message).

Hypothesis configured_alike : matching sop rop.
Hypothesis same_instance :
  GetFrameAndIter rctx (SliceRecvOp.hostmem_sendrecv_ rop) = frame_iter.
Hypothesis keys_fresh :
  forall p, ~ In (phase_key key_prefix frame_iter p) (map fst older).

Lemma recv_key_prefix : SliceRecvOp.key_prefix_ rop = key_prefix.
Proof. symmetry. apply configured_alike. Qed.

Lemma recv_slice_size : SliceRecvOp.slice_size_ rop = slice_size.
Proof. symmetry. apply configured_alike. Qed.

Lemma RecvTotalBytes_receives :
  receives older [total_bytes_message key_prefix frame_iter sctx input_t]
    (fun r => r = (false, int64_wrap (TotalBytes input_t)))
    (SliceRecvOp.RecvTotalBytes rop rctx frame_iter).
Proof.
  unfold SliceRecvOp.RecvTotalBytes. rewrite recv_key_prefix.
  apply (receives_bind older [] _ (fun _ => True)).
  { apply receives_ParseKey_checked, (keys_accepted TotalBytesPhase). }
  intros _ _.
  apply (receives_bind older [_] [] _ _ _ _
           (receives_Recv _ _ _ _ _ (keys_fresh TotalBytesPhase))).
  intros r ->. simpl. now apply receives_ret.
Qed.

Lemma RecvShape_receives :
  receives older [shape_message key_prefix frame_iter sctx input_t]
    (fun sh => sh = shape input_t)
    (SliceRecvOp.RecvShape rop rctx frame_iter).
Proof.
  unfold SliceRecvOp.RecvShape. rewrite recv_key_prefix.
  apply receives_keyed;
    [apply (keys_accepted ShapePhase) | apply (keys_fresh ShapePhase) |].
  unfold vec_int64. simpl. rewrite Z.eqb_refl. simpl.
  now apply receives_ret.
Qed.

Lemma RecvBasicType_receives (b : list byte) :
  buf input_t = RawBytes b -> payload_wf input_t -> slice_size < size b ->
  receives older
    (map (basic_slice_message key_prefix frame_iter sctx slice_size b)
       (range 0 (Z.to_nat (ceil_div (size b) slice_size))))
    (fun t => t = input_t)
    (SliceRecvOp.RecvBasicType rop rctx frame_iter (size b)
       (allocate (dtype input_t) (shape input_t))).
Proof.
  intros Hb Hwf Hlt. unfold payload_wf in Hwf. rewrite Hb in Hwf.
  destruct Hwf as [Hd Hn]. unfold NumElements in Hn.
  assert (Hfit : size b <= 2 ^ 62).
  { unfold TotalBytes in input_fits. now rewrite Hb in input_fits. }
  pose proof (size_nonneg b) as Hb0. unfold INT64_MAX in *.
  unfold SliceRecvOp.RecvBasicType.
  rewrite recv_key_prefix, recv_slice_size.
  rewrite recv_slice_num_of by (unfold INT64_MAX; lia).
  rewrite bind_guard_Some.
  assert (Ha : data (allocate (dtype input_t) (shape input_t))
               = Some (repeat x00 (Z.to_nat (size b)))).
  { rewrite Hn. unfold data, allocate. simpl.
    destruct (dtype input_t); try reflexivity. now elim Hd. }
  rewrite Ha, bind_guard_Some.
  set (I := fun (j : Z) (out : list byte) =>
              size out = size b
              /\ firstn (Z.to_nat (Z.min (j * slice_size) (size b))) out
                 = firstn (Z.to_nat (Z.min (j * slice_size) (size b))) b).
  rewrite <- (app_nil_r (map _ _)).
  eapply receives_bind.
  - apply (receives_for_loop_acc older _ I).
    + intros j out Hj [Ho Hp].
      rewrite recv_basic_slice by (unfold INT64_MAX; lia).
      destruct (slice_range_bounds slice_size (size b) j)
        as (_ & B1 & B2 & B3); [lia | lia | lia |].
      unfold basic_slice_message, slice_range in *. cbn [fst snd] in *.
      rewrite <- (app_nil_r [_]).
      apply receives_keyed;
        [apply (keys_accepted (DataSlice j))
        | apply (keys_fresh (DataSlice j)) |].
      change (data {| dtype := DT_INT8; shape := ?sh; buf := RawBytes ?c |})
        with (Some c).
      rewrite bind_guard_Some.
      rewrite Z.min_l in Hp by lia.
      destruct (memcpy_into out b (j * slice_size) _ Ho (proj1 B1) B2
                  ltac:(lia) Hp) as (out' & Hm & Ho' & Hp').
      rewrite Hm. apply receives_ret. split; [exact Ho'|].
      rewrite <- B3. exact Hp'.
    + split; [apply size_repeat; lia|].
      rewrite Z.mul_0_l, Z.min_l by lia. reflexivity.
  - intros out [Ho Hp]. apply receives_ret.
    pose proof (ceil_div_bounds (size b) slice_size ltac:(lia)).
    simpl in Hp.
    rewrite Z2Nat.id in Hp
      by (pose proof (ceil_div_bounds (size b) slice_size ltac:(lia)); nia).
    rewrite Z.min_r in Hp by lia.
    rewrite (firstn_whole out), (firstn_whole b) in Hp by lia.
    subst out. unfold set_buf, allocate. simpl.
    destruct (OpKernelContext.input sctx). simpl in *.
    now subst.
Qed.

Lemma RecvStringSlice_receives (elem : tstring) (index : Z)
    (pre post : list tstring) :
  size pre = index -> slice_size < size elem -> size elem <= 2 ^ 62 ->
  receives older
    (map (string_slice_message key_prefix frame_iter sctx slice_size index
            elem)
       (range 0 (Z.to_nat (ceil_div (size elem) slice_size))))
    (fun out => out = pre ++ elem :: post)
    (SliceRecvOp.RecvStringSlice rop rctx frame_iter index (size elem)
       (pre ++ [] :: post)).
Proof.
  intros Hi Hlt Hfit. pose proof (size_nonneg elem) as He0.
  pose proof slice_size_range as HS. unfold INT64_MAX in HS.
  unfold SliceRecvOp.RecvStringSlice.
  rewrite recv_key_prefix, recv_slice_size.
  rewrite recv_slice_num_of by (unfold INT64_MAX; lia).
  rewrite bind_guard_Some.
  set (J := fun (j : Z) (out : list tstring) =>
              out = pre ++ firstn (Z.to_nat (Z.min (j * slice_size)
                                               (size elem))) elem :: post).
  eapply receives_weaken.
  - apply (receives_for_loop_acc older _ J).
    + intros j out Hj ->.
      destruct (slice_range_bounds slice_size (size elem) j)
        as (_ & B1 & B2 & B3); [lia | lia | lia |].
      rewrite <- (app_nil_r [_]).
      apply receives_keyed;
        [apply (keys_accepted (DataSubSlice index j))
        | apply (keys_fresh (DataSubSlice index j)) |].
      change (scalar_tstring (scalar_string ?c)) with (Some c).
      rewrite bind_guard_Some.
      rewrite flat_get_middle, bind_guard_Some by assumption.
      rewrite flat_set_middle by assumption.
      apply receives_ret. unfold J. do 2 f_equal.
      rewrite Z.min_l by lia. unfold slice_range in *. simpl in B2, B3.
      rewrite firstn_chunk by lia. now rewrite B3.
    + unfold J. now rewrite Z.mul_0_l, Z.min_l by lia.
  - intros out ->. do 2 f_equal.
    pose proof (ceil_div_bounds (size elem) slice_size ltac:(lia)).
    rewrite Z.add_0_l, Z2Nat.id by nia.
    rewrite Z.min_r by lia. now apply firstn_whole.
Qed.

Lemma size_snoc {A} (l : list A) (x : A) : size (l ++ [x]) = size l + 1.
Proof. rewrite size_app. reflexivity. Qed.

Lemma size_map {A B} (f : A -> B) (l : list A) : size (map f l) = size l.
Proof. unfold size. now rewrite length_map. Qed.

Lemma RecvString_loop_receives (all : list tstring) :
  (forall e, In e all -> size e <= 2 ^ 62) ->
  forall rest done,
    all = done ++ rest ->
    receives older
      (elements_messages key_prefix frame_iter sctx slice_size (size done)
         rest)
      (fun out => out = all)
      (for_loop_acc (List.length rest) (size done)
         (fun i output_flat =>
            bind (guard OutOfRange (flat_get (map size all) i))
              (fun element_size =>
                 if element_size <=? slice_size then
                   bind
                     (ParseKey_checked
                        (GetSliceRendezvousKey key_prefix
                           ("_slice_transfer_data_" ++ Str.to_string i)%string
                           frame_iter))
                     (fun _ =>
                        bind
                          (Recv
                             (GetSliceRendezvousKey key_prefix
                                ("_slice_transfer_data_"
                                   ++ Str.to_string i)%string
                                frame_iter)
                             (recv_args rctx
                                (OpKernelContext.output_alloc_attr rctx))
                             (SliceRecvOp.timeout_ms_ rop))
                          (fun r =>
                             let '(data_t, is_dead) := r in
                             bind (CHECK_not_dead is_dead)
                               (fun _ =>
                                  bind
                                    (guard CheckFailed
                                       (scalar_tstring data_t))
                                    (fun elem =>
                                       guard OutOfRange
                                         (flat_set output_flat i elem)))))
                 else
                   SliceRecvOp.RecvStringSlice rop rctx frame_iter i
                     element_size output_flat))
         (done ++ repeat [] (List.length rest))).
Proof.
  intros Hfit rest.
  induction rest as [|e rest IH]; intros done Hall; simpl.
  - apply receives_ret. now rewrite Hall.
  - assert (Hin : In e all) by (rewrite Hall; apply in_elt).
    apply (receives_bind older _ _
             (fun out => out = done ++ e :: repeat [] (List.length rest))).
    + rewrite Hall at 1. rewrite map_app. simpl map.
      rewrite flat_get_middle by apply size_map.
      rewrite bind_guard_Some. unfold element_messages.
      destruct (Z.leb_spec (size e) slice_size) as [Hle|Hlt].
      * rewrite <- (app_nil_r [_]).
        apply receives_keyed;
          [apply (keys_accepted (DataSlice (size done)))
          | apply (keys_fresh (DataSlice (size done))) |].
        change (scalar_tstring (scalar_string ?c)) with (Some c).
        rewrite bind_guard_Some.
        rewrite flat_set_middle by reflexivity.
        apply receives_ret. reflexivity.
      * apply RecvStringSlice_receives; [reflexivity | lia | now apply Hfit].
    + intros out ->. rewrite <- (size_snoc done e).
      replace (done ++ e :: repeat [] (List.length rest))
        with ((done ++ [e]) ++ repeat [] (List.length rest))
        by now rewrite <- app_assoc.
      apply IH. now rewrite <- app_assoc.
Qed.

Lemma RecvString_receives (elems : list tstring) :
  buf input_t = StringValues elems -> payload_wf input_t ->
  receives older
    (elements_size_message key_prefix frame_iter sctx input_t elems
       :: elements_messages key_prefix frame_iter sctx slice_size 0 elems)
    (fun t => t = input_t)
    (SliceRecvOp.RecvString rop rctx frame_iter (shape input_t)
       (allocate (dtype input_t) (shape input_t))).
Proof.
  intros Hb Hwf. unfold payload_wf in Hwf. rewrite Hb in Hwf.
  destruct Hwf as [Hd Hn]. unfold NumElements in Hn.
  pose proof (size_nonneg elems) as He0.
  unfold SliceRecvOp.RecvString.
  rewrite recv_key_prefix, recv_slice_size, Hd.
  apply receives_keyed;
    [apply (keys_accepted ElementsSizePhase)
    | apply (keys_fresh ElementsSizePhase) |].
  change (flat_int64
            {| dtype := DT_INT64; shape := ?sh; buf := Int64Values ?v |})
    with (if num_elements sh =? size v then Some v else None).
  change (flat_tstring (allocate DT_STRING ?sh))
    with (if num_elements sh
             =? size (repeat ([] : tstring) (Z.to_nat (num_elements sh)))
          then Some (repeat ([] : tstring) (Z.to_nat (num_elements sh)))
          else None).
  rewrite size_map, <- Hn, Z.eqb_refl, bind_guard_Some.
  rewrite size_repeat, Z.eqb_refl, bind_guard_Some by lia.
  replace (Z.to_nat (size elems)) with (List.length elems)
    by (unfold size; lia).
  rewrite <- (app_nil_r (elements_messages _ _ _ _ _ _)).
  apply (receives_bind older _ [] (fun out => out = elems)).
  - apply (RecvString_loop_receives elems) with (done := []); [|reflexivity].
    intros e He. apply size_le_sum_sizes in He.
    unfold TotalBytes in input_fits. rewrite Hb in input_fits.
    pose proof sizeof_tstring_nonneg. nia.
  - intros out ->. apply receives_ret. unfold set_buf, allocate. simpl.
    destruct (OpKernelContext.input sctx). simpl in *.
    now subst.
Qed.

Lemma Compute_receives :
  OpKernelContext.has_rendezvous rctx = true ->
  payload_wf input_t -> SliceSendOp.dtype_ sop = dtype input_t ->
  receives older
    (transfer_messages key_prefix frame_iter sctx slice_size input_t)
    (fun output => output = Some input_t)
    (SliceRecvOp.Compute rop rctx).
Proof.
  intros Hr Hwf Ht. unfold SliceRecvOp.Compute. rewrite Hr. simpl negb.
  cbv iota. rewrite same_instance, recv_slice_size.
  unfold transfer_messages.
  pose proof (TotalBytes_nonneg input_t) as Hn.
  pose proof slice_size_range as HS. unfold INT64_MAX in HS.
  apply (receives_bind older [_] _ _ _ _ _ RecvTotalBytes_receives).
  intros r ->.
  rewrite int64_wrap_small by (unfold INT64_MAX; lia).
  destruct (Z.leb_spec (TotalBytes input_t) slice_size) as [Hle|Hlt].
  - rewrite recv_key_prefix.
    apply receives_keyed;
      [apply (keys_accepted TransferData)
      | apply (keys_fresh TransferData) |].
    now apply receives_ret.
  - apply (receives_bind older [_] _ _ _ _ _ RecvShape_receives).
    intros sh ->.
    pose proof (payload_branch Hwf Ht) as Hbr.
    replace (SliceRecvOp.dtype_ rop) with (dtype input_t)
      by (rewrite <- Ht; apply configured_alike).
    rewrite Ht in Hbr.
    destruct (buf input_t) as [b|v|s] eqn:Hb; [|contradiction|];
      rewrite Hbr.
    + rewrite <- (app_nil_r (map _ _)).
      eapply receives_bind.
      * replace (TotalBytes input_t) with (size b)
          by (unfold TotalBytes; now rewrite Hb).
        apply RecvBasicType_receives; [exact Hb | exact Hwf |].
        unfold TotalBytes in Hlt. now rewrite Hb in Hlt.
      * intros t ->. now apply receives_ret.
    + rewrite <- (app_nil_r (_ :: _)).
      eapply receives_bind.
      * now apply RecvString_receives.
      * intros t ->. now apply receives_ret.
Qed.

End RoundTrip.

(** ** The keys of the examples *)

Lemma count_char_append (c : ascii) (a b : string) :
  count_char c (a ++ b) = (count_char c a + count_char c b)%nat.
Proof.
  induction a as [|x a IH]; simpl; [reflexivity|]. rewrite IH. lia.
Qed.

Lemma count_char_absent (p : ascii -> bool) (c : ascii) (s : string) :
  Str.all_chars p s = true -> p c = false -> count_char c s = O.
Proof.
  intros Hs Hc. induction s as [|x s IH]; simpl in *; [reflexivity|].
  apply andb_true_iff in Hs as [Hx Hs].
  destruct (Ascii.eqb_spec x c) as [->|_]; [congruence|].
  now rewrite IH.
Qed.

Lemma count_semicolons_to_string (z : Z) :
  count_char ";" (Str.to_string z) = O.
Proof.
  apply (count_char_absent Str.is_decimal_char);
    [apply StrFacts.all_chars_to_string | reflexivity].
Qed.

Lemma count_semicolons_phase_key (key_prefix : string)
    (frame_iter : FrameAndIter) (p : Phase) :
  count_char ";" (phase_key key_prefix frame_iter p)
  = S (count_char ";" key_prefix).
Proof.
  unfold phase_key, GetSliceRendezvousKey.
  rewrite !count_char_append, !count_semicolons_to_string.
  assert (Hp : count_char ";" (phase_suffix p) = O).
  { destruct p; simpl; try reflexivity;
      rewrite ?count_char_append, ?count_semicolons_to_string; simpl;
      rewrite ?count_char_append, ?count_semicolons_to_string;
      reflexivity. }
  rewrite Hp. simpl. lia.
Qed.

Lemma example_keys_accepted (slice_size : Z) (T : DataType)
    (frame_iter : FrameAndIter) (p : Phase) :
  @ParseKey example_framework
    (phase_key
       (SliceSendOp.key_prefix_
          (SliceSendOp.construct (example_send_attrs slice_size T)))
       frame_iter p) = true.
Proof.
  unfold example_framework, ParseKey.
  rewrite count_semicolons_phase_key. reflexivity.
Qed.

(** C7: key construction is injective: two full keys built from key prefix,
    phase suffix, frame id and iteration id are equal only when all four
    agree, whatever the names in the prefix are; so the keys of two different
    phases of one transfer instance differ, and the keys under which one run
    of the sender deposits its messages are pairwise distinct. *)
Theorem key_construction_injective :
  (forall (p1 p2 : string) (ph1 ph2 : Phase) (fi1 fi2 : FrameAndIter),
      phase_key p1 fi1 ph1 = phase_key p2 fi2 ph2 ->
      p1 = p2 /\ ph1 = ph2 /\ fi1 = fi2)
  /\ (forall (p : string) (fi : FrameAndIter) (ph1 ph2 : Phase),
        ph1 <> ph2 -> phase_key p fi ph1 <> phase_key p fi ph2)
  /\ (forall (fw : Framework) (op : SliceSendOp.t) (ctx : OpKernelContext.t)
             (w : World),
        1 <= SliceSendOp.slice_size_ op <= INT64_MAX ->
        payload_wf (OpKernelContext.input ctx) ->
        TotalBytes (OpKernelContext.input ctx) <= 2 ^ 62 ->
        SliceSendOp.dtype_ op = dtype (OpKernelContext.input ctx) ->
        OpKernelContext.is_input_dead ctx = false ->
        OpKernelContext.has_rendezvous ctx = true ->
        aborted (rendezvous w) = None ->
        (forall p,
            ParseKey
              (phase_key (SliceSendOp.key_prefix_ op)
                 (GetFrameAndIter ctx (SliceSendOp.hostmem_sendrecv_ op)) p)
            = true) ->
        exists w1 sent,
          SliceSendOp.Compute op ctx w = (Done tt, w1)
          /\ table (rendezvous w1) = table (rendezvous w) ++ sent
          /\ NoDup (map fst sent)).
Proof.
  split; [|split].
  - intros p1 p2 ph1 ph2 fi1 fi2. apply KeyFacts.phase_key_inj.
  - intros p fi ph1 ph2 Hne E. apply Hne.
    now apply KeyFacts.phase_key_inj in E.
  - intros fw op ctx w HS Hwf Hfit Ht Hlive Hr Ha Hk.
    destruct (Compute_sends op ctx Hlive HS Hfit Hk Hr Hwf Ht w Ha)
      as (w1 & E1 & _ & T1).
    eexists w1, _. split; [exact E1|]. split; [exact T1|].
    apply NoDup_transfer_keys.
Qed.

Lemma key_construction_injective_witness :
  let op := SliceSendOp.construct (example_send_attrs 3 DT_UINT8) in
  let ctx := example_ctx (bytes_tensor [x01; x02; x03; x04]) false in
  let key := phase_key "a;1;b;edge" {| frame_id := 1; iter_id := 0 |} in
  (key (DataSlice 1) = key (DataSlice 1)
   /\ DataSlice 1 <> DataSubSlice 1 1
   /\ 1 <= SliceSendOp.slice_size_ op <= INT64_MAX
   /\ payload_wf (OpKernelContext.input ctx)
   /\ @TotalBytes example_framework (OpKernelContext.input ctx) <= 2 ^ 62
   /\ SliceSendOp.dtype_ op = dtype (OpKernelContext.input ctx)
   /\ OpKernelContext.is_input_dead ctx = false
   /\ OpKernelContext.has_rendezvous ctx = true
   /\ aborted (rendezvous fresh_world) = None)
  /\ DataSlice 1 = DataSlice 1
  /\ key (DataSlice 1) <> key (DataSubSlice 1 1)
  /\ (exists w1 sent,
        @SliceSendOp.Compute example_framework op ctx fresh_world
        = (Done tt, w1)
        /\ table (rendezvous w1) = table (rendezvous fresh_world) ++ sent
        /\ NoDup (map fst sent)).
Proof.
  intros op ctx key.
  assert (H : key (DataSlice 1) = key (DataSlice 1)
              /\ DataSlice 1 <> DataSubSlice 1 1
              /\ 1 <= SliceSendOp.slice_size_ op <= INT64_MAX
              /\ payload_wf (OpKernelContext.input ctx)
              /\ @TotalBytes example_framework (OpKernelContext.input ctx)
                 <= 2 ^ 62
              /\ SliceSendOp.dtype_ op = dtype (OpKernelContext.input ctx)
              /\ OpKernelContext.is_input_dead ctx = false
              /\ OpKernelContext.has_rendezvous ctx = true
              /\ aborted (rendezvous fresh_world) = None)
    by (repeat split; vm_compute; solve [reflexivity | discriminate]).
  split; [exact H|].
  destruct H as (H1 & H2 & H3 & H4 & H5 & H6 & H7 & H8 & H9).
  split; [|split].
  - exact (proj1 (proj2 (proj1 key_construction_injective _ _ _ _ _ _ H1))).
  - exact (proj1 (proj2 key_construction_injective) _ _ _ _ H2).
  - apply (proj2 (proj2 key_construction_injective) example_framework op ctx
             fresh_world H3 H4 H5 H6 H7 H8 H9).
    intros p. apply example_keys_accepted.
Defined.

(** C1, as amended: for every payload tensor (the bytes of a fixed-width
    tensor or the elements of a string tensor, of at most [2^62] bytes in
    all) and every slice size [1 <= slice_size <= INT64_MAX], when sender and
    receiver are built alike and run for the same frame and iteration on a
    usable rendezvous that accepts the keys of the transfer and holds nothing
    under them, the phases of [SliceSendOp] followed by the phases of
    [SliceRecvOp] give back the input tensor: type, shape, and contents byte
    for byte or string for string. *)
Theorem slice_round_trip (fw : Framework) (sop : SliceSendOp.t)
    (rop : SliceRecvOp.t) (sctx rctx : OpKernelContext.t) (w : World) :
  let input_t := OpKernelContext.input sctx in
  let key :=
    phase_key (SliceSendOp.key_prefix_ sop)
      (GetFrameAndIter sctx (SliceSendOp.hostmem_sendrecv_ sop)) in
  1 <= SliceSendOp.slice_size_ sop <= INT64_MAX ->
  payload_wf input_t ->
  TotalBytes input_t <= 2 ^ 62 ->
  SliceSendOp.dtype_ sop = dtype input_t ->
  OpKernelContext.is_input_dead sctx = false ->
  matching sop rop ->
  GetFrameAndIter rctx (SliceRecvOp.hostmem_sendrecv_ rop)
  = GetFrameAndIter sctx (SliceSendOp.hostmem_sendrecv_ sop) ->
  OpKernelContext.has_rendezvous sctx = true ->
  OpKernelContext.has_rendezvous rctx = true ->
  aborted (rendezvous w) = None ->
  (forall p, ParseKey (key p) = true) ->
  (forall p, ~ In (key p) (map fst (table (rendezvous w)))) ->
  round_trips sop rop sctx rctx w.
Proof.
  intros input_t key HS Hwf Hfit Ht Hlive Hm Hfi Hrs Hrr Ha Hk Hfresh.
  destruct (Compute_sends sop sctx Hlive HS Hfit Hk Hrs Hwf Ht w Ha)
    as (w1 & E1 & A1 & T1).
  destruct (Compute_receives sop sctx HS Hfit Hk rop rctx
              (table (rendezvous w)) Hm Hfi Hfresh Hrr Hwf Ht w1 [])
    as (o & w2 & E2 & [A2 T2] & ->).
  { split; [exact A1|]. now rewrite app_nil_r. }
  exists w1, w2. split; [exact E1|]. split; [exact E2|].
  now rewrite T2, app_nil_r.
Qed.

Lemma slice_round_trip_witness :
  let sop := SliceSendOp.construct (example_send_attrs 3 DT_STRING) in
  let rop := SliceRecvOp.construct (example_recv_attrs 3 DT_STRING) in
  let input_t :=
    strings_tensor [[x01; x02; x03; x04; x05; x06; x07]; [x08]; []] in
  let ctx := example_ctx input_t false in
  (1 <= SliceSendOp.slice_size_ sop <= INT64_MAX
   /\ payload_wf input_t
   /\ @TotalBytes example_framework input_t <= 2 ^ 62
   /\ SliceSendOp.dtype_ sop = dtype input_t
   /\ OpKernelContext.is_input_dead ctx = false
   /\ matching sop rop
   /\ OpKernelContext.has_rendezvous ctx = true
   /\ aborted (rendezvous fresh_world) = None)
  /\ @round_trips example_framework sop rop ctx ctx fresh_world.
Proof.
  intros sop rop input_t ctx.
  assert (H : 1 <= SliceSendOp.slice_size_ sop <= INT64_MAX
              /\ payload_wf input_t
              /\ @TotalBytes example_framework input_t <= 2 ^ 62
              /\ SliceSendOp.dtype_ sop = dtype input_t
              /\ OpKernelContext.is_input_dead ctx = false
              /\ matching sop rop
              /\ OpKernelContext.has_rendezvous ctx = true
              /\ aborted (rendezvous fresh_world) = None)
    by (repeat split; vm_compute; solve [reflexivity | discriminate]).
  split; [exact H|].
  destruct H as (H1 & H2 & H3 & H4 & H5 & H6 & H7 & H8).
  apply (slice_round_trip example_framework sop rop ctx ctx fresh_world
           H1 H2 H3 H4 H5 H6 eq_refl H7 H7 H8).
  - intros p. apply example_keys_accepted.
  - intros p [].
Defined.

(** C1 as stated, for every slice size, fails at [slice_size = 0]: on a live
    one-byte payload the sender divides by zero after the [Shape] phase, so
    there is no round trip, although every other condition of the round trip
    holds. *)
Lemma round_trip_fails_at_slice_size_zero :
  let sop := SliceSendOp.construct (example_send_attrs 0 DT_UINT8) in
  let rop := SliceRecvOp.construct (example_recv_attrs 0 DT_UINT8) in
  let input_t := bytes_tensor [x01] in
  let ctx := example_ctx input_t false in
  (payload_wf input_t
   /\ @TotalBytes example_framework input_t <= 2 ^ 62
   /\ SliceSendOp.dtype_ sop = dtype input_t
   /\ OpKernelContext.is_input_dead ctx = false
   /\ matching sop rop
   /\ OpKernelContext.has_rendezvous ctx = true
   /\ aborted (rendezvous fresh_world) = None)
  /\ fst (@SliceSendOp.Compute example_framework sop ctx fresh_world)
     = Halt DivideByZero
  /\ ~ @round_trips example_framework sop rop ctx ctx fresh_world.
Proof.
  intros sop rop input_t ctx.
  split; [repeat split; vm_compute; solve [reflexivity | discriminate]|].
  assert (E : fst (@SliceSendOp.Compute example_framework sop ctx fresh_world)
              = Halt DivideByZero) by (vm_compute; reflexivity).
  split; [exact E|].
  intros (w1 & w2 & E1 & _). rewrite E1 in E. discriminate E.
Qed.

(** ** What a run leaves of the table *)

Section Preserves.

Variable R : World -> World -> Prop.
Hypothesis R_refl : forall w, R w w.
Hypothesis R_trans : forall w1 w2 w3, R w1 w2 -> R w2 w3 -> R w1 w3.

Lemma preserves_ret {A} (a : A) : preserves R (ret a).
Proof. intros w. apply R_refl. Qed.

Lemma preserves_fail {A} (c : Code) : preserves R (@fail A c).
Proof. intros w. apply R_refl. Qed.

Lemma preserves_halt {A} (f : Fault) : preserves R (@halt A f).
Proof. intros w. apply R_refl. Qed.

Lemma preserves_guard {A} (f : Fault) (o : option A) :
  preserves R (guard f o).
Proof. destruct o; [apply preserves_ret | apply preserves_halt]. Qed.

Lemma preserves_CHECK_not_dead (is_dead : bool) :
  preserves R (CHECK_not_dead is_dead).
Proof. destruct is_dead; [apply preserves_halt | apply preserves_ret]. Qed.

Lemma preserves_ParseKey_checked `{Framework} (key : string) :
  preserves R (ParseKey_checked key).
Proof.
  unfold ParseKey_checked.
  destruct (ParseKey key); [apply preserves_ret | apply preserves_fail].
Qed.

Lemma preserves_bind {A B} (m : M A) (k : A -> M B) :
  preserves R m -> (forall a, preserves R (k a)) -> preserves R (bind m k).
Proof.
  intros Hm Hk w. unfold bind. specialize (Hm w).
  destruct (m w) as [[a|c|f] w1]; simpl in *; [|exact Hm|exact Hm].
  apply (R_trans _ _ _ Hm). apply Hk.
Qed.

Lemma preserves_for_loop (n : nat) (body : Z -> M unit) :
  (forall i, preserves R (body i)) ->
  forall i, preserves R (for_loop n i body).
Proof.
  intros Hb. induction n as [|n IH]; intros i; simpl.
  - apply preserves_ret.
  - apply preserves_bind; [apply Hb | intros _; apply IH].
Qed.

Lemma preserves_for_loop_acc {A} (n : nat) (body : Z -> A -> M A) :
  (forall i a, preserves R (body i a)) ->
  forall i a, preserves R (for_loop_acc n i body a).
Proof.
  intros Hb. induction n as [|n IH]; intros i a; simpl.
  - apply preserves_ret.
  - apply preserves_bind; [apply Hb | intros a'; apply IH].
Qed.

End Preserves.

Lemma only_deposited_refl (key_prefix : string) (frame_iter : FrameAndIter)
    (w : World) :
  only_deposited key_prefix frame_iter w w.
Proof.
  split; [reflexivity|]. intros key. exists []. now rewrite app_nil_r.
Qed.

Lemma only_deposited_trans (key_prefix : string) (frame_iter : FrameAndIter)
    (w1 w2 w3 : World) :
  only_deposited key_prefix frame_iter w1 w2 ->
  only_deposited key_prefix frame_iter w2 w3 ->
  only_deposited key_prefix frame_iter w1 w3.
Proof.
  intros [A1 H1] [A2 H2]. split; [congruence|]. intros key.
  destruct (H1 key) as (a1 & E1 & F1). destruct (H2 key) as (a2 & E2 & F2).
  exists (a1 ++ a2). split.
  - now rewrite E2, E1, app_assoc.
  - intros Hf. now rewrite (F1 Hf), (F2 Hf).
Qed.

Lemma only_withdrew_refl (key_prefix : string) (frame_iter : FrameAndIter)
    (w : World) :
  only_withdrew key_prefix frame_iter w w.
Proof. split; [reflexivity|]. intros key. now exists []. Qed.

Lemma only_withdrew_trans (key_prefix : string) (frame_iter : FrameAndIter)
    (w1 w2 w3 : World) :
  only_withdrew key_prefix frame_iter w1 w2 ->
  only_withdrew key_prefix frame_iter w2 w3 ->
  only_withdrew key_prefix frame_iter w1 w3.
Proof.
  intros [A1 H1] [A2 H2]. split; [congruence|]. intros key.
  destruct (H1 key) as (t1 & E1 & F1). destruct (H2 key) as (t2 & E2 & F2).
  exists (t1 ++ t2). split.
  - now rewrite E1, E2, app_assoc.
  - intros Hf. now rewrite (F1 Hf), (F2 Hf).
Qed.

Lemma Send_only_deposited (key_prefix : string) (frame_iter : FrameAndIter)
    (p : Phase) (args : Args) (val : Tensor) (is_dead : bool) :
  preserves (only_deposited key_prefix frame_iter)
    (Send (phase_key key_prefix frame_iter p) args val is_dead).
Proof.
  intros w. unfold Send. destruct (aborted (rendezvous w)) eqn:Ea; simpl.
  - split; [simpl; now rewrite Ea|]. intros key. exists [].
    unfold pending_under. simpl. now rewrite app_nil_r.
  - split; [simpl; now rewrite Ea|]. intros key.
    unfold pending_under. simpl. rewrite filter_app, map_app. simpl.
    destruct (String.eqb_spec (phase_key key_prefix frame_iter p) key)
      as [E|N].
    + eexists. split; [reflexivity|]. intros Hf. now elim (Hf p).
    + exists []. split; [reflexivity|]. reflexivity.
Qed.

Lemma take_first_pending (key k : string) (tbl rest : list (string * Message))
    (m : Message) :
  take_first key tbl = Some (m, rest) ->
  map snd (filter (fun km => String.eqb (fst km) k) tbl)
  = (if String.eqb key k then [m] else [])
    ++ map snd (filter (fun km => String.eqb (fst km) k) rest).
Proof.
  revert rest. induction tbl as [|[k' m'] tbl IH]; intros rest E; simpl in E.
  - discriminate.
  - destruct (String.eqb_spec k' key) as [->|N].
    + injection E as -> ->. simpl.
      destruct (String.eqb key k); reflexivity.
    + destruct (take_first key tbl) as [[m1 rest1]|]; [|discriminate].
      injection E as -> <-. specialize (IH _ eq_refl). simpl.
      destruct (String.eqb_spec k' k) as [->|N'].
      * simpl. rewrite IH.
        destruct (String.eqb_spec key k) as [->|_]; [now elim N|].
        reflexivity.
      * exact IH.
Qed.

Lemma Recv_only_withdrew (key_prefix : string) (frame_iter : FrameAndIter)
    (p : Phase) (args : Args) (timeout_ms : Z) :
  preserves (only_withdrew key_prefix frame_iter)
    (Recv (phase_key key_prefix frame_iter p) args timeout_ms).
Proof.
  intros w. unfold Recv. destruct (aborted (rendezvous w)) eqn:Ea; simpl.
  - split; [simpl; now rewrite Ea|]. intros key. now exists [].
  - destruct (take_first _ (table (rendezvous w))) as [[m rest]|] eqn:Et;
      simpl.
    + split; [simpl; now rewrite Ea|]. intros key.
      unfold pending_under. simpl.
      rewrite (take_first_pending _ key _ _ _ Et).
      eexists. split; [reflexivity|]. intros Hf.
      destruct (String.eqb_spec (phase_key key_prefix frame_iter p) key)
        as [E|_]; [|reflexivity].
      now elim (Hf p).
    + split; [simpl; now rewrite Ea|]. intros key. now exists [].
Qed.

(** One structural step of a [preserves] proof for a reflexive and
    transitive relation; [leaf] settles the sends and the receives. *)
Ltac preserves_step refl trans leaf :=
  lazymatch goal with
  | |- preserves _ (ret _) => apply preserves_ret; exact refl
  | |- preserves _ (fail _) => apply preserves_fail; exact refl
  | |- preserves _ (halt _) => apply preserves_halt; exact refl
  | |- preserves _ (guard _ _) => apply preserves_guard; exact refl
  | |- preserves _ (ParseKey_checked _) =>
      apply preserves_ParseKey_checked; exact refl
  | |- preserves _ (CHECK_not_dead _) =>
      apply preserves_CHECK_not_dead; exact refl
  | |- preserves _ (Send _ _ _ _) => leaf
  | |- preserves _ (Recv _ _ _) => leaf
  | |- preserves _ (for_loop _ _ _) =>
      apply preserves_for_loop; [exact refl | exact trans | intros]
  | |- preserves _ (for_loop_acc _ _ _ _) =>
      apply preserves_for_loop_acc; [exact refl | exact trans | intros]
  | |- preserves _ (bind _ _) =>
      apply preserves_bind; [exact trans | | intros]
  | |- preserves _ (if ?b then _ else _) => destruct b eqn:?
  | |- preserves _ (match ?r with _ => _ end) => destruct r
  end.

Ltac preserves_kernel refl trans leaf :=
  unfold SliceSendOp.Compute, SliceSendOp.SendTotalBytes,
    SliceSendOp.SendShape, SliceSendOp.SendString,
    SliceSendOp.SendStringSlice, SliceSendOp.SendBasicType,
    SliceRecvOp.Compute, SliceRecvOp.RecvTotalBytes, SliceRecvOp.RecvShape,
    SliceRecvOp.RecvString, SliceRecvOp.RecvStringSlice,
    SliceRecvOp.RecvBasicType;
  repeat preserves_step refl trans leaf.

Ltac on_phase_key lemma :=
  first [ apply (lemma _ _ TransferData)
        | apply (lemma _ _ TotalBytesPhase)
        | apply (lemma _ _ ShapePhase)
        | apply (lemma _ _ ElementsSizePhase)
        | apply (lemma _ _ (DataSlice _))
        | apply (lemma _ _ (DataSubSlice _ _)) ].

Lemma send_only_deposits `{Framework} (op : SliceSendOp.t)
    (ctx : OpKernelContext.t) :
  preserves
    (only_deposited (SliceSendOp.key_prefix_ op)
       (GetFrameAndIter ctx (SliceSendOp.hostmem_sendrecv_ op)))
    (SliceSendOp.Compute op ctx).
Proof.
  preserves_kernel
    (only_deposited_refl (SliceSendOp.key_prefix_ op)
       (GetFrameAndIter ctx (SliceSendOp.hostmem_sendrecv_ op)))
    (only_deposited_trans (SliceSendOp.key_prefix_ op)
       (GetFrameAndIter ctx (SliceSendOp.hostmem_sendrecv_ op)))
    ltac:(on_phase_key Send_only_deposited).
Qed.

Lemma recv_only_withdraws `{Framework} (op : SliceRecvOp.t)
    (ctx : OpKernelContext.t) :
  preserves
    (only_withdrew (SliceRecvOp.key_prefix_ op)
       (GetFrameAndIter ctx (SliceRecvOp.hostmem_sendrecv_ op)))
    (SliceRecvOp.Compute op ctx).
Proof.
  preserves_kernel
    (only_withdrew_refl (SliceRecvOp.key_prefix_ op)
       (GetFrameAndIter ctx (SliceRecvOp.hostmem_sendrecv_ op)))
    (only_withdrew_trans (SliceRecvOp.key_prefix_ op)
       (GetFrameAndIter ctx (SliceRecvOp.hostmem_sendrecv_ op)))
    ltac:(on_phase_key Recv_only_withdrew).
Qed.

Lemma foreign_instance (key_prefix key_prefix' : string)
    (frame_iter frame_iter' : FrameAndIter) (p : Phase) :
  key_prefix' <> key_prefix \/ frame_iter' <> frame_iter ->
  foreign key_prefix' frame_iter' (phase_key key_prefix frame_iter p).
Proof.
  intros Hne p' Heq.
  apply KeyFacts.phase_key_inj in Heq as (Hp & _ & Hf).
  destruct Hne as [Hne|Hne]; apply Hne; congruence.
Qed.

(** X1: however it ends, a run of [SliceSendOp] leaves the abort status of
    the rendezvous as it was, changes a queue only by adding messages at its
    back, and adds none under a key that is not a phase key of its own
    transfer instance. *)
Theorem sender_only_deposits_under_own_keys (fw : Framework)
    (op : SliceSendOp.t) (ctx : OpKernelContext.t) (w : World) :
  let w' := snd (SliceSendOp.Compute op ctx w) in
  aborted (rendezvous w') = aborted (rendezvous w)
  /\ forall key,
       exists added,
         pending_under key w' = pending_under key w ++ added
         /\ ((forall p,
                 key <> phase_key (SliceSendOp.key_prefix_ op)
                          (GetFrameAndIter ctx
                             (SliceSendOp.hostmem_sendrecv_ op)) p) ->
             added = []).
Proof. exact (send_only_deposits op ctx w). Qed.

(** X2: however it ends, a run of [SliceRecvOp] leaves the abort status of
    the rendezvous as it was, changes a queue only by taking messages from
    its front, and takes none from under a key that is not a phase key of its
    own transfer instance. *)
Theorem receiver_only_withdraws_under_own_keys (fw : Framework)
    (op : SliceRecvOp.t) (ctx : OpKernelContext.t) (w : World) :
  let w' := snd (SliceRecvOp.Compute op ctx w) in
  aborted (rendezvous w') = aborted (rendezvous w)
  /\ forall key,
       exists taken,
         pending_under key w = taken ++ pending_under key w'
         /\ ((forall p,
                 key <> phase_key (SliceRecvOp.key_prefix_ op)
                          (GetFrameAndIter ctx
                             (SliceRecvOp.hostmem_sendrecv_ op)) p) ->
             taken = []).
Proof. exact (recv_only_withdraws op ctx w). Qed.

(** X3: transfers do not interfere: a run of a sender or of a receiver whose
    key prefix or whose frame and iteration differ from those of a transfer
    instance leaves the queue of every phase of that instance as it was,
    however the run ends. *)
Theorem other_transfers_untouched (fw : Framework) (sop : SliceSendOp.t)
    (rop : SliceRecvOp.t) (ctx : OpKernelContext.t) (w : World)
    (key_prefix : string) (frame_iter : FrameAndIter) (p : Phase) :
  (SliceSendOp.key_prefix_ sop <> key_prefix
   \/ GetFrameAndIter ctx (SliceSendOp.hostmem_sendrecv_ sop) <> frame_iter) ->
  (SliceRecvOp.key_prefix_ rop <> key_prefix
   \/ GetFrameAndIter ctx (SliceRecvOp.hostmem_sendrecv_ rop) <> frame_iter) ->
  pending_under (phase_key key_prefix frame_iter p)
    (snd (SliceSendOp.Compute sop ctx w))
  = pending_under (phase_key key_prefix frame_iter p) w
  /\ pending_under (phase_key key_prefix frame_iter p)
       (snd (SliceRecvOp.Compute rop ctx w))
     = pending_under (phase_key key_prefix frame_iter p) w.
Proof.
  intros Hs Hr. split.
  - destruct (send_only_deposits sop ctx w) as [_ Hq].
    destruct (Hq (phase_key key_prefix frame_iter p)) as (added & -> & Hnil).
    rewrite (Hnil (foreign_instance _ _ _ _ p Hs)). apply app_nil_r.
  - destruct (recv_only_withdraws rop ctx w) as [_ Hq].
    destruct (Hq (phase_key key_prefix frame_iter p)) as (taken & -> & Hnil).
    rewrite (Hnil (foreign_instance _ _ _ _ p Hr)). reflexivity.
Qed.

Lemma other_transfers_untouched_witness :
  let sop := SliceSendOp.construct (example_send_attrs 3 DT_UINT8) in
  let rop := SliceRecvOp.construct (example_recv_attrs 3 DT_UINT8) in
  let ctx := example_ctx (bytes_tensor [x01; x02; x03; x04]) false in
  let next := {| frame_id := 1; iter_id := 1 |} in
  let key := phase_key (SliceSendOp.key_prefix_ sop) next TotalBytesPhase in
  let waiting :=
    {| msg_args := send_args ctx AllocatorAttributes;
       msg_val := @total_bytes_tensor example_framework (bytes_tensor []);
       msg_is_dead := false |} in
  let w := set_table [(key, waiting)] fresh_world in
  (GetFrameAndIter ctx (SliceSendOp.hostmem_sendrecv_ sop) <> next
   /\ GetFrameAndIter ctx (SliceRecvOp.hostmem_sendrecv_ rop) <> next)
  /\ pending_under key (snd (@SliceSendOp.Compute example_framework sop ctx w))
     = [waiting]
  /\ pending_under key (snd (@SliceRecvOp.Compute example_framework rop ctx w))
     = [waiting].
Proof.
  intros sop rop ctx next key waiting w.
  assert (H : GetFrameAndIter ctx (SliceSendOp.hostmem_sendrecv_ sop) <> next
              /\ GetFrameAndIter ctx (SliceRecvOp.hostmem_sendrecv_ rop)
                 <> next)
    by (split; vm_compute; discriminate).
  split; [exact H|].
  destruct H as [H1 H2].
  exact (other_transfers_untouched example_framework sop rop ctx w
           (SliceSendOp.key_prefix_ sop) next TotalBytesPhase
           (or_intror H1) (or_intror H2)).
Defined.

(** ** The calls a run makes *)

Lemma respects_ParseKey_then `{Framework} {A} (P : Event -> Prop)
    (F X : Fault -> Prop) (key : string) (k : unit -> M A) :
  (ParseKey key = true -> respects P F X (k tt)) ->
  respects P F X (bind (ParseKey_checked key) k).
Proof.
  intros Hk w. unfold bind, ParseKey_checked.
  destruct (ParseKey key).
  - exact (Hk eq_refl w).
  - exists []. simpl. rewrite app_nil_r.
    split; [reflexivity|]. split; [discriminate|]. left. constructor.
Qed.

(** A step that keeps the verdict of [ParseKey] on the key at hand. *)
Ltac accepted_step side :=
  lazymatch goal with
  | |- respects _ _ _ (bind (ParseKey_checked _) _) =>
      apply respects_ParseKey_then; intros ?; cbv beta
  | _ => respects_step side
  end.

Ltac accepted_kernel side :=
  unfold SliceSendOp.Compute, SliceSendOp.SendTotalBytes,
    SliceSendOp.SendShape, SliceSendOp.SendString,
    SliceSendOp.SendStringSlice, SliceSendOp.SendBasicType,
    SliceRecvOp.Compute, SliceRecvOp.RecvTotalBytes, SliceRecvOp.RecvShape,
    SliceRecvOp.RecvString, SliceRecvOp.RecvStringSlice,
    SliceRecvOp.RecvBasicType;
  repeat accepted_step side.

Ltac accepted_call :=
  solve [ exact I
        | discriminate
        | split;
          [ match goal with H : ParseKey _ = true |- _ => exact H end
          | exact I ] ].

Lemma send_calls `{Framework} (op : SliceSendOp.t) (ctx : OpKernelContext.t) :
  respects (fun e => accepted e /\ is_send e) (fun _ => True)
    (fun _ => False) (SliceSendOp.Compute op ctx).
Proof. accepted_kernel accepted_call. Qed.

Lemma recv_calls `{Framework} (op : SliceRecvOp.t) (ctx : OpKernelContext.t) :
  respects (fun e => accepted e /\ is_recv e) (fun _ => True)
    (fun _ => False) (SliceRecvOp.Compute op ctx).
Proof. accepted_kernel accepted_call. Qed.

(** X4: every call a kernel makes on the rendezvous is under a key that
    [Rendezvous::ParseKey] accepted, and the calls of [SliceSendOp] are sends
    only, those of [SliceRecvOp] receives only; this holds for every run,
    however it ends. *)
Theorem calls_only_under_accepted_keys (fw : Framework) (sop : SliceSendOp.t)
    (rop : SliceRecvOp.t) (ctx : OpKernelContext.t) (w : World) :
  (exists evs,
      trace (snd (SliceSendOp.Compute sop ctx w)) = trace w ++ evs
      /\ Forall (fun e => ParseKey (event_key e) = true /\ is_send e) evs)
  /\ (exists evs,
        trace (snd (SliceRecvOp.Compute rop ctx w)) = trace w ++ evs
        /\ Forall (fun e => ParseKey (event_key e) = true /\ is_recv e) evs).
Proof.
  split.
  - exact (respects_all _ _ _ (send_calls sop ctx) w).
  - exact (respects_all _ _ _ (recv_calls rop ctx) w).
Qed.

(** ** How a run ends *)

Section Ends.

Variable S : Code -> Prop.
Variable F : Fault -> Prop.

Lemma ends_ret {A} (a : A) : ends S F (ret a).
Proof. intros w. repeat split; discriminate. Qed.

Lemma ends_fail {A} (c : Code) : S c -> ends S F (@fail A c).
Proof.
  intros Hc w. split; [reflexivity|]. split; [|discriminate].
  intros c' [= <-]. now left.
Qed.

Lemma ends_ParseKey_checked `{Framework} (key : string) :
  (ParseKey key = false -> S INVALID_ARGUMENT) ->
  ends S F (ParseKey_checked key).
Proof.
  unfold ParseKey_checked. destruct (ParseKey key); intros Hs;
    [apply ends_ret | apply ends_fail; now apply Hs].
Qed.

Lemma ends_bind {A B} (m : M A) (k : A -> M B) :
  ends S F m -> (forall a, ends S F (k a)) -> ends S F (bind m k).
Proof.
  intros Hm Hk w. unfold bind.
  destruct (Hm w) as (Ha & Hc & Hf).
  destruct (m w) as [[a|c|f] w1]; simpl in *.
  - destruct (Hk a w1) as (Ha' & Hc' & Hf').
    split; [congruence|]. split; [|exact Hf'].
    intros c E. destruct (Hc' c E) as [?|?]; [now left | right; congruence].
  - split; [exact Ha|]. split; [|discriminate].
    intros c' [= <-]. now apply Hc.
  - split; [exact Ha|]. split; [discriminate|].
    intros f' [= <-]. now apply Hf.
Qed.

Lemma ends_Send (key : string) (args : Args) (val : Tensor) (is_dead : bool) :
  ends S F (Send key args val is_dead).
Proof.
  intros w. unfold Send.
  destruct (aborted (rendezvous w)) as [c|] eqn:E; simpl.
  - split; [exact E|]. split; [|discriminate].
    intros c' [= <-]. now right.
  - split; [exact E|]. split; discriminate.
Qed.

End Ends.

(** ** The status of a run *)

Lemma run_failed {A} (m : M A) (w : World) (c : Code) :
  fst (m w) = Failed c -> m w = (Failed c, snd (m w)).
Proof. intros E. rewrite <- E. apply surjective_pairing. Qed.

Section FailsBy.

Variable S : Code -> Prop.
Variable C : Code -> World -> Prop.

Lemma fails_by_ret {A} (a : A) : fails_by S C (ret a).
Proof. intros w c E. discriminate E. Qed.

Lemma fails_by_fail {A} (c : Code) : S c -> fails_by S C (@fail A c).
Proof. intros Hc w c' [= <-]. now left. Qed.

Lemma fails_by_halt {A} (f : Fault) : fails_by S C (@halt A f).
Proof. intros w c E. discriminate E. Qed.

Lemma fails_by_guard {A} (f : Fault) (o : option A) :
  fails_by S C (guard f o).
Proof. destruct o; [apply fails_by_ret | apply fails_by_halt]. Qed.

Lemma fails_by_CHECK_not_dead (is_dead : bool) :
  fails_by S C (CHECK_not_dead is_dead).
Proof. destruct is_dead; [apply fails_by_halt | apply fails_by_ret]. Qed.

Lemma fails_by_ParseKey_checked `{Framework} (key : string) :
  (ParseKey key = false -> S INVALID_ARGUMENT) ->
  fails_by S C (ParseKey_checked key).
Proof.
  unfold ParseKey_checked. destruct (ParseKey key); intros Hs;
    [apply fails_by_ret | apply fails_by_fail; now apply Hs].
Qed.

Lemma fails_by_bind {A B} (m : M A) (k : A -> M B) :
  fails_by S C m -> (forall a, fails_by S C (k a)) ->
  fails_by S C (bind m k).
Proof.
  intros Hm Hk w c. unfold bind. specialize (Hm w).
  destruct (m w) as [[a|c'|f] w1]; simpl in *.
  - apply Hk.
  - intros [= <-]. now apply Hm.
  - discriminate.
Qed.

Lemma fails_by_for_loop (n : nat) (body : Z -> M unit) :
  (forall i, fails_by S C (body i)) ->
  forall i, fails_by S C (for_loop n i body).
Proof.
  intros Hb. induction n as [|n IH]; intros i; simpl.
  - apply fails_by_ret.
  - apply fails_by_bind; [apply Hb | intros _; apply IH].
Qed.

Lemma fails_by_for_loop_acc {A} (n : nat) (body : Z -> A -> M A) :
  (forall i a, fails_by S C (body i a)) ->
  forall i a, fails_by S C (for_loop_acc n i body a).
Proof.
  intros Hb. induction n as [|n IH]; intros i a; simpl.
  - apply fails_by_ret.
  - apply fails_by_bind; [apply Hb | intros a'; apply IH].
Qed.

Lemma fails_by_call {A} (call : M A) :
  (forall w c, fst (call w) = Failed c -> C c (snd (call w))) ->
  fails_by S C call.
Proof. intros Hc w c E. right. now apply Hc. Qed.

End FailsBy.

Ltac fails_by_step side call :=
  lazymatch goal with
  | |- fails_by _ _ (ret _) => apply fails_by_ret
  | |- fails_by _ _ (fail _) => apply fails_by_fail; side
  | |- fails_by _ _ (halt _) => apply fails_by_halt
  | |- fails_by _ _ (guard _ _) => apply fails_by_guard
  | |- fails_by _ _ (ParseKey_checked _) =>
      apply fails_by_ParseKey_checked; intros; side
  | |- fails_by _ _ (CHECK_not_dead _) => apply fails_by_CHECK_not_dead
  | |- fails_by _ _ (Send _ _ _ _) =>
      apply fails_by_call; intros ? ? ?; call
  | |- fails_by _ _ (Recv _ _ _) =>
      apply fails_by_call; intros ? ? ?; call
  | |- fails_by _ _ (for_loop _ _ _) => apply fails_by_for_loop; intros
  | |- fails_by _ _ (for_loop_acc _ _ _ _) =>
      apply fails_by_for_loop_acc; intros
  | |- fails_by _ _ (bind _ _) => apply fails_by_bind; [|intros]
  | |- fails_by _ _ (if ?b then _ else _) => destruct b eqn:?
  | |- fails_by _ _ (match ?r with _ => _ end) => destruct r
  end.

Ltac fails_by_kernel side call :=
  unfold SliceSendOp.Compute, SliceSendOp.SendTotalBytes,
    SliceSendOp.SendShape, SliceSendOp.SendString,
    SliceSendOp.SendStringSlice, SliceSendOp.SendBasicType,
    SliceRecvOp.Compute, SliceRecvOp.RecvTotalBytes, SliceRecvOp.RecvShape,
    SliceRecvOp.RecvString, SliceRecvOp.RecvStringSlice,
    SliceRecvOp.RecvBasicType;
  repeat fails_by_step side call.

Ltac rejected_phase_key H :=
  first [ exists TransferData; exact H
        | exists TotalBytesPhase; exact H
        | exists ShapePhase; exact H
        | exists ElementsSizePhase; exact H
        | eexists (DataSlice _); exact H
        | eexists (DataSubSlice _ _); exact H ].

Ltac own_status :=
  solve [ left; split; [reflexivity | now apply negb_true_iff]
        | right; split; [reflexivity|];
          match goal with
          | H : ParseKey _ = false |- _ => rejected_phase_key H
          end ].

Ltac failed_call_of E rest :=
  first [ exists TransferData; rest; exact (run_failed _ _ _ E)
        | exists TotalBytesPhase; rest; exact (run_failed _ _ _ E)
        | exists ShapePhase; rest; exact (run_failed _ _ _ E)
        | exists ElementsSizePhase; rest; exact (run_failed _ _ _ E)
        | eexists (DataSlice _); rest; exact (run_failed _ _ _ E)
        | eexists (DataSubSlice _ _); rest; exact (run_failed _ _ _ E) ].

Ltac failed_send :=
  idtac;
  match goal with
  | E : fst (Send _ _ _ _ _) = Failed _ |- _ =>
      failed_call_of E ltac:(do 4 eexists)
  end.

Ltac failed_recv :=
  idtac;
  match goal with
  | E : fst (Recv _ _ _ _) = Failed _ |- _ =>
      failed_call_of E ltac:(do 2 eexists)
  end.

Lemma send_fails_by `{Framework} (op : SliceSendOp.t)
    (ctx : OpKernelContext.t) :
  fails_by
    (fun c =>
       (c = INTERNAL /\ OpKernelContext.has_rendezvous ctx = false)
       \/ (c = INVALID_ARGUMENT
           /\ exists p,
                ParseKey
                  (phase_key (SliceSendOp.key_prefix_ op)
                     (GetFrameAndIter ctx (SliceSendOp.hostmem_sendrecv_ op))
                     p) = false))
    (fun c w' =>
       exists p args val is_dead w0,
         Send
           (phase_key (SliceSendOp.key_prefix_ op)
              (GetFrameAndIter ctx (SliceSendOp.hostmem_sendrecv_ op)) p)
           args val is_dead w0
         = (Failed c, w'))
    (SliceSendOp.Compute op ctx).
Proof. fails_by_kernel own_status failed_send. Qed.

Lemma recv_fails_by `{Framework} (op : SliceRecvOp.t)
    (ctx : OpKernelContext.t) :
  fails_by
    (fun c =>
       (c = INTERNAL /\ OpKernelContext.has_rendezvous ctx = false)
       \/ (c = INVALID_ARGUMENT
           /\ exists p,
                ParseKey
                  (phase_key (SliceRecvOp.key_prefix_ op)
                     (GetFrameAndIter ctx (SliceRecvOp.hostmem_sendrecv_ op))
                     p) = false))
    (fun c w' =>
       exists p args w0,
         Recv
           (phase_key (SliceRecvOp.key_prefix_ op)
              (GetFrameAndIter ctx (SliceRecvOp.hostmem_sendrecv_ op)) p)
           args (SliceRecvOp.timeout_ms_ op) w0
         = (Failed c, w'))
    (SliceRecvOp.Compute op ctx).
Proof. fails_by_kernel own_status failed_recv. Qed.

(** X5: where the status of a kernel comes from, allocation failures apart.
    A kernel has two statuses of its own: [INTERNAL], returned when the
    context has no rendezvous, and [INVALID_ARGUMENT], returned when
    [ParseKey] rejected the key of one of its phases. Every other status it
    returns is the one that a call of the rendezvous under one of its phase
    keys returned, a [Send] for [SliceSendOp] and a [Recv] with the timeout
    of the op for [SliceRecvOp]; the kernel passes it on unchanged and stops
    there, leaving the world as that call left it. Which statuses the
    rendezvous returns is not part of this. *)
Theorem statuses_of_the_kernels (fw : Framework) (sop : SliceSendOp.t)
    (rop : SliceRecvOp.t) (ctx : OpKernelContext.t) (w : World) :
  (forall c,
      fst (SliceSendOp.Compute sop ctx w) = Failed c ->
      (c = INTERNAL /\ OpKernelContext.has_rendezvous ctx = false)
      \/ (c = INVALID_ARGUMENT
          /\ exists p,
               ParseKey
                 (phase_key (SliceSendOp.key_prefix_ sop)
                    (GetFrameAndIter ctx (SliceSendOp.hostmem_sendrecv_ sop))
                    p) = false)
      \/ exists p args val is_dead w0,
           Send
             (phase_key (SliceSendOp.key_prefix_ sop)
                (GetFrameAndIter ctx (SliceSendOp.hostmem_sendrecv_ sop)) p)
             args val is_dead w0
           = (Failed c, snd (SliceSendOp.Compute sop ctx w)))
  /\ (forall c,
        fst (SliceRecvOp.Compute rop ctx w) = Failed c ->
        (c = INTERNAL /\ OpKernelContext.has_rendezvous ctx = false)
        \/ (c = INVALID_ARGUMENT
            /\ exists p,
                 ParseKey
                   (phase_key (SliceRecvOp.key_prefix_ rop)
                      (GetFrameAndIter ctx
                         (SliceRecvOp.hostmem_sendrecv_ rop)) p) = false)
        \/ exists p args w0,
             Recv
               (phase_key (SliceRecvOp.key_prefix_ rop)
                  (GetFrameAndIter ctx (SliceRecvOp.hostmem_sendrecv_ rop))
                  p)
               args (SliceRecvOp.timeout_ms_ rop) w0
             = (Failed c, snd (SliceRecvOp.Compute rop ctx w))).
Proof.
  split; intros c E.
  - destruct (send_fails_by sop ctx w c E) as [[?|?]|?]; tauto.
  - destruct (recv_fails_by rop ctx w c E) as [[?|?]|?]; tauto.
Qed.

Lemma ends_for_loop_ranged (S : Code -> Prop) (F : Fault -> Prop)
    (body : Z -> M unit) (n : nat) :
  forall i,
    (forall j, i <= j < i + Z.of_nat n -> ends S F (body j)) ->
    ends S F (for_loop n i body).
Proof.
  induction n as [|n IH]; intros i Hb; simpl.
  - apply ends_ret.
  - apply ends_bind; [apply Hb; lia | intros _; apply IH].
    intros j Hj. apply Hb. lia.
Qed.

Lemma ends_keyed_Send `{Framework} (S : Code -> Prop) (F : Fault -> Prop)
    (key : string) (args : Args) (val : Tensor) (is_dead : bool) :
  S INVALID_ARGUMENT ->
  ends S F (bind (ParseKey_checked key) (fun _ => Send key args val is_dead)).
Proof.
  intros Hs. apply ends_bind; [now apply ends_ParseKey_checked|].
  intros _. apply ends_Send.
Qed.

(** ** The sender on a well-formed payload *)

Section SenderReturns.

Context `{Framework}.
Variable op : SliceSendOp.t.
Variable ctx : OpKernelContext.t.

Local Abbreviation input_t := (OpKernelContext.input ctx).
Local Abbreviation slice_size := (SliceSendOp.slice_size_ op).
Local Abbreviation frame_iter :=
  (GetFrameAndIter ctx (SliceSendOp.hostmem_sendrecv_ op)).
Local Abbreviation returns := (ends (fun _ => True) (fun _ => False)).

Hypothesis slice_size_range : 1 <= slice_size <= INT64_MAX.
Hypothesis input_fits : TotalBytes input_t <= 2 ^ 62.

Lemma SendBasicType_returns (b : list byte) :
  buf input_t = RawBytes b -> slice_size < size b ->
  returns (SliceSendOp.SendBasicType op ctx frame_iter input_t).
Proof.
  intros Hb Hlt.
  assert (Hn : TotalBytes input_t = size b)
    by (unfold TotalBytes; now rewrite Hb).
  rewrite Hn in input_fits. unfold INT64_MAX in *.
  unfold SliceSendOp.SendBasicType. rewrite Hn.
  rewrite int64_wrap_small
    by (unfold INT64_MAX; pose proof (size_nonneg b); lia).
  rewrite send_basic_slice_num by (unfold INT64_MAX; lia).
  rewrite bind_guard_Some. unfold data at 1. rewrite Hb, bind_guard_Some.
  apply ends_for_loop_ranged. intros j Hj.
  rewrite send_basic_slice by (unfold INT64_MAX; lia).
  destruct (slice_range_bounds slice_size (size b) j) as (_ & B1 & B2 & B3);
    [lia | lia | lia |].
  unfold slice_range in B2, B3. simpl in B2, B3.
  change (data (allocate DT_INT8 [?c]))
    with (Some (repeat x00 (Z.to_nat (c * 1 * 1)))).
  rewrite bind_guard_Some.
  rewrite memcpy_to_fresh by lia.
  rewrite bind_guard_Some.
  now apply ends_keyed_Send.
Qed.

Lemma SendStringSlice_returns (elem : tstring) (index : Z) :
  slice_size < size elem -> size elem <= 2 ^ 62 ->
  returns (SliceSendOp.SendStringSlice op ctx frame_iter elem index).
Proof.
  intros Hlt Hfit. unfold INT64_MAX in *.
  unfold SliceSendOp.SendStringSlice.
  rewrite send_string_slice_num by (unfold INT64_MAX; lia).
  rewrite bind_guard_Some.
  apply ends_for_loop_ranged. intros j Hj.
  rewrite send_string_slice by (unfold INT64_MAX; lia).
  destruct (slice_range_bounds slice_size (size elem) j)
    as (_ & B1 & B2 & B3); [lia | lia | lia |].
  unfold substr.
  destruct (Z.ltb_spec (size elem) (j * slice_size)); [lia|].
  rewrite bind_guard_Some.
  now apply ends_keyed_Send.
Qed.

Lemma SendString_returns (elems : list tstring) :
  buf input_t = StringValues elems -> payload_wf input_t ->
  returns (SliceSendOp.SendString op ctx frame_iter input_t).
Proof.
  intros Hb Hwf. unfold payload_wf in Hwf. rewrite Hb in Hwf.
  destruct Hwf as [Hd Hn].
  unfold SliceSendOp.SendString, flat_tstring. rewrite Hd, Hb, <- Hn.
  rewrite Z.eqb_refl, bind_guard_Some.
  apply ends_bind; [now apply ends_ParseKey_checked | intros _].
  apply ends_bind; [apply ends_Send | intros _].
  apply ends_for_loop_ranged. intros j Hj.
  unfold flat_get. destruct (Z.ltb_spec j 0); [lia|].
  destruct (nth_error elems (Z.to_nat j)) as [e|] eqn:He.
  - rewrite bind_guard_Some.
    rewrite size_t_wrap_small by lia.
    destruct (Z.leb_spec (size e) slice_size) as [Hle|Hlt].
    + now apply ends_keyed_Send.
    + apply SendStringSlice_returns; [lia|].
      apply nth_error_In, size_le_sum_sizes in He.
      unfold TotalBytes in input_fits. rewrite Hb in input_fits.
      pose proof sizeof_tstring_nonneg. pose proof (size_nonneg elems). nia.
  - apply nth_error_None in He. unfold size in Hj. lia.
Qed.

Lemma Compute_returns :
  payload_wf input_t -> SliceSendOp.dtype_ op = dtype input_t ->
  returns (SliceSendOp.Compute op ctx).
Proof.
  intros Hwf Ht. unfold SliceSendOp.Compute.
  destruct (negb (OpKernelContext.has_rendezvous ctx));
    [now apply ends_fail|].
  apply ends_bind.
  { unfold SliceSendOp.SendTotalBytes. now apply ends_keyed_Send. }
  intros _.
  destruct (OpKernelContext.is_input_dead ctx); [apply ends_ret|].
  pose proof (TotalBytes_nonneg input_t) as Hn.
  rewrite size_t_wrap_small by lia.
  destruct (Z.leb_spec (TotalBytes input_t) slice_size) as [Hle|Hlt].
  - now apply ends_keyed_Send.
  - apply ends_bind.
    { unfold SliceSendOp.SendShape. now apply ends_keyed_Send. }
    intros _.
    pose proof (payload_branch op ctx Hwf Ht) as Hbr.
    destruct (buf input_t) as [b|v|s] eqn:Hb; [|contradiction|];
      rewrite Hbr.
    + apply SendBasicType_returns with (b := b); [exact Hb|].
      unfold TotalBytes in Hlt. now rewrite Hb in Hlt.
    + now apply SendString_returns with (elems := s).
Qed.

End SenderReturns.

(** X6: on a well-formed payload (the bytes of a fixed-width tensor or the
    elements of a string tensor, of the type the sender was built for and of
    at most [2^62] bytes in all) and with [1 <= slice_size <= INT64_MAX], no
    run of [SliceSendOp] ends in a fault: every division is by a nonzero
    slice size, every [memcpy] and every [substr] stays inside the input,
    and no [CHECK] fails, whatever the state of the rendezvous, whichever
    keys [ParseKey] accepts and whether or not the input is dead. The run
    returns OK or a status. *)
Theorem sender_never_faults (fw : Framework) (op : SliceSendOp.t)
    (ctx : OpKernelContext.t) (w : World) :
  1 <= SliceSendOp.slice_size_ op <= INT64_MAX ->
  payload_wf (OpKernelContext.input ctx) ->
  TotalBytes (OpKernelContext.input ctx) <= 2 ^ 62 ->
  SliceSendOp.dtype_ op = dtype (OpKernelContext.input ctx) ->
  fst (SliceSendOp.Compute op ctx w) = Done tt
  \/ exists c, fst (SliceSendOp.Compute op ctx w) = Failed c.
Proof.
  intros Hs Hwf Hfit Ht.
  destruct (Compute_returns op ctx Hs Hfit Hwf Ht w) as (_ & _ & Hf).
  destruct (fst (SliceSendOp.Compute op ctx w)) as [[]|c|f].
  - now left.
  - right. now exists c.
  - now elim (Hf f).
Qed.

(** ** The pieces of a payload *)

Lemma length_range (n : nat) : forall i, List.length (range i n) = n.
Proof. induction n as [|n IH]; intros i; simpl; [|rewrite IH]; reflexivity. Qed.

Lemma concat_chunks (slice_size : Z) (b : list byte) :
  1 <= slice_size -> slice_size <= size b ->
  forall (k : nat) (i : Z),
    0 <= i -> i + Z.of_nat k = ceil_div (size b) slice_size ->
    flat_map (fun j => chunk b (slice_range slice_size (size b) j))
      (range i k)
    = skipn (Z.to_nat (i * slice_size)) b.
Proof.
  intros Hs Hle.
  pose proof (ceil_div_bounds (size b) slice_size ltac:(lia)) as Hc.
  induction k as [|k IH]; intros i Hi Hn; simpl.
  - symmetry. apply skipn_all2. unfold size in *. nia.
  - rewrite IH by lia.
    destruct (slice_range_bounds slice_size (size b) i)
      as (B0 & B1 & B2 & B3); [lia | lia | lia |].
    unfold chunk. rewrite B0.
    set (len := snd (slice_range slice_size (size b) i)) in *.
    destruct (Z.min_spec ((i + 1) * slice_size) (size b)) as [[Hm E]|[Hm E]];
      rewrite E in B3.
    + replace (Z.to_nat ((i + 1) * slice_size))
        with (Z.to_nat len + Z.to_nat (i * slice_size))%nat by lia.
      rewrite <- skipn_skipn. apply firstn_skipn.
    + rewrite (skipn_all2 (n := Z.to_nat ((i + 1) * slice_size)))
        by (unfold size in *; lia).
      rewrite app_nil_r. apply firstn_all2.
      rewrite length_skipn. unfold size in *. lia.
Qed.

Lemma chunk_size (slice_size : Z) (b : list byte) (i : Z) :
  1 <= slice_size -> slice_size <= size b ->
  0 <= i < ceil_div (size b) slice_size ->
  1 <= size (chunk b (slice_range slice_size (size b) i)) <= slice_size
  /\ size (chunk b (slice_range slice_size (size b) i))
     = snd (slice_range slice_size (size b) i).
Proof.
  intros Hs Hle Hi.
  destruct (slice_range_bounds slice_size (size b) i)
    as (B0 & B1 & B2 & B3); [lia | lia | lia |].
  assert (E : size (chunk b (slice_range slice_size (size b) i))
              = snd (slice_range slice_size (size b) i)).
  { destruct (slice_range slice_size (size b) i) as [start len] eqn:R.
    simpl in *. apply size_chunk; lia. }
  rewrite E. split; [lia | reflexivity].
Qed.

Lemma basic_slices_carry `{Framework} (key_prefix : string)
    (frame_iter : FrameAndIter) (ctx : OpKernelContext.t) (slice_size : Z)
    (b : list byte) :
  1 <= slice_size -> slice_size <= size b ->
  carries_bytes slice_size b
    (map (basic_slice_message key_prefix frame_iter ctx slice_size b)
       (range 0 (Z.to_nat (ceil_div (size b) slice_size)))).
Proof.
  intros Hs Hle.
  pose proof (ceil_div_bounds (size b) slice_size ltac:(lia)) as Hc.
  assert (0 <= ceil_div (size b) slice_size) by nia.
  split; [|split].
  - rewrite flat_map_concat_map, map_map, <- flat_map_concat_map.
    unfold carried, basic_slice_message. simpl.
    now rewrite (concat_chunks slice_size b Hs Hle) by lia.
  - unfold size at 1. rewrite length_map, length_range. lia.
  - apply Forall_forall. intros km Hin.
    apply in_map_iff in Hin as (i & <- & Hin). apply In_range in Hin.
    destruct (chunk_size slice_size b i Hs Hle ltac:(lia)) as [Hb E].
    unfold carried, basic_slice_message. simpl.
    split; [exact Hb|]. now rewrite E.
Qed.

Lemma element_messages_carry `{Framework} (key_prefix : string)
    (frame_iter : FrameAndIter) (ctx : OpKernelContext.t) (slice_size : Z)
    (index : Z) (elem : tstring) :
  1 <= slice_size ->
  carries_element slice_size elem
    (element_messages key_prefix frame_iter ctx slice_size index elem).
Proof.
  intros Hs. unfold carries_element, element_messages.
  destruct (Z.leb_spec (size elem) slice_size) as [Hle|Hlt].
  - split; [apply app_nil_r|]. split; [reflexivity|].
    constructor; [|constructor]. unfold carried. simpl.
    split; [lia|]. split; [lia | reflexivity].
  - pose proof (ceil_div_bounds (size elem) slice_size ltac:(lia)) as Hc.
    assert (0 <= ceil_div (size elem) slice_size) by nia.
    split; [|split].
    + rewrite flat_map_concat_map, map_map, <- flat_map_concat_map.
      unfold carried, string_slice_message. simpl.
      now rewrite (concat_chunks slice_size elem Hs) by lia.
    + unfold size at 1. rewrite length_map, length_range. lia.
    + apply Forall_forall. intros km Hin.
      apply in_map_iff in Hin as (i & <- & Hin). apply In_range in Hin.
      destruct (chunk_size slice_size elem i Hs ltac:(lia) ltac:(lia))
        as [Hb E].
      unfold carried, string_slice_message. simpl.
      split; [lia|]. split; [lia | reflexivity].
Qed.

Lemma elements_messages_carry `{Framework} (key_prefix : string)
    (frame_iter : FrameAndIter) (ctx : OpKernelContext.t) (slice_size : Z)
    (elems : list tstring) :
  1 <= slice_size ->
  forall index,
    exists groups,
      elements_messages key_prefix frame_iter ctx slice_size index elems
      = List.concat groups
      /\ Forall2 (carries_element slice_size) elems groups.
Proof.
  intros Hs. induction elems as [|e elems IH]; intros index; simpl.
  - exists []. split; [reflexivity | constructor].
  - destruct (IH (index + 1)) as (groups & -> & Hg).
    exists (element_messages key_prefix frame_iter ctx slice_size index e
              :: groups).
    split; [reflexivity|]. constructor; [|exact Hg].
    now apply element_messages_carry.
Qed.

(** X7: a live fixed-width payload of more than [slice_size] bytes
    ([1 <= slice_size <= INT64_MAX], at most [2^62] bytes) leaves the sender
    as the [TotalBytes] and [Shape] envelopes followed by exactly
    [ceil(N / slice_size)] data slices under the keys
    ["_slice_transfer_data_0"], ["_slice_transfer_data_1"], ...; each slice
    is a [DT_INT8] vector of at least one and at most [slice_size] bytes, and
    the slices, put end to end in the order sent, are the bytes of the
    input: no byte is lost, repeated or moved. *)
Theorem fixed_width_payload_is_partitioned (fw : Framework)
    (op : SliceSendOp.t) (ctx : OpKernelContext.t) (w : World)
    (b : list byte) :
  let input_t := OpKernelContext.input ctx in
  let frame_iter := GetFrameAndIter ctx (SliceSendOp.hostmem_sendrecv_ op) in
  let key_prefix := SliceSendOp.key_prefix_ op in
  let slice_size := SliceSendOp.slice_size_ op in
  buf input_t = RawBytes b ->
  payload_wf input_t ->
  SliceSendOp.dtype_ op = dtype input_t ->
  1 <= slice_size <= INT64_MAX ->
  slice_size < size b <= 2 ^ 62 ->
  OpKernelContext.is_input_dead ctx = false ->
  OpKernelContext.has_rendezvous ctx = true ->
  aborted (rendezvous w) = None ->
  (forall p, ParseKey (phase_key key_prefix frame_iter p) = true) ->
  exists w1 slices,
    SliceSendOp.Compute op ctx w = (Done tt, w1)
    /\ table (rendezvous w1)
       = table (rendezvous w)
           ++ total_bytes_message key_prefix frame_iter ctx input_t
           :: shape_message key_prefix frame_iter ctx input_t
           :: slices
    /\ map fst slices
       = map (fun i => phase_key key_prefix frame_iter (DataSlice i))
           (range 0 (Z.to_nat (ceil_div (size b) slice_size)))
    /\ carries_bytes slice_size b slices.
Proof.
  intros input_t frame_iter key_prefix slice_size Hb Hwf Ht HS Hn Hlive Hr Ha
    Hk.
  assert (Hfit : TotalBytes input_t <= 2 ^ 62)
    by (unfold TotalBytes; rewrite Hb; lia).
  destruct (Compute_sends op ctx Hlive HS Hfit Hk Hr Hwf Ht w Ha)
    as (w1 & E1 & _ & T1).
  exists w1. eexists. split; [exact E1|].
  unfold transfer_messages in T1. fold input_t in T1.
  replace (TotalBytes input_t) with (size b) in T1
    by (unfold TotalBytes; now rewrite Hb).
  rewrite Hb in T1.
  destruct (Z.leb_spec (size b) (SliceSendOp.slice_size_ op)) as [?|_];
    [unfold slice_size in Hn; lia|].
  split; [exact T1|]. split.
  - rewrite map_map. reflexivity.
  - apply basic_slices_carry; unfold slice_size in *; lia.
Qed.

Lemma fixed_width_payload_is_partitioned_witness :
  let op := SliceSendOp.construct (example_send_attrs 3 DT_INT16) in
  let b := [x01; x02; x03; x04; x05; x06; x07; x08; x09; x0a] in
  let input_t := {| dtype := DT_INT16; shape := [5]; buf := RawBytes b |} in
  let ctx := example_ctx input_t false in
  (buf input_t = RawBytes b
   /\ payload_wf input_t
   /\ SliceSendOp.dtype_ op = dtype input_t
   /\ 1 <= SliceSendOp.slice_size_ op <= INT64_MAX
   /\ SliceSendOp.slice_size_ op < size b <= 2 ^ 62
   /\ OpKernelContext.is_input_dead ctx = false
   /\ OpKernelContext.has_rendezvous ctx = true
   /\ aborted (rendezvous fresh_world) = None)
  /\ exists w1 slices,
       @SliceSendOp.Compute example_framework op ctx fresh_world
       = (Done tt, w1)
       /\ table (rendezvous w1)
          = table (rendezvous fresh_world)
              ++ @total_bytes_message example_framework
                   (SliceSendOp.key_prefix_ op)
                   {| frame_id := 1; iter_id := 0 |} ctx input_t
              :: shape_message (SliceSendOp.key_prefix_ op)
                   {| frame_id := 1; iter_id := 0 |} ctx input_t
              :: slices
       /\ map fst slices
          = map (fun i =>
                   phase_key (SliceSendOp.key_prefix_ op)
                     {| frame_id := 1; iter_id := 0 |} (DataSlice i))
              [0; 1; 2; 3]
       /\ carries_bytes 3 b slices.
Proof.
  intros op b input_t ctx.
  assert (H : buf input_t = RawBytes b
              /\ payload_wf input_t
              /\ SliceSendOp.dtype_ op = dtype input_t
              /\ 1 <= SliceSendOp.slice_size_ op <= INT64_MAX
              /\ SliceSendOp.slice_size_ op < size b <= 2 ^ 62
              /\ OpKernelContext.is_input_dead ctx = false
              /\ OpKernelContext.has_rendezvous ctx = true
              /\ aborted (rendezvous fresh_world) = None)
    by (repeat split; vm_compute; solve [reflexivity | discriminate]).
  split; [exact H|].
  destruct H as (H1 & H2 & H3 & H4 & H5 & H6 & H7 & H8).
  exact (fixed_width_payload_is_partitioned example_framework op ctx
           fresh_world b H1 H2 H3 H4 H5 H6 H7 H8
           (example_keys_accepted 3 DT_INT16 {| frame_id := 1; iter_id := 0 |})).
Defined.

(** X8: a live string payload of more than [slice_size] bytes in all
    ([1 <= slice_size <= INT64_MAX], at most [2^62] bytes) leaves the sender
    as the [TotalBytes], [Shape] and element-sizes envelopes followed by one
    group of messages for each element, in the order of the elements: an
    element of at most [slice_size] bytes, the empty string too, travels
    whole in one message, a longer one in [ceil(size / slice_size)] pieces of
    at least one and at most [slice_size] bytes that, put end to end, are the
    element. The keys are those of the data phases of the elements. *)
Theorem string_payload_is_partitioned (fw : Framework) (op : SliceSendOp.t)
    (ctx : OpKernelContext.t) (w : World) (elems : list tstring) :
  let input_t := OpKernelContext.input ctx in
  let frame_iter := GetFrameAndIter ctx (SliceSendOp.hostmem_sendrecv_ op) in
  let key_prefix := SliceSendOp.key_prefix_ op in
  let slice_size := SliceSendOp.slice_size_ op in
  buf input_t = StringValues elems ->
  payload_wf input_t ->
  SliceSendOp.dtype_ op = dtype input_t ->
  1 <= slice_size <= INT64_MAX ->
  slice_size < TotalBytes input_t <= 2 ^ 62 ->
  OpKernelContext.is_input_dead ctx = false ->
  OpKernelContext.has_rendezvous ctx = true ->
  aborted (rendezvous w) = None ->
  (forall p, ParseKey (phase_key key_prefix frame_iter p) = true) ->
  exists w1 groups,
    SliceSendOp.Compute op ctx w = (Done tt, w1)
    /\ table (rendezvous w1)
       = table (rendezvous w)
           ++ total_bytes_message key_prefix frame_iter ctx input_t
           :: shape_message key_prefix frame_iter ctx input_t
           :: elements_size_message key_prefix frame_iter ctx input_t elems
           :: List.concat groups
    /\ map fst (List.concat groups)
       = map (phase_key key_prefix frame_iter)
           (elements_phases slice_size 0 elems)
    /\ Forall2 (carries_element slice_size) elems groups.
Proof.
  intros input_t frame_iter key_prefix slice_size Hb Hwf Ht HS Hn Hlive Hr Ha
    Hk.
  destruct (Compute_sends op ctx Hlive HS (proj2 Hn) Hk Hr Hwf Ht w Ha)
    as (w1 & E1 & _ & T1).
  destruct (elements_messages_carry key_prefix frame_iter ctx slice_size
              elems (proj1 HS) 0) as (groups & Eg & Hg).
  exists w1, groups. split; [exact E1|].
  unfold transfer_messages in T1. fold input_t in T1.
  destruct (Z.leb_spec (TotalBytes input_t) (SliceSendOp.slice_size_ op))
    as [?|_]; [unfold slice_size in Hn; lia|].
  rewrite Hb in T1. fold key_prefix frame_iter slice_size in T1.
  rewrite Eg in T1.
  split; [exact T1|]. split; [|exact Hg].
  rewrite <- Eg. apply elements_messages_keys.
Qed.

Lemma string_payload_is_partitioned_witness :
  let op := SliceSendOp.construct (example_send_attrs 3 DT_STRING) in
  let elems := [[x01; x02; x03; x04; x05; x06; x07]; [x08]; []] in
  let input_t := strings_tensor elems in
  let ctx := example_ctx input_t false in
  let frame_iter := {| frame_id := 1; iter_id := 0 |} in
  (buf input_t = StringValues elems
   /\ payload_wf input_t
   /\ SliceSendOp.dtype_ op = dtype input_t
   /\ 1 <= SliceSendOp.slice_size_ op <= INT64_MAX
   /\ SliceSendOp.slice_size_ op < @TotalBytes example_framework input_t
      <= 2 ^ 62
   /\ OpKernelContext.is_input_dead ctx = false
   /\ OpKernelContext.has_rendezvous ctx = true
   /\ aborted (rendezvous fresh_world) = None)
  /\ exists w1 groups,
       @SliceSendOp.Compute example_framework op ctx fresh_world
       = (Done tt, w1)
       /\ table (rendezvous w1)
          = table (rendezvous fresh_world)
              ++ @total_bytes_message example_framework
                   (SliceSendOp.key_prefix_ op) frame_iter ctx input_t
              :: shape_message (SliceSendOp.key_prefix_ op) frame_iter ctx
                   input_t
              :: elements_size_message (SliceSendOp.key_prefix_ op)
                   frame_iter ctx input_t elems
              :: List.concat groups
       /\ map fst (List.concat groups)
          = map (phase_key (SliceSendOp.key_prefix_ op) frame_iter)
              [DataSubSlice 0 0; DataSubSlice 0 1; DataSubSlice 0 2;
               DataSlice 1; DataSlice 2]
       /\ Forall2 (carries_element 3) elems groups.
Proof.
  intros op elems input_t ctx frame_iter.
  assert (H : buf input_t = StringValues elems
              /\ payload_wf input_t
              /\ SliceSendOp.dtype_ op = dtype input_t
              /\ 1 <= SliceSendOp.slice_size_ op <= INT64_MAX
              /\ SliceSendOp.slice_size_ op
                 < @TotalBytes example_framework input_t <= 2 ^ 62
              /\ OpKernelContext.is_input_dead ctx = false
              /\ OpKernelContext.has_rendezvous ctx = true
              /\ aborted (rendezvous fresh_world) = None)
    by (repeat split; vm_compute; solve [reflexivity | discriminate]).
  split; [exact H|].
  destruct H as (H1 & H2 & H3 & H4 & H5 & H6 & H7 & H8).
  exact (string_payload_is_partitioned example_framework op ctx fresh_world
           elems H1 H2 H3 H4 H5 H6 H7 H8
           (example_keys_accepted 3 DT_STRING frame_iter)).
Defined.

Lemma sender_never_faults_witness :
  let op := SliceSendOp.construct (example_send_attrs 3 DT_STRING) in
  let input_t :=
    strings_tensor [[x01; x02; x03; x04; x05; x06; x07]; [x08]; []] in
  let ctx := example_ctx input_t false in
  let w :=
    {| rendezvous := {| table := []; aborted := Some ABORTED |};
       trace := [] |} in
  (1 <= SliceSendOp.slice_size_ op <= INT64_MAX
   /\ payload_wf input_t
   /\ @TotalBytes example_framework input_t <= 2 ^ 62
   /\ SliceSendOp.dtype_ op = dtype input_t)
  /\ (fst (@SliceSendOp.Compute example_framework op ctx w) = Done tt
      \/ exists c,
           fst (@SliceSendOp.Compute example_framework op ctx w) = Failed c).
Proof.
  intros op input_t ctx w.
  assert (H : 1 <= SliceSendOp.slice_size_ op <= INT64_MAX
              /\ payload_wf input_t
              /\ @TotalBytes example_framework input_t <= 2 ^ 62
              /\ SliceSendOp.dtype_ op = dtype input_t)
    by (repeat split; vm_compute; solve [reflexivity | discriminate]).
  split; [exact H|].
  destruct H as (H1 & H2 & H3 & H4).
  exact (sender_never_faults example_framework op ctx w H1 H2 H3 H4).
Defined.

(** ** Dead values from end to end *)

Lemma Compute_sends_dead `{Framework} (op : SliceSendOp.t)
    (ctx : OpKernelContext.t) :
  OpKernelContext.has_rendezvous ctx = true ->
  OpKernelContext.is_input_dead ctx = true ->
  ParseKey
    (phase_key (SliceSendOp.key_prefix_ op)
       (GetFrameAndIter ctx (SliceSendOp.hostmem_sendrecv_ op))
       TotalBytesPhase) = true ->
  sends
    [(phase_key (SliceSendOp.key_prefix_ op)
        (GetFrameAndIter ctx (SliceSendOp.hostmem_sendrecv_ op))
        TotalBytesPhase,
      {| msg_args := send_args ctx AllocatorAttributes;
         msg_val := total_bytes_tensor (OpKernelContext.input ctx);
         msg_is_dead := true |})]
    (SliceSendOp.Compute op ctx).
Proof.
  intros Hr Hd Hk. unfold SliceSendOp.Compute. rewrite Hr. simpl negb.
  cbv iota. rewrite Hd.
  apply (sends_bind [_] []); [|apply sends_ret].
  unfold SliceSendOp.SendTotalBytes. rewrite Hd.
  now apply sends_keyed.
Qed.

Lemma Compute_receives_dead `{Framework} (op : SliceRecvOp.t)
    (ctx : OpKernelContext.t) (older : list (string * Message))
    (args : Args) (val : Tensor) :
  let key :=
    phase_key (SliceRecvOp.key_prefix_ op)
      (GetFrameAndIter ctx (SliceRecvOp.hostmem_sendrecv_ op))
      TotalBytesPhase in
  OpKernelContext.has_rendezvous ctx = true ->
  ParseKey key = true ->
  ~ In key (map fst older) ->
  receives older
    [(key, {| msg_args := args; msg_val := val; msg_is_dead := true |})]
    (fun output => output = None)
    (SliceRecvOp.Compute op ctx).
Proof.
  intros key Hr Hk Hfresh. unfold SliceRecvOp.Compute. rewrite Hr.
  simpl negb. cbv iota.
  apply (receives_bind older [_] [] (fun r => r = (true, 0))).
  - unfold SliceRecvOp.RecvTotalBytes.
    apply (receives_bind older [] [_] (fun _ => True));
      [now apply receives_ParseKey_checked | intros _ _].
    apply (receives_bind older [_] []
             (fun r => r = (val, true))).
    + now apply (receives_Recv older key
                   {| msg_args := args; msg_val := val;
                      msg_is_dead := true |}).
    + intros r ->. now apply receives_ret.
  - intros r ->. now apply receives_ret.
Qed.

(** X9: a dead value goes from end to end without any data moving: when the
    input of [SliceSendOp] is dead, the sender followed by the receiver of
    the same transfer instance returns OK on both sides, the receiver sets no
    output, and the table is left as it was before the sender ran. This
    needs nothing of the slice sizes (they may be zero, or differ between the
    two kernels), of the types or of the input tensor. *)
Theorem dead_value_round_trip (fw : Framework) (sop : SliceSendOp.t)
    (rop : SliceRecvOp.t) (sctx rctx : OpKernelContext.t) (w : World) :
  let key :=
    phase_key (SliceSendOp.key_prefix_ sop)
      (GetFrameAndIter sctx (SliceSendOp.hostmem_sendrecv_ sop))
      TotalBytesPhase in
  OpKernelContext.is_input_dead sctx = true ->
  SliceRecvOp.key_prefix_ rop = SliceSendOp.key_prefix_ sop ->
  GetFrameAndIter rctx (SliceRecvOp.hostmem_sendrecv_ rop)
  = GetFrameAndIter sctx (SliceSendOp.hostmem_sendrecv_ sop) ->
  OpKernelContext.has_rendezvous sctx = true ->
  OpKernelContext.has_rendezvous rctx = true ->
  aborted (rendezvous w) = None ->
  ParseKey key = true ->
  ~ In key (map fst (table (rendezvous w))) ->
  exists w1 w2,
    SliceSendOp.Compute sop sctx w = (Done tt, w1)
    /\ SliceRecvOp.Compute rop rctx w1 = (Done None, w2)
    /\ table (rendezvous w2) = table (rendezvous w).
Proof.
  intros key Hd Hp Hfi Hrs Hrr Ha Hk Hfresh.
  destruct (Compute_sends_dead sop sctx Hrs Hd Hk w Ha)
    as (w1 & E1 & A1 & T1).
  destruct (Compute_receives_dead rop rctx (table (rendezvous w))
              (send_args sctx AllocatorAttributes)
              (total_bytes_tensor (OpKernelContext.input sctx)) Hrr
              ltac:(rewrite Hp, Hfi; exact Hk)
              ltac:(rewrite Hp, Hfi; exact Hfresh) w1 [])
    as (o & w2 & E2 & [A2 T2] & ->).
  { split; [exact A1|]. rewrite T1, Hp, Hfi. reflexivity. }
  exists w1, w2. split; [exact E1|]. split; [exact E2|].
  now rewrite T2, app_nil_r.
Qed.

Lemma dead_value_round_trip_witness :
  let sop := SliceSendOp.construct (example_send_attrs 0 DT_UINT8) in
  let rop := SliceRecvOp.construct (example_recv_attrs 7 DT_STRING) in
  let ctx := example_ctx (bytes_tensor [x01; x02]) true in
  (OpKernelContext.is_input_dead ctx = true
   /\ SliceRecvOp.key_prefix_ rop = SliceSendOp.key_prefix_ sop
   /\ OpKernelContext.has_rendezvous ctx = true
   /\ aborted (rendezvous fresh_world) = None)
  /\ exists w1 w2,
       @SliceSendOp.Compute example_framework sop ctx fresh_world
       = (Done tt, w1)
       /\ @SliceRecvOp.Compute example_framework rop ctx w1 = (Done None, w2)
       /\ table (rendezvous w2) = table (rendezvous fresh_world).
Proof.
  intros sop rop ctx.
  assert (H : OpKernelContext.is_input_dead ctx = true
              /\ SliceRecvOp.key_prefix_ rop = SliceSendOp.key_prefix_ sop
              /\ OpKernelContext.has_rendezvous ctx = true
              /\ aborted (rendezvous fresh_world) = None)
    by (repeat split; vm_compute; reflexivity).
  split; [exact H|].
  destruct H as (H1 & H2 & H3 & H4).
  apply (dead_value_round_trip example_framework sop rop ctx ctx fresh_world
           H1 H2 eq_refl H3 H3 H4).
  - apply example_keys_accepted.
  - intros [].
Defined.

(** ** Waiting for a message that is not there *)

Lemma take_first_absent (key : string) (tbl : list (string * Message)) :
  ~ In key (map fst tbl) -> take_first key tbl = None.
Proof.
  induction tbl as [|[k m] tbl IH]; simpl; intros Hn; [reflexivity|].
  destruct (String.eqb_spec k key) as [->|_]; [now elim Hn; left|].
  rewrite IH; [reflexivity|]. intros Hin. apply Hn. now right.
Qed.

Lemma starves_Recv (older left : list (string * Message)) (key : string)
    (args : Args) (timeout_ms : Z) :
  ~ In key (map fst older) -> ~ In key (map fst left) ->
  starves older [] left timeout_ms (Recv key args timeout_ms).
Proof.
  intros Ho Hl w [Ha Ht]. unfold Recv. rewrite Ha, Ht.
  rewrite take_first_absent.
  - eexists. split; [reflexivity|]. split; [exact Ha | exact Ht].
  - simpl. rewrite map_app, in_app_iff. tauto.
Qed.

Lemma starves_bind_now {A B} (older ms left : list (string * Message))
    (timeout_ms : Z) (m : M A) (k : A -> M B) :
  starves older ms left timeout_ms m ->
  starves older ms left timeout_ms (bind m k).
Proof.
  intros Hm w Hw. destruct (Hm w Hw) as (w' & E & Hw').
  exists w'. split; [|exact Hw'].
  unfold bind. rewrite E. unfold timed_out.
  now destruct (0 <? timeout_ms).
Qed.

Lemma starves_bind_later {A B} (older ms1 ms2 left : list (string * Message))
    (timeout_ms : Z) (Q : A -> Prop) (m : M A) (k : A -> M B) :
  receives older ms1 Q m ->
  (forall a, Q a -> starves older ms2 left timeout_ms (k a)) ->
  starves older (ms1 ++ ms2) left timeout_ms (bind m k).
Proof.
  intros Hm Hk w Hw. rewrite <- app_assoc in Hw.
  destruct (Hm w _ Hw) as (a & w1 & E & Hw1 & Ha).
  unfold bind. rewrite E. exact (Hk a Ha w1 Hw1).
Qed.

Lemma starves_keyed `{Framework} {A} (older ms left : list (string * Message))
    (timeout_ms : Z) (key : string) (k : unit -> M A) :
  ParseKey key = true ->
  starves older ms left timeout_ms (k tt) ->
  starves older ms left timeout_ms (bind (ParseKey_checked key) k).
Proof.
  intros Hk Hs w Hw. unfold bind, ParseKey_checked. rewrite Hk.
  exact (Hs w Hw).
Qed.

Lemma phase_key_absent (key_prefix : string) (frame_iter : FrameAndIter)
    (p : Phase) (phases : list Phase) :
  ~ In p phases ->
  ~ In (phase_key key_prefix frame_iter p)
      (map (phase_key key_prefix frame_iter) phases).
Proof.
  intros Hn Hin. apply in_map_iff in Hin as (q & E & Hq).
  apply KeyFacts.phase_key_inj in E as (_ & -> & _). now apply Hn.
Qed.

Lemma RecvTotalBytes_gets `{Framework} (op : SliceRecvOp.t)
    (ctx : OpKernelContext.t) (older : list (string * Message))
    (args : Args) (val : Tensor) (n : Z) (frame_iter : FrameAndIter) :
  let key :=
    phase_key (SliceRecvOp.key_prefix_ op) frame_iter TotalBytesPhase in
  ParseKey key = true ->
  ~ In key (map fst older) ->
  scalar_int64 val = Some n ->
  receives older
    [(key, {| msg_args := args; msg_val := val; msg_is_dead := false |})]
    (fun r => r = (false, n))
    (SliceRecvOp.RecvTotalBytes op ctx frame_iter).
Proof.
  intros key Hk Hfresh Hn. unfold SliceRecvOp.RecvTotalBytes.
  apply (receives_bind older [] [_] (fun _ => True));
    [now apply receives_ParseKey_checked | intros _ _].
  apply (receives_bind older [_] [] (fun r => r = (val, false))).
  - now apply (receives_Recv older key
                 {| msg_args := args; msg_val := val;
                    msg_is_dead := false |}).
  - intros r ->. simpl. rewrite Hn, bind_guard_Some. now apply receives_ret.
Qed.

Lemma direct_phases `{Framework} (slice_size : Z) (input_t : Tensor)
    (p : Phase) :
  TotalBytes input_t <= slice_size ->
  In p (transfer_phases slice_size input_t) ->
  p = TotalBytesPhase \/ p = TransferData.
Proof.
  intros Hle. unfold transfer_phases.
  destruct (Z.leb_spec (TotalBytes input_t) slice_size); [|lia].
  simpl. intuition congruence.
Qed.

Lemma sliced_phases `{Framework} (slice_size : Z) (input_t : Tensor) :
  slice_size < TotalBytes input_t ->
  ~ In TransferData (transfer_phases slice_size input_t).
Proof.
  intros Hlt. unfold transfer_phases.
  destruct (Z.leb_spec (TotalBytes input_t) slice_size); [lia|].
  intros [E|[E|Hin]]; try discriminate E.
  destruct (buf input_t) as [b|v|elems].
  - apply in_map_iff in Hin as (i & E & _). discriminate E.
  - exact Hin.
  - destruct Hin as [E|Hin]; [discriminate E|].
    apply elements_phases_index in Hin as (i & E & _). discriminate E.
Qed.

Lemma rest_of_transfer_keys `{Framework} (key_prefix : string)
    (frame_iter : FrameAndIter) (ctx : OpKernelContext.t) (slice_size : Z)
    (input_t : Tensor) (p : Phase) :
  ~ In p (transfer_phases slice_size input_t) ->
  ~ In (phase_key key_prefix frame_iter p)
      (map fst
         (tl (transfer_messages key_prefix frame_iter ctx slice_size
                input_t))).
Proof.
  intros Hn Hin.
  apply (phase_key_absent key_prefix frame_iter p _ Hn).
  rewrite <- (transfer_messages_keys key_prefix frame_iter ctx).
  unfold transfer_messages in *. simpl in *. now right.
Qed.

(** X10: a disagreement on the slice size across the size of the payload is
    found only by the wait running out. When the payload fits the slice size
    of exactly one of the two kernels of a transfer, the sender returns OK
    and the receiver, after taking the [TotalBytes] envelope, waits under a
    key the sender never used: it ends in [DEADLINE_EXCEEDED] when its
    timeout is positive and does not return otherwise, it sets no output, and
    every other message of the sender stays in the table. *)
Theorem slice_size_mismatch_times_out (fw : Framework) (sop : SliceSendOp.t)
    (rop : SliceRecvOp.t) (sctx rctx : OpKernelContext.t) (w : World) :
  let input_t := OpKernelContext.input sctx in
  let key_prefix := SliceSendOp.key_prefix_ sop in
  let frame_iter :=
    GetFrameAndIter sctx (SliceSendOp.hostmem_sendrecv_ sop) in
  (TotalBytes input_t <= SliceSendOp.slice_size_ sop
   /\ SliceRecvOp.slice_size_ rop < TotalBytes input_t)
  \/ (SliceSendOp.slice_size_ sop < TotalBytes input_t
      /\ TotalBytes input_t <= SliceRecvOp.slice_size_ rop) ->
  1 <= SliceSendOp.slice_size_ sop <= INT64_MAX ->
  payload_wf input_t ->
  TotalBytes input_t <= 2 ^ 62 ->
  SliceSendOp.dtype_ sop = dtype input_t ->
  OpKernelContext.is_input_dead sctx = false ->
  SliceRecvOp.key_prefix_ rop = key_prefix ->
  GetFrameAndIter rctx (SliceRecvOp.hostmem_sendrecv_ rop) = frame_iter ->
  OpKernelContext.has_rendezvous sctx = true ->
  OpKernelContext.has_rendezvous rctx = true ->
  aborted (rendezvous w) = None ->
  (forall p, ParseKey (phase_key key_prefix frame_iter p) = true) ->
  (forall p, ~ In (phase_key key_prefix frame_iter p)
               (map fst (table (rendezvous w)))) ->
  exists w1 w2,
    SliceSendOp.Compute sop sctx w = (Done tt, w1)
    /\ SliceRecvOp.Compute rop rctx w1
       = (if 0 <? SliceRecvOp.timeout_ms_ rop
          then Failed DEADLINE_EXCEEDED else Halt Blocked, w2)
    /\ table (rendezvous w2)
       = table (rendezvous w)
           ++ tl (transfer_messages key_prefix frame_iter sctx
                    (SliceSendOp.slice_size_ sop) input_t).
Proof.
  intros input_t key_prefix frame_iter Hmis HS Hwf Hfit Ht Hlive Hp Hfi Hrs
    Hrr Ha Hk Hfresh.
  destruct (Compute_sends sop sctx Hlive HS Hfit Hk Hrs Hwf Ht w Ha)
    as (w1 & E1 & A1 & T1).
  fold input_t key_prefix frame_iter in T1.
  set (left := tl (transfer_messages key_prefix frame_iter sctx
                     (SliceSendOp.slice_size_ sop) input_t)) in *.
  assert (Hstarves :
            starves (table (rendezvous w))
              [total_bytes_message key_prefix frame_iter sctx input_t] left
              (SliceRecvOp.timeout_ms_ rop) (SliceRecvOp.Compute rop rctx)).
  { unfold SliceRecvOp.Compute. rewrite Hrr, Hfi. simpl negb. cbv iota.
    pose proof (TotalBytes_nonneg input_t) as Hn.
    apply (starves_bind_later _ [_] [] left _
             (fun r => r = (false, TotalBytes input_t))).
    - unfold total_bytes_message, envelope. rewrite <- Hp.
      apply RecvTotalBytes_gets;
        [rewrite Hp; apply Hk | rewrite Hp; apply Hfresh |].
      unfold total_bytes_tensor, scalar_int64. simpl.
      rewrite int64_wrap_small by (unfold INT64_MAX; lia). reflexivity.
    - intros r ->. cbv beta iota.
      destruct Hmis as [[Hs Hr]|[Hs Hr]].
      + destruct (Z.leb_spec (TotalBytes input_t)
                    (SliceRecvOp.slice_size_ rop)); [lia|].
        apply starves_bind_now. unfold SliceRecvOp.RecvShape.
        rewrite Hp.
        apply starves_keyed; [apply (Hk ShapePhase)|].
        apply starves_bind_now.
        apply starves_Recv; [apply (Hfresh ShapePhase)|].
        apply (rest_of_transfer_keys key_prefix frame_iter sctx
                 (SliceSendOp.slice_size_ sop) input_t ShapePhase).
        intros Hin.
        apply direct_phases in Hin as [E|E]; [discriminate E ..|exact Hs].
      + destruct (Z.leb_spec (TotalBytes input_t)
                    (SliceRecvOp.slice_size_ rop)); [|lia].
        rewrite Hp.
        apply starves_keyed; [apply (Hk TransferData)|].
        apply starves_bind_now.
        apply starves_Recv; [apply (Hfresh TransferData)|].
        apply (rest_of_transfer_keys key_prefix frame_iter sctx
                 (SliceSendOp.slice_size_ sop) input_t TransferData).
        now apply sliced_phases. }
  destruct (Hstarves w1) as (w2 & E2 & _ & T2).
  { split; [exact A1|]. rewrite T1. reflexivity. }
  exists w1, w2. split; [exact E1|]. split; [exact E2 | exact T2].
Qed.

Lemma slice_size_mismatch_times_out_witness :
  let sop := SliceSendOp.construct (example_send_attrs 3 DT_UINT8) in
  let rop := SliceRecvOp.construct (example_recv_attrs 1 DT_UINT8) in
  let input_t := bytes_tensor [x01; x02] in
  let ctx := example_ctx input_t false in
  ((@TotalBytes example_framework input_t <= SliceSendOp.slice_size_ sop
    /\ SliceRecvOp.slice_size_ rop < @TotalBytes example_framework input_t)
   /\ 1 <= SliceSendOp.slice_size_ sop <= INT64_MAX
   /\ payload_wf input_t
   /\ @TotalBytes example_framework input_t <= 2 ^ 62
   /\ SliceSendOp.dtype_ sop = dtype input_t
   /\ OpKernelContext.is_input_dead ctx = false
   /\ SliceRecvOp.key_prefix_ rop = SliceSendOp.key_prefix_ sop
   /\ OpKernelContext.has_rendezvous ctx = true
   /\ aborted (rendezvous fresh_world) = None)
  /\ exists w1 w2,
       @SliceSendOp.Compute example_framework sop ctx fresh_world
       = (Done tt, w1)
       /\ @SliceRecvOp.Compute example_framework rop ctx w1
          = (Failed DEADLINE_EXCEEDED, w2)
       /\ table (rendezvous w2)
          = [direct_message (SliceSendOp.key_prefix_ sop)
               {| frame_id := 1; iter_id := 0 |} ctx input_t].
Proof.
  intros sop rop input_t ctx.
  assert (H : (@TotalBytes example_framework input_t
               <= SliceSendOp.slice_size_ sop
               /\ SliceRecvOp.slice_size_ rop
                  < @TotalBytes example_framework input_t)
              /\ 1 <= SliceSendOp.slice_size_ sop <= INT64_MAX
              /\ payload_wf input_t
              /\ @TotalBytes example_framework input_t <= 2 ^ 62
              /\ SliceSendOp.dtype_ sop = dtype input_t
              /\ OpKernelContext.is_input_dead ctx = false
              /\ SliceRecvOp.key_prefix_ rop = SliceSendOp.key_prefix_ sop
              /\ OpKernelContext.has_rendezvous ctx = true
              /\ aborted (rendezvous fresh_world) = None)
    by (repeat split; vm_compute; solve [reflexivity | discriminate]).
  split; [exact H|].
  destruct H as (H1 & H2 & H3 & H4 & H5 & H6 & H7 & H8 & H9).
  apply (slice_size_mismatch_times_out example_framework sop rop ctx ctx
           fresh_world (or_introl H1) H2 H3 H4 H5 H6 H7 eq_refl H8 H8 H9).
  - intros p. apply example_keys_accepted.
  - intros p [].
Defined.

(** ** The key prefix of an edge *)

Lemma semicolon_free_chars (s : string) :
  semicolon_free s ->
  Str.all_chars (fun c => negb (Ascii.eqb c ";")) s = true.
Proof.
  unfold semicolon_free. induction s as [|c s IH]; simpl; [reflexivity|].
  destruct (Ascii.eqb c ";"); simpl; [discriminate | exact IH].
Qed.

Lemma key_prefix_split (send_device recv_device tensor_name : string)
    (incarnation : Z) :
  GetSliceRendezvousKeyPrefix send_device recv_device incarnation tensor_name
  = (send_device
       ++ String ";" (Str.to_string incarnation
                        ++ String ";" (recv_device
                                         ++ String ";" tensor_name)))%string.
Proof. reflexivity. Qed.

Lemma key_prefix_inj (s1 r1 t1 s2 r2 t2 : string) (i1 i2 : Z) :
  semicolon_free s1 -> semicolon_free s2 ->
  semicolon_free r1 -> semicolon_free r2 ->
  GetSliceRendezvousKeyPrefix s1 r1 i1 t1
  = GetSliceRendezvousKeyPrefix s2 r2 i2 t2 ->
  s1 = s2 /\ r1 = r2 /\ i1 = i2 /\ t1 = t2.
Proof.
  intros Hs1 Hs2 Hr1 Hr2 E. rewrite !key_prefix_split in E.
  apply (StrFacts.split_first (fun c => negb (Ascii.eqb c ";"))) in E
    as [-> E];
    [|reflexivity | now apply semicolon_free_chars ..].
  apply (StrFacts.split_first Str.is_decimal_char) in E as [Ei E];
    [|reflexivity | apply StrFacts.all_chars_to_string ..].
  apply StrFacts.to_string_inj in Ei as ->.
  apply (StrFacts.split_first (fun c => negb (Ascii.eqb c ";"))) in E
    as [-> ->];
    [|reflexivity | now apply semicolon_free_chars ..].
  repeat split.
Qed.

(** X11: the key prefix identifies the edge: when the two device names hold
    no [;], the prefix [GetSliceRendezvousKeyPrefix] builds (with the
    incarnation in decimal) determines the send device, the receive device,
    the incarnation and the tensor name, so a sender and a receiver are built
    with the same prefix exactly when these four attributes agree. A device
    name with a [;] breaks this: two different edges then get one prefix. *)
Theorem key_prefix_identifies_the_edge :
  (forall (a : SliceSendOp.Attrs) (b : SliceRecvOp.Attrs),
      semicolon_free (SliceSendOp.send_device a) ->
      semicolon_free (SliceSendOp.recv_device a) ->
      semicolon_free (SliceRecvOp.send_device b) ->
      semicolon_free (SliceRecvOp.recv_device b) ->
      (SliceRecvOp.key_prefix_ (SliceRecvOp.construct b)
       = SliceSendOp.key_prefix_ (SliceSendOp.construct a)
       <-> SliceSendOp.send_device a = SliceRecvOp.send_device b
           /\ SliceSendOp.recv_device a = SliceRecvOp.recv_device b
           /\ SliceSendOp.send_device_incarnation a
              = SliceRecvOp.send_device_incarnation b
           /\ SliceSendOp.tensor_name a = SliceRecvOp.tensor_name b))
  /\ GetSliceRendezvousKeyPrefix "a;1" "b" 2 "n"
     = GetSliceRendezvousKeyPrefix "a" "2;b" 1 "n".
Proof.
  split; [|reflexivity].
  intros a b Ha1 Ha2 Hb1 Hb2. simpl. split.
  - intros E. symmetry in E. now apply key_prefix_inj in E.
  - intros (-> & -> & -> & ->). reflexivity.
Qed.

Lemma key_prefix_identifies_the_edge_witness :
  let a := example_send_attrs 3 DT_UINT8 in
  let b := example_recv_attrs 5 DT_STRING in
  (semicolon_free (SliceSendOp.send_device a)
   /\ semicolon_free (SliceSendOp.recv_device a)
   /\ semicolon_free (SliceRecvOp.send_device b)
   /\ semicolon_free (SliceRecvOp.recv_device b))
  /\ (SliceRecvOp.key_prefix_ (SliceRecvOp.construct b)
      = SliceSendOp.key_prefix_ (SliceSendOp.construct a)
      <-> SliceSendOp.send_device a = SliceRecvOp.send_device b
          /\ SliceSendOp.recv_device a = SliceRecvOp.recv_device b
          /\ SliceSendOp.send_device_incarnation a
             = SliceRecvOp.send_device_incarnation b
          /\ SliceSendOp.tensor_name a = SliceRecvOp.tensor_name b).
Proof.
  intros a b.
  assert (H : semicolon_free (SliceSendOp.send_device a)
              /\ semicolon_free (SliceSendOp.recv_device a)
              /\ semicolon_free (SliceRecvOp.send_device b)
              /\ semicolon_free (SliceRecvOp.recv_device b))
    by (repeat split; vm_compute; reflexivity).
  split; [exact H|].
  destruct H as (H1 & H2 & H3 & H4).
  exact (proj1 key_prefix_identifies_the_edge a b H1 H2 H3 H4).
Defined.

(** ** An aborted rendezvous *)

(** X12: on a rendezvous that was aborted with a status, either kernel stops
    at its first call: [SliceSendOp] returns [INTERNAL] without a rendezvous
    and [INVALID_ARGUMENT] when [ParseKey] rejects the [TotalBytes] key, both
    before any call, and otherwise the abort status, after the one attempt to
    send the [TotalBytes] envelope; [SliceRecvOp] does the same with its one
    attempt to receive it. Neither returns OK, neither changes the table, and
    this is so for every input, slice size and type. *)
Theorem aborted_rendezvous_stops_the_kernels (fw : Framework)
    (sop : SliceSendOp.t) (rop : SliceRecvOp.t) (ctx : OpKernelContext.t)
    (w : World) (c : Code) :
  let skey :=
    phase_key (SliceSendOp.key_prefix_ sop)
      (GetFrameAndIter ctx (SliceSendOp.hostmem_sendrecv_ sop))
      TotalBytesPhase in
  let rkey :=
    phase_key (SliceRecvOp.key_prefix_ rop)
      (GetFrameAndIter ctx (SliceRecvOp.hostmem_sendrecv_ rop))
      TotalBytesPhase in
  let envelope :=
    {| msg_args := send_args ctx AllocatorAttributes;
       msg_val := total_bytes_tensor (OpKernelContext.input ctx);
       msg_is_dead := OpKernelContext.is_input_dead ctx |} in
  aborted (rendezvous w) = Some c ->
  ((OpKernelContext.has_rendezvous ctx = false
    /\ SliceSendOp.Compute sop ctx w = (Failed INTERNAL, w))
   \/ (ParseKey skey = false
       /\ SliceSendOp.Compute sop ctx w = (Failed INVALID_ARGUMENT, w))
   \/ SliceSendOp.Compute sop ctx w
      = (Failed c, log (SendEvent skey envelope) w))
  /\ ((OpKernelContext.has_rendezvous ctx = false
       /\ SliceRecvOp.Compute rop ctx w = (Failed INTERNAL, w))
      \/ (ParseKey rkey = false
          /\ SliceRecvOp.Compute rop ctx w = (Failed INVALID_ARGUMENT, w))
      \/ SliceRecvOp.Compute rop ctx w
         = (Failed c, log (RecvEvent rkey None) w)).
Proof.
  intros skey rkey envelope Ha. subst skey rkey envelope.
  unfold phase_key, phase_suffix.
  unfold SliceSendOp.Compute, SliceSendOp.SendTotalBytes,
    SliceRecvOp.Compute, SliceRecvOp.RecvTotalBytes, bind, ParseKey_checked.
  destruct (OpKernelContext.has_rendezvous ctx); cbn [negb];
    [|split; left; split; reflexivity].
  split.
  - destruct (ParseKey _) eqn:Hk.
    + right. right. unfold ret, Send. cbv beta iota zeta. rewrite Ha.
      reflexivity.
    + right. left. split; reflexivity.
  - destruct (ParseKey _) eqn:Hk.
    + right. right. unfold ret, Recv. cbv beta iota zeta. rewrite Ha.
      reflexivity.
    + right. left. split; reflexivity.
Qed.

Lemma aborted_rendezvous_stops_the_kernels_witness :
  let sop := SliceSendOp.construct (example_send_attrs 3 DT_UINT8) in
  let rop := SliceRecvOp.construct (example_recv_attrs 3 DT_UINT8) in
  let input_t := bytes_tensor [x01; x02; x03; x04] in
  let ctx := example_ctx input_t false in
  let key :=
    phase_key (SliceSendOp.key_prefix_ sop) {| frame_id := 1; iter_id := 0 |}
      TotalBytesPhase in
  let envelope :=
    {| msg_args := send_args ctx AllocatorAttributes;
       msg_val := @total_bytes_tensor example_framework input_t;
       msg_is_dead := false |} in
  let w :=
    {| rendezvous := {| table := [(key, envelope)]; aborted := Some ABORTED |};
       trace := [] |} in
  aborted (rendezvous w) = Some ABORTED
  /\ @SliceSendOp.Compute example_framework sop ctx w
     = (Failed ABORTED, log (SendEvent key envelope) w)
  /\ @SliceRecvOp.Compute example_framework rop ctx w
     = (Failed ABORTED, log (RecvEvent key None) w).
Proof.
  intros sop rop input_t ctx key envelope w.
  assert (H : aborted (rendezvous w) = Some ABORTED) by reflexivity.
  split; [exact H|].
  destruct (aborted_rendezvous_stops_the_kernels example_framework sop rop
              ctx w ABORTED H) as [Hs Hr].
  split.
  - destruct Hs as [[E _]|[[E _]|E]]; [discriminate E ..|exact E].
  - destruct Hr as [[E _]|[[E _]|E]]; [discriminate E ..|exact E].
Defined.

(** ** A transfer that is not all there *)

Lemma takes_ret {A} (older : list (string * Message)) (Q : A -> Prop)
    (timeout_ms : Z) (a : A) :
  Q a -> takes older [] Q timeout_ms (ret a).
Proof.
  intros Hq. split; [now apply receives_ret|].
  intros sent missing E Hm. symmetry in E.
  apply app_eq_nil in E as [_ ->]. now elim Hm.
Qed.

Lemma takes_bind {A B} (older ms1 ms2 : list (string * Message))
    (Q1 : A -> Prop) (Q2 : B -> Prop) (timeout_ms : Z) (m : M A)
    (k : A -> M B) :
  takes older ms1 Q1 timeout_ms m ->
  (forall a, Q1 a -> takes older ms2 Q2 timeout_ms (k a)) ->
  takes older (ms1 ++ ms2) Q2 timeout_ms (bind m k).
Proof.
  intros [Hr Hs] Hk. split.
  - apply (receives_bind older ms1 ms2 Q1); [exact Hr|].
    intros a Ha. apply (Hk a Ha).
  - intros sent missing E Hm.
    assert (Later : forall l, sent = ms1 ++ l -> ms2 = l ++ missing ->
                              starves older sent [] timeout_ms (bind m k)).
    { intros l -> E2.
      apply (starves_bind_later older ms1 l [] timeout_ms Q1); [exact Hr|].
      intros a Ha. now apply (proj2 (Hk a Ha) l missing). }
    apply app_eq_app in E as (l & [[E1 E2]|[E1 E2]]).
    + destruct l as [|x l].
      * apply (Later []); [now rewrite app_nil_r in *|]. now subst.
      * apply starves_bind_now. now apply (Hs sent (x :: l)).
    + now apply (Later l).
Qed.

Lemma takes_weaken {A} (older ms : list (string * Message))
    (Q Q' : A -> Prop) (timeout_ms : Z) (m : M A) :
  takes older ms Q timeout_ms m -> (forall a, Q a -> Q' a) ->
  takes older ms Q' timeout_ms m.
Proof.
  intros [Hr Hs] Hq. split; [exact (receives_weaken _ _ _ _ _ Hr Hq)|].
  exact Hs.
Qed.

Lemma takes_ParseKey_checked `{Framework} (older : list (string * Message))
    (timeout_ms : Z) (key : string) :
  ParseKey key = true ->
  takes older [] (fun _ => True) timeout_ms (ParseKey_checked key).
Proof.
  intros Hk. unfold ParseKey_checked. rewrite Hk. now apply takes_ret.
Qed.

Lemma takes_Recv (older : list (string * Message)) (key : string)
    (m : Message) (args : Args) (timeout_ms : Z) :
  ~ In key (map fst older) ->
  takes older [(key, m)] (fun r => r = (msg_val m, msg_is_dead m)) timeout_ms
    (Recv key args timeout_ms).
Proof.
  intros Hn. split; [now apply receives_Recv|].
  intros sent missing E Hm.
  destruct sent as [|x sent].
  - apply starves_Recv; [exact Hn | intros []].
  - injection E as _ E. symmetry in E.
    apply app_eq_nil in E as [_ ->]. now elim Hm.
Qed.

(** A parsed key, the receive under it of a live message and its check. *)
Lemma takes_keyed `{Framework} {A} (older ms : list (string * Message))
    (key : string) (val : Tensor) (sargs args : Args) (timeout_ms : Z)
    (Q : A -> Prop) (k : Tensor -> M A) :
  ParseKey key = true ->
  ~ In key (map fst older) ->
  takes older ms Q timeout_ms (k val) ->
  takes older
    ((key, {| msg_args := sargs; msg_val := val; msg_is_dead := false |})
       :: ms) Q timeout_ms
    (bind (ParseKey_checked key)
       (fun _ =>
          bind (Recv key args timeout_ms)
            (fun r => let '(v, is_dead) := r in
                      bind (CHECK_not_dead is_dead) (fun _ => k v)))).
Proof.
  intros Hk Hn Hr.
  apply (takes_bind older [] _ (fun _ => True)).
  { now apply takes_ParseKey_checked. }
  intros _ _.
  apply (takes_bind older [_] ms _ Q _ _ _ (takes_Recv _ _ _ _ _ Hn)).
  intros r ->. simpl. exact Hr.
Qed.

Lemma takes_for_loop_acc {A} (older : list (string * Message))
    (f : Z -> string * Message) (I : Z -> A -> Prop) (timeout_ms : Z)
    (body : Z -> A -> M A) (n : nat) :
  forall i a,
    (forall j a', i <= j < i + Z.of_nat n -> I j a' ->
                  takes older [f j] (I (j + 1)) timeout_ms (body j a')) ->
    I i a ->
    takes older (map f (range i n)) (I (i + Z.of_nat n)) timeout_ms
      (for_loop_acc n i body a).
Proof.
  induction n as [|n IH]; intros i a Hb Hi; simpl.
  - apply takes_ret. now rewrite Z.add_0_r.
  - apply (takes_bind older [f i] _ (I (i + 1))).
    + apply Hb; [lia | exact Hi].
    + intros a' Ha'.
      replace (i + Z.pos (Pos.of_succ_nat n)) with (i + 1 + Z.of_nat n)
        by lia.
      apply IH; [|exact Ha']. intros j a'' Hj. apply Hb. lia.
Qed.

Section WholeTransfer.

Context `{Framework}.
Variable sop : SliceSendOp.t.
Variable sctx : OpKernelContext.t.
Variable rop : SliceRecvOp.t.
Variable rctx : OpKernelContext.t.
Variable older : list (string * Message).

Local Abbreviation input_t := (OpKernelContext.input sctx).
Local Abbreviation slice_size := (SliceSendOp.slice_size_ sop).
Local Abbreviation key_prefix := (SliceSendOp.key_prefix_ sop).
Local Abbreviation frame_iter :=
  (GetFrameAndIter sctx (SliceSendOp.hostmem_sendrecv_ sop)).
Local Abbreviation timeout_ms := (SliceRecvOp.timeout_ms_ rop).

Hypothesis slice_size_range : 1 <= slice_size <= INT64_MAX.
Hypothesis input_fits : TotalBytes input_t <= 2 ^ 62.
Hypothesis keys_accepted :
  forall p, ParseKey (phase_key key_prefix frame_iter p) = true.
Hypothesis configured_alike : matching sop rop.
Hypothesis same_instance :
  GetFrameAndIter rctx (SliceRecvOp.hostmem_sendrecv_ rop) = frame_iter.
Hypothesis keys_fresh :
  forall p, ~ In (phase_key key_prefix frame_iter p) (map fst older).

Lemma RecvTotalBytes_takes_all :
  takes older [total_bytes_message key_prefix frame_iter sctx input_t]
    (fun r => r = (false, int64_wrap (TotalBytes input_t))) timeout_ms
    (SliceRecvOp.RecvTotalBytes rop rctx frame_iter).
Proof.
  unfold SliceRecvOp.RecvTotalBytes.
  rewrite (recv_key_prefix sop rop configured_alike).
  apply (takes_bind older [] _ (fun _ => True)).
  { apply takes_ParseKey_checked, (keys_accepted TotalBytesPhase). }
  intros _ _.
  apply (takes_bind older [_] [] _ _ _ _ _
           (takes_Recv _ _ _ _ _ (keys_fresh TotalBytesPhase))).
  intros r ->. simpl. now apply takes_ret.
Qed.

Lemma RecvShape_takes :
  takes older [shape_message key_prefix frame_iter sctx input_t]
    (fun sh => sh = shape input_t) timeout_ms
    (SliceRecvOp.RecvShape rop rctx frame_iter).
Proof.
  unfold SliceRecvOp.RecvShape.
  rewrite (recv_key_prefix sop rop configured_alike).
  apply takes_keyed;
    [apply (keys_accepted ShapePhase) | apply (keys_fresh ShapePhase) |].
  unfold vec_int64. simpl. rewrite Z.eqb_refl. simpl.
  now apply takes_ret.
Qed.

Lemma RecvBasicType_takes (b : list byte) :
  buf input_t = RawBytes b -> payload_wf input_t -> slice_size < size b ->
  takes older
    (map (basic_slice_message key_prefix frame_iter sctx slice_size b)
       (range 0 (Z.to_nat (ceil_div (size b) slice_size))))
    (fun t => t = input_t) timeout_ms
    (SliceRecvOp.RecvBasicType rop rctx frame_iter (size b)
       (allocate (dtype input_t) (shape input_t))).
Proof.
  intros Hb Hwf Hlt. unfold payload_wf in Hwf. rewrite Hb in Hwf.
  destruct Hwf as [Hd Hn]. unfold NumElements in Hn.
  assert (Hfit : size b <= 2 ^ 62).
  { unfold TotalBytes in input_fits. now rewrite Hb in input_fits. }
  pose proof (size_nonneg b) as Hb0. unfold INT64_MAX in *.
  unfold SliceRecvOp.RecvBasicType.
  rewrite (recv_key_prefix sop rop configured_alike),
    (recv_slice_size sop rop configured_alike).
  rewrite recv_slice_num_of by (unfold INT64_MAX; lia).
  rewrite bind_guard_Some.
  assert (Ha : data (allocate (dtype input_t) (shape input_t))
               = Some (repeat x00 (Z.to_nat (size b)))).
  { rewrite Hn. unfold data, allocate. simpl.
    destruct (dtype input_t); try reflexivity. now elim Hd. }
  rewrite Ha, bind_guard_Some.
  set (I := fun (j : Z) (out : list byte) =>
              size out = size b
              /\ firstn (Z.to_nat (Z.min (j * slice_size) (size b))) out
                 = firstn (Z.to_nat (Z.min (j * slice_size) (size b))) b).
  rewrite <- (app_nil_r (map _ _)).
  eapply takes_bind.
  - apply (takes_for_loop_acc older _ I).
    + intros j out Hj [Ho Hp].
      rewrite recv_basic_slice by (unfold INT64_MAX; lia).
      destruct (slice_range_bounds slice_size (size b) j)
        as (_ & B1 & B2 & B3); [lia | lia | lia |].
      unfold basic_slice_message, slice_range in *. cbn [fst snd] in *.
      rewrite <- (app_nil_r [_]).
      apply takes_keyed;
        [apply (keys_accepted (DataSlice j))
        | apply (keys_fresh (DataSlice j)) |].
      change (data {| dtype := DT_INT8; shape := ?sh; buf := RawBytes ?c |})
        with (Some c).
      rewrite bind_guard_Some.
      rewrite Z.min_l in Hp by lia.
      destruct (memcpy_into out b (j * slice_size) _ Ho (proj1 B1) B2
                  ltac:(lia) Hp) as (out' & Hm & Ho' & Hp').
      rewrite Hm. apply takes_ret. split; [exact Ho'|].
      rewrite <- B3. exact Hp'.
    + split; [apply size_repeat; lia|].
      rewrite Z.mul_0_l, Z.min_l by lia. reflexivity.
  - intros out [Ho Hp]. apply takes_ret.
    pose proof (ceil_div_bounds (size b) slice_size ltac:(lia)).
    simpl in Hp.
    rewrite Z2Nat.id in Hp
      by (pose proof (ceil_div_bounds (size b) slice_size ltac:(lia)); nia).
    rewrite Z.min_r in Hp by lia.
    rewrite (firstn_whole out), (firstn_whole b) in Hp by lia.
    subst out. unfold set_buf, allocate. simpl.
    destruct (OpKernelContext.input sctx). simpl in *.
    now subst.
Qed.

Lemma RecvStringSlice_takes (elem : tstring) (index : Z)
    (pre post : list tstring) :
  size pre = index -> slice_size < size elem -> size elem <= 2 ^ 62 ->
  takes older
    (map (string_slice_message key_prefix frame_iter sctx slice_size index
            elem)
       (range 0 (Z.to_nat (ceil_div (size elem) slice_size))))
    (fun out => out = pre ++ elem :: post) timeout_ms
    (SliceRecvOp.RecvStringSlice rop rctx frame_iter index (size elem)
       (pre ++ [] :: post)).
Proof.
  intros Hi Hlt Hfit. pose proof (size_nonneg elem) as He0.
  pose proof slice_size_range as HS. unfold INT64_MAX in HS.
  unfold SliceRecvOp.RecvStringSlice.
  rewrite (recv_key_prefix sop rop configured_alike),
    (recv_slice_size sop rop configured_alike).
  rewrite recv_slice_num_of by (unfold INT64_MAX; lia).
  rewrite bind_guard_Some.
  set (J := fun (j : Z) (out : list tstring) =>
              out = pre ++ firstn (Z.to_nat (Z.min (j * slice_size)
                                               (size elem))) elem :: post).
  eapply takes_weaken.
  - apply (takes_for_loop_acc older _ J).
    + intros j out Hj ->.
      destruct (slice_range_bounds slice_size (size elem) j)
        as (_ & B1 & B2 & B3); [lia | lia | lia |].
      rewrite <- (app_nil_r [_]).
      apply takes_keyed;
        [apply (keys_accepted (DataSubSlice index j))
        | apply (keys_fresh (DataSubSlice index j)) |].
      change (scalar_tstring (scalar_string ?c)) with (Some c).
      rewrite bind_guard_Some.
      rewrite flat_get_middle, bind_guard_Some by assumption.
      rewrite flat_set_middle by assumption.
      apply takes_ret. unfold J. do 2 f_equal.
      rewrite Z.min_l by lia. unfold slice_range in *. simpl in B2, B3.
      rewrite firstn_chunk by lia. now rewrite B3.
    + unfold J. now rewrite Z.mul_0_l, Z.min_l by lia.
  - intros out ->. do 2 f_equal.
    pose proof (ceil_div_bounds (size elem) slice_size ltac:(lia)).
    rewrite Z.add_0_l, Z2Nat.id by nia.
    rewrite Z.min_r by lia. now apply firstn_whole.
Qed.

Lemma RecvString_loop_takes (all : list tstring) :
  (forall e, In e all -> size e <= 2 ^ 62) ->
  forall rest done,
    all = done ++ rest ->
    takes older
      (elements_messages key_prefix frame_iter sctx slice_size (size done)
         rest)
      (fun out => out = all) timeout_ms
      (for_loop_acc (List.length rest) (size done)
         (fun i output_flat =>
            bind (guard OutOfRange (flat_get (map size all) i))
              (fun element_size =>
                 if element_size <=? slice_size then
                   bind
                     (ParseKey_checked
                        (GetSliceRendezvousKey key_prefix
                           ("_slice_transfer_data_" ++ Str.to_string i)%string
                           frame_iter))
                     (fun _ =>
                        bind
                          (Recv
                             (GetSliceRendezvousKey key_prefix
                                ("_slice_transfer_data_"
                                   ++ Str.to_string i)%string
                                frame_iter)
                             (recv_args rctx
                                (OpKernelContext.output_alloc_attr rctx))
                             timeout_ms)
                          (fun r =>
                             let '(data_t, is_dead) := r in
                             bind (CHECK_not_dead is_dead)
                               (fun _ =>
                                  bind
                                    (guard CheckFailed
                                       (scalar_tstring data_t))
                                    (fun elem =>
                                       guard OutOfRange
                                         (flat_set output_flat i elem)))))
                 else
                   SliceRecvOp.RecvStringSlice rop rctx frame_iter i
                     element_size output_flat))
         (done ++ repeat [] (List.length rest))).
Proof.
  intros Hfit rest.
  induction rest as [|e rest IH]; intros done Hall; simpl.
  - apply takes_ret. now rewrite Hall.
  - assert (Hin : In e all) by (rewrite Hall; apply in_elt).
    apply (takes_bind older _ _
             (fun out => out = done ++ e :: repeat [] (List.length rest))).
    + rewrite Hall at 1. rewrite map_app. simpl map.
      rewrite flat_get_middle by apply size_map.
      rewrite bind_guard_Some. unfold element_messages.
      destruct (Z.leb_spec (size e) slice_size) as [Hle|Hlt].
      * rewrite <- (app_nil_r [_]).
        apply takes_keyed;
          [apply (keys_accepted (DataSlice (size done)))
          | apply (keys_fresh (DataSlice (size done))) |].
        change (scalar_tstring (scalar_string ?c)) with (Some c).
        rewrite bind_guard_Some.
        rewrite flat_set_middle by reflexivity.
        apply takes_ret. reflexivity.
      * apply RecvStringSlice_takes; [reflexivity | lia | now apply Hfit].
    + intros out ->. rewrite <- (size_snoc done e).
      replace (done ++ e :: repeat [] (List.length rest))
        with ((done ++ [e]) ++ repeat [] (List.length rest))
        by now rewrite <- app_assoc.
      apply IH. now rewrite <- app_assoc.
Qed.

Lemma RecvString_takes (elems : list tstring) :
  buf input_t = StringValues elems -> payload_wf input_t ->
  takes older
    (elements_size_message key_prefix frame_iter sctx input_t elems
       :: elements_messages key_prefix frame_iter sctx slice_size 0 elems)
    (fun t => t = input_t) timeout_ms
    (SliceRecvOp.RecvString rop rctx frame_iter (shape input_t)
       (allocate (dtype input_t) (shape input_t))).
Proof.
  intros Hb Hwf. unfold payload_wf in Hwf. rewrite Hb in Hwf.
  destruct Hwf as [Hd Hn]. unfold NumElements in Hn.
  pose proof (size_nonneg elems) as He0.
  unfold SliceRecvOp.RecvString.
  rewrite (recv_key_prefix sop rop configured_alike),
    (recv_slice_size sop rop configured_alike), Hd.
  apply takes_keyed;
    [apply (keys_accepted ElementsSizePhase)
    | apply (keys_fresh ElementsSizePhase) |].
  change (flat_int64
            {| dtype := DT_INT64; shape := ?sh; buf := Int64Values ?v |})
    with (if num_elements sh =? size v then Some v else None).
  change (flat_tstring (allocate DT_STRING ?sh))
    with (if num_elements sh
             =? size (repeat ([] : tstring) (Z.to_nat (num_elements sh)))
          then Some (repeat ([] : tstring) (Z.to_nat (num_elements sh)))
          else None).
  rewrite size_map, <- Hn, Z.eqb_refl, bind_guard_Some.
  rewrite size_repeat, Z.eqb_refl, bind_guard_Some by lia.
  replace (Z.to_nat (size elems)) with (List.length elems)
    by (unfold size; lia).
  rewrite <- (app_nil_r (elements_messages _ _ _ _ _ _)).
  apply (takes_bind older _ [] (fun out => out = elems)).
  - apply (RecvString_loop_takes elems) with (done := []); [|reflexivity].
    intros e He. apply size_le_sum_sizes in He.
    unfold TotalBytes in input_fits. rewrite Hb in input_fits.
    pose proof sizeof_tstring_nonneg. nia.
  - intros out ->. apply takes_ret. unfold set_buf, allocate. simpl.
    destruct (OpKernelContext.input sctx). simpl in *.
    now subst.
Qed.

Lemma Compute_takes :
  OpKernelContext.has_rendezvous rctx = true ->
  payload_wf input_t -> SliceSendOp.dtype_ sop = dtype input_t ->
  takes older
    (transfer_messages key_prefix frame_iter sctx slice_size input_t)
    (fun output => output = Some input_t) timeout_ms
    (SliceRecvOp.Compute rop rctx).
Proof.
  intros Hr Hwf Ht. unfold SliceRecvOp.Compute. rewrite Hr. simpl negb.
  cbv iota. rewrite same_instance, (recv_slice_size sop rop configured_alike).
  unfold transfer_messages.
  pose proof (TotalBytes_nonneg input_t) as Hn.
  pose proof slice_size_range as HS. unfold INT64_MAX in HS.
  apply (takes_bind older [_] _ _ _ _ _ _ RecvTotalBytes_takes_all).
  intros r ->.
  rewrite int64_wrap_small by (unfold INT64_MAX; lia).
  destruct (Z.leb_spec (TotalBytes input_t) slice_size) as [Hle|Hlt].
  - rewrite (recv_key_prefix sop rop configured_alike).
    apply takes_keyed;
      [apply (keys_accepted TransferData)
      | apply (keys_fresh TransferData) |].
    now apply takes_ret.
  - apply (takes_bind older [_] _ _ _ _ _ _ RecvShape_takes).
    intros sh ->.
    pose proof (payload_branch sop sctx Hwf Ht) as Hbr.
    replace (SliceRecvOp.dtype_ rop) with (dtype input_t)
      by (rewrite <- Ht; apply configured_alike).
    rewrite Ht in Hbr.
    destruct (buf input_t) as [b|v|s] eqn:Hb; [|contradiction|];
      rewrite Hbr.
    + rewrite <- (app_nil_r (map _ _)).
      eapply takes_bind.
      * replace (TotalBytes input_t) with (size b)
          by (unfold TotalBytes; now rewrite Hb).
        apply RecvBasicType_takes; [exact Hb | exact Hwf |].
        unfold TotalBytes in Hlt. now rewrite Hb in Hlt.
      * intros t ->. now apply takes_ret.
    + rewrite <- (app_nil_r (_ :: _)).
      eapply takes_bind.
      * now apply RecvString_takes.
      * intros t ->. now apply takes_ret.
Qed.

End WholeTransfer.

(** X13: the receiver returns OK only when the whole transfer is there.
    When the table holds, behind entries under other keys, only a proper
    initial part of the messages the sender deposits for a payload, the
    receiver of that transfer takes exactly this part and then waits for the
    next message: its run ends in [DEADLINE_EXCEEDED] when its timeout is
    positive and does not return otherwise, in a world with no cancellation
    and no abort. The statement is about the status of the run and the
    table; it is silent on output 0, which the source has allocated and
    partly filled by then when the run stops in a data phase. *)
Theorem receiver_needs_the_whole_transfer (fw : Framework)
    (sop : SliceSendOp.t) (rop : SliceRecvOp.t)
    (sctx rctx : OpKernelContext.t) (w : World)
    (older sent missing : list (string * Message)) :
  let input_t := OpKernelContext.input sctx in
  let key_prefix := SliceSendOp.key_prefix_ sop in
  let frame_iter :=
    GetFrameAndIter sctx (SliceSendOp.hostmem_sendrecv_ sop) in
  1 <= SliceSendOp.slice_size_ sop <= INT64_MAX ->
  payload_wf input_t ->
  TotalBytes input_t <= 2 ^ 62 ->
  SliceSendOp.dtype_ sop = dtype input_t ->
  matching sop rop ->
  GetFrameAndIter rctx (SliceRecvOp.hostmem_sendrecv_ rop) = frame_iter ->
  OpKernelContext.has_rendezvous rctx = true ->
  (forall p, ParseKey (phase_key key_prefix frame_iter p) = true) ->
  transfer_messages key_prefix frame_iter sctx (SliceSendOp.slice_size_ sop)
    input_t = sent ++ missing ->
  missing <> [] ->
  aborted (rendezvous w) = None ->
  table (rendezvous w) = older ++ sent ->
  (forall p, ~ In (phase_key key_prefix frame_iter p) (map fst older)) ->
  exists w',
    SliceRecvOp.Compute rop rctx w
    = (if 0 <? SliceRecvOp.timeout_ms_ rop
       then Failed DEADLINE_EXCEEDED else Halt Blocked, w')
    /\ table (rendezvous w') = older.
Proof.
  intros input_t key_prefix frame_iter HS Hwf Hfit Ht Hm Hfi Hr Hk Hsplit
    Hmissing Ha Htable Hfresh.
  destruct (Compute_takes sop sctx rop rctx older HS Hfit Hk Hm Hfi Hfresh
              Hr Hwf Ht) as [_ Hstarves].
  destruct (Hstarves sent missing Hsplit Hmissing w) as (w' & E & _ & T).
  { split; [exact Ha|]. now rewrite app_nil_r. }
  exists w'. split; [exact E|]. now rewrite app_nil_r in T.
Qed.

Lemma receiver_needs_the_whole_transfer_witness :
  let sop := SliceSendOp.construct (example_send_attrs 3 DT_UINT8) in
  let rop := SliceRecvOp.construct (example_recv_attrs 3 DT_UINT8) in
  let b := [x01; x02; x03; x04] in
  let input_t := bytes_tensor b in
  let ctx := example_ctx input_t false in
  let key_prefix := SliceSendOp.key_prefix_ sop in
  let frame_iter := {| frame_id := 1; iter_id := 0 |} in
  let sent :=
    [@total_bytes_message example_framework key_prefix frame_iter ctx input_t;
     shape_message key_prefix frame_iter ctx input_t;
     basic_slice_message key_prefix frame_iter ctx 3 b 0] in
  let missing := [basic_slice_message key_prefix frame_iter ctx 3 b 1] in
  let w := set_table sent fresh_world in
  (1 <= SliceSendOp.slice_size_ sop <= INT64_MAX
   /\ payload_wf input_t
   /\ @TotalBytes example_framework input_t <= 2 ^ 62
   /\ SliceSendOp.dtype_ sop = dtype input_t
   /\ matching sop rop
   /\ OpKernelContext.has_rendezvous ctx = true
   /\ @transfer_messages example_framework key_prefix frame_iter ctx
        (SliceSendOp.slice_size_ sop) input_t = sent ++ missing
   /\ missing <> []
   /\ aborted (rendezvous w) = None
   /\ table (rendezvous w) = [] ++ sent)
  /\ exists w',
       @SliceRecvOp.Compute example_framework rop ctx w
       = (Failed DEADLINE_EXCEEDED, w')
       /\ table (rendezvous w') = [].
Proof.
  intros sop rop b input_t ctx key_prefix frame_iter sent missing w.
  assert (H : 1 <= SliceSendOp.slice_size_ sop <= INT64_MAX
              /\ payload_wf input_t
              /\ @TotalBytes example_framework input_t <= 2 ^ 62
              /\ SliceSendOp.dtype_ sop = dtype input_t
              /\ matching sop rop
              /\ OpKernelContext.has_rendezvous ctx = true
              /\ @transfer_messages example_framework key_prefix frame_iter
                   ctx (SliceSendOp.slice_size_ sop) input_t
                 = sent ++ missing
              /\ missing <> []
              /\ aborted (rendezvous w) = None
              /\ table (rendezvous w) = [] ++ sent)
    by (repeat split; vm_compute; solve [reflexivity | discriminate]).
  split; [exact H|].
  destruct H as (H1 & H2 & H3 & H4 & H5 & H6 & H7 & H8 & H9 & H10).
  apply (receiver_needs_the_whole_transfer example_framework sop rop ctx ctx
           w [] sent missing H1 H2 H3 H4 H5 eq_refl H6
           (example_keys_accepted 3 DT_UINT8 frame_iter) H7 H8 H9 H10).
  intros p [].
Defined.

(** ** The direct path from end to end *)

Lemma Compute_sends_direct `{Framework} (op : SliceSendOp.t)
    (ctx : OpKernelContext.t) :
  let input_t := OpKernelContext.input ctx in
  let frame_iter := GetFrameAndIter ctx (SliceSendOp.hostmem_sendrecv_ op) in
  let key_prefix := SliceSendOp.key_prefix_ op in
  OpKernelContext.has_rendezvous ctx = true ->
  OpKernelContext.is_input_dead ctx = false ->
  ParseKey (phase_key key_prefix frame_iter TotalBytesPhase) = true ->
  ParseKey (phase_key key_prefix frame_iter TransferData) = true ->
  TotalBytes input_t <= size_t_wrap (SliceSendOp.slice_size_ op) ->
  sends
    [total_bytes_message key_prefix frame_iter ctx input_t;
     direct_message key_prefix frame_iter ctx input_t]
    (SliceSendOp.Compute op ctx).
Proof.
  intros input_t frame_iter key_prefix Hr Hlive Hk1 Hk2 Hle.
  unfold SliceSendOp.Compute. rewrite Hr. simpl negb. cbv iota.
  apply (sends_bind [_] [_]).
  - unfold SliceSendOp.SendTotalBytes. rewrite Hlive.
    now apply sends_keyed.
  - rewrite Hlive.
    destruct (Z.leb_spec (TotalBytes (OpKernelContext.input ctx))
                (size_t_wrap (SliceSendOp.slice_size_ op)));
      [|unfold input_t in Hle; lia].
    now apply sends_keyed.
Qed.

Lemma Compute_receives_direct `{Framework} (op : SliceRecvOp.t)
    (ctx : OpKernelContext.t) (older : list (string * Message))
    (args1 args2 : Args) (val1 val2 : Tensor) (n : Z) :
  let frame_iter := GetFrameAndIter ctx (SliceRecvOp.hostmem_sendrecv_ op) in
  let key_prefix := SliceRecvOp.key_prefix_ op in
  OpKernelContext.has_rendezvous ctx = true ->
  ParseKey (phase_key key_prefix frame_iter TotalBytesPhase) = true ->
  ParseKey (phase_key key_prefix frame_iter TransferData) = true ->
  ~ In (phase_key key_prefix frame_iter TotalBytesPhase) (map fst older) ->
  ~ In (phase_key key_prefix frame_iter TransferData) (map fst older) ->
  scalar_int64 val1 = Some n ->
  n <= SliceRecvOp.slice_size_ op ->
  receives older
    [(phase_key key_prefix frame_iter TotalBytesPhase,
      {| msg_args := args1; msg_val := val1; msg_is_dead := false |});
     (phase_key key_prefix frame_iter TransferData,
      {| msg_args := args2; msg_val := val2; msg_is_dead := false |})]
    (fun output => output = Some val2)
    (SliceRecvOp.Compute op ctx).
Proof.
  intros frame_iter key_prefix Hr Hk1 Hk2 Hf1 Hf2 Hn Hle.
  unfold SliceRecvOp.Compute. rewrite Hr. simpl negb. cbv iota.
  apply (receives_bind older [_] [_] (fun r => r = (false, n))).
  - now apply RecvTotalBytes_gets.
  - intros r ->. cbv beta iota.
    destruct (Z.leb_spec n (SliceRecvOp.slice_size_ op)); [|lia].
    rewrite <- (app_nil_r [_]).
    apply receives_keyed; [exact Hk2 | exact Hf2 |].
    now apply receives_ret.
Qed.

(** X14: on the direct path the tensor goes through as it is: whenever the
    total size of a live input is at most the slice size of the sender and
    at most that of the receiver, the sender followed by the receiver of the
    same transfer instance gives back the input tensor and leaves the table
    as it was. Nothing else is asked: the tensor may be of any type and
    layout, its type need not be the type either kernel was built for, the
    two slice sizes may differ, and a slice size of zero does for a tensor
    of zero bytes. *)
Theorem direct_path_round_trip (fw : Framework) (sop : SliceSendOp.t)
    (rop : SliceRecvOp.t) (sctx rctx : OpKernelContext.t) (w : World) :
  let input_t := OpKernelContext.input sctx in
  let key :=
    phase_key (SliceSendOp.key_prefix_ sop)
      (GetFrameAndIter sctx (SliceSendOp.hostmem_sendrecv_ sop)) in
  TotalBytes input_t <= SliceSendOp.slice_size_ sop <= INT64_MAX ->
  TotalBytes input_t <= SliceRecvOp.slice_size_ rop ->
  OpKernelContext.is_input_dead sctx = false ->
  SliceRecvOp.key_prefix_ rop = SliceSendOp.key_prefix_ sop ->
  GetFrameAndIter rctx (SliceRecvOp.hostmem_sendrecv_ rop)
  = GetFrameAndIter sctx (SliceSendOp.hostmem_sendrecv_ sop) ->
  OpKernelContext.has_rendezvous sctx = true ->
  OpKernelContext.has_rendezvous rctx = true ->
  aborted (rendezvous w) = None ->
  ParseKey (key TotalBytesPhase) = true ->
  ParseKey (key TransferData) = true ->
  ~ In (key TotalBytesPhase) (map fst (table (rendezvous w))) ->
  ~ In (key TransferData) (map fst (table (rendezvous w))) ->
  round_trips sop rop sctx rctx w.
Proof.
  intros input_t key [Hs Hmax] Hrs Hlive Hp Hfi Hr1 Hr2 Ha Hk1 Hk2 Hf1 Hf2.
  pose proof (TotalBytes_nonneg input_t) as Hn.
  destruct (Compute_sends_direct sop sctx Hr1 Hlive Hk1 Hk2
              ltac:(rewrite size_t_wrap_small by lia; exact Hs) w Ha)
    as (w1 & E1 & A1 & T1).
  destruct (Compute_receives_direct rop rctx (table (rendezvous w))
              (send_args sctx AllocatorAttributes)
              (send_args sctx (OpKernelContext.input_alloc_attr sctx))
              (total_bytes_tensor input_t) input_t (TotalBytes input_t) Hr2
              ltac:(rewrite Hp, Hfi; exact Hk1)
              ltac:(rewrite Hp, Hfi; exact Hk2)
              ltac:(rewrite Hp, Hfi; exact Hf1)
              ltac:(rewrite Hp, Hfi; exact Hf2)
              ltac:(unfold total_bytes_tensor, scalar_int64; simpl;
                    rewrite int64_wrap_small by (unfold INT64_MAX in *; lia);
                    reflexivity)
              Hrs w1 [])
    as (o & w2 & E2 & [A2 T2] & ->).
  { split; [exact A1|]. rewrite T1, Hp, Hfi. reflexivity. }
  exists w1, w2. split; [exact E1|]. split; [exact E2|].
  now rewrite T2, app_nil_r.
Qed.

Lemma direct_path_round_trip_witness :
  let sop := SliceSendOp.construct (example_send_attrs 0 DT_FLOAT) in
  let rop := SliceRecvOp.construct (example_recv_attrs 8 DT_STRING) in
  let input_t :=
    {| dtype := DT_INT64; shape := [0]; buf := Int64Values [] |} in
  let ctx := example_ctx input_t false in
  (@TotalBytes example_framework input_t <= SliceSendOp.slice_size_ sop
   <= INT64_MAX
   /\ @TotalBytes example_framework input_t <= SliceRecvOp.slice_size_ rop
   /\ OpKernelContext.is_input_dead ctx = false
   /\ SliceRecvOp.key_prefix_ rop = SliceSendOp.key_prefix_ sop
   /\ OpKernelContext.has_rendezvous ctx = true
   /\ aborted (rendezvous fresh_world) = None)
  /\ @round_trips example_framework sop rop ctx ctx fresh_world.
Proof.
  intros sop rop input_t ctx.
  assert (H : @TotalBytes example_framework input_t
              <= SliceSendOp.slice_size_ sop <= INT64_MAX
              /\ @TotalBytes example_framework input_t
                 <= SliceRecvOp.slice_size_ rop
              /\ OpKernelContext.is_input_dead ctx = false
              /\ SliceRecvOp.key_prefix_ rop = SliceSendOp.key_prefix_ sop
              /\ OpKernelContext.has_rendezvous ctx = true
              /\ aborted (rendezvous fresh_world) = None)
    by (repeat split; vm_compute; solve [reflexivity | discriminate]).
  split; [exact H|].
  destruct H as (H1 & H2 & H3 & H4 & H5 & H6).
  apply (direct_path_round_trip example_framework sop rop ctx ctx fresh_world
           H1 H2 H3 H4 eq_refl H5 H5 H6).
  - apply example_keys_accepted.
  - apply example_keys_accepted.
  - intros [].
  - intros [].
Defined.

(** ** A negative slice size *)

Lemma Compute_waits_for_shape `{Framework} (op : SliceRecvOp.t)
    (ctx : OpKernelContext.t) (older left : list (string * Message))
    (args : Args) (val : Tensor) (n : Z) :
  let frame_iter := GetFrameAndIter ctx (SliceRecvOp.hostmem_sendrecv_ op) in
  let key := phase_key (SliceRecvOp.key_prefix_ op) frame_iter in
  OpKernelContext.has_rendezvous ctx = true ->
  ParseKey (key TotalBytesPhase) = true ->
  ParseKey (key ShapePhase) = true ->
  ~ In (key TotalBytesPhase) (map fst older) ->
  ~ In (key ShapePhase) (map fst older) ->
  ~ In (key ShapePhase) (map fst left) ->
  scalar_int64 val = Some n ->
  SliceRecvOp.slice_size_ op < n ->
  starves older
    [(key TotalBytesPhase,
      {| msg_args := args; msg_val := val; msg_is_dead := false |})]
    left (SliceRecvOp.timeout_ms_ op) (SliceRecvOp.Compute op ctx).
Proof.
  intros frame_iter key Hr Hk1 Hk2 Hf1 Hf2 Hl Hn Hlt.
  unfold SliceRecvOp.Compute. rewrite Hr. simpl negb. cbv iota.
  apply (starves_bind_later older [_] [] left _ (fun r => r = (false, n))).
  - now apply RecvTotalBytes_gets.
  - intros r ->. cbv beta iota.
    destruct (Z.leb_spec n (SliceRecvOp.slice_size_ op)); [lia|].
    apply starves_bind_now. unfold SliceRecvOp.RecvShape.
    apply starves_keyed; [exact Hk2|].
    apply starves_bind_now. now apply starves_Recv.
Qed.

(** X15: a negative slice size is not rejected and makes every live transfer
    fail. The sender compares the total size with the slice size as unsigned
    numbers, so with [slice_size < 0] it sends every live input whole under
    the ["_transfer_data"] key, whatever its size; the receiver compares them
    as signed numbers, so with [slice_size < 0] it goes for the [Shape]
    envelope, which was never sent: it ends in [DEADLINE_EXCEEDED] when its
    timeout is positive and does not return otherwise, and the tensor stays
    in the table. *)
Theorem negative_slice_size_never_delivers (fw : Framework)
    (sop : SliceSendOp.t) (rop : SliceRecvOp.t)
    (sctx rctx : OpKernelContext.t) (w : World) :
  let input_t := OpKernelContext.input sctx in
  let key_prefix := SliceSendOp.key_prefix_ sop in
  let frame_iter :=
    GetFrameAndIter sctx (SliceSendOp.hostmem_sendrecv_ sop) in
  let key := phase_key key_prefix frame_iter in
  - 2 ^ 63 <= SliceSendOp.slice_size_ sop < 0 ->
  SliceRecvOp.slice_size_ rop < 0 ->
  TotalBytes input_t <= INT64_MAX ->
  OpKernelContext.is_input_dead sctx = false ->
  SliceRecvOp.key_prefix_ rop = key_prefix ->
  GetFrameAndIter rctx (SliceRecvOp.hostmem_sendrecv_ rop) = frame_iter ->
  OpKernelContext.has_rendezvous sctx = true ->
  OpKernelContext.has_rendezvous rctx = true ->
  aborted (rendezvous w) = None ->
  (forall p, ParseKey (key p) = true) ->
  (forall p, ~ In (key p) (map fst (table (rendezvous w)))) ->
  exists w1 w2,
    SliceSendOp.Compute sop sctx w = (Done tt, w1)
    /\ table (rendezvous w1)
       = table (rendezvous w)
           ++ [total_bytes_message key_prefix frame_iter sctx input_t;
               direct_message key_prefix frame_iter sctx input_t]
    /\ SliceRecvOp.Compute rop rctx w1
       = (if 0 <? SliceRecvOp.timeout_ms_ rop
          then Failed DEADLINE_EXCEEDED else Halt Blocked, w2)
    /\ table (rendezvous w2)
       = table (rendezvous w)
           ++ [direct_message key_prefix frame_iter sctx input_t].
Proof.
  intros input_t key_prefix frame_iter key HS HR Hfit Hlive Hp Hfi Hrs Hrr Ha
    Hk Hfresh.
  pose proof (TotalBytes_nonneg input_t) as Hn.
  assert (Hle : TotalBytes input_t
                <= size_t_wrap (SliceSendOp.slice_size_ sop)).
  { unfold size_t_wrap, INT64_MAX in *.
    rewrite <- (Z.mod_add _ 1) by lia. rewrite Z.mod_small; lia. }
  destruct (Compute_sends_direct sop sctx Hrs Hlive (Hk TotalBytesPhase)
              (Hk TransferData) Hle w Ha) as (w1 & E1 & A1 & T1).
  destruct (Compute_waits_for_shape rop rctx (table (rendezvous w))
              [direct_message key_prefix frame_iter sctx input_t]
              (send_args sctx AllocatorAttributes)
              (total_bytes_tensor input_t) (TotalBytes input_t) Hrr
              ltac:(rewrite Hp, Hfi; apply Hk)
              ltac:(rewrite Hp, Hfi; apply Hk)
              ltac:(rewrite Hp, Hfi; apply Hfresh)
              ltac:(rewrite Hp, Hfi; apply Hfresh)
              ltac:(rewrite Hp, Hfi; simpl; intros [E|[]];
                    apply KeyFacts.phase_key_inj in E as (_ & E & _);
                    discriminate E)
              ltac:(unfold total_bytes_tensor, scalar_int64; simpl;
                    rewrite int64_wrap_small by lia; reflexivity)
              ltac:(lia) w1)
    as (w2 & E2 & _ & T2).
  { split; [exact A1|]. rewrite T1, Hp, Hfi. reflexivity. }
  exists w1, w2. split; [exact E1|]. split; [exact T1|].
  split; [exact E2 | exact T2].
Qed.

Lemma negative_slice_size_never_delivers_witness :
  let sop := SliceSendOp.construct (example_send_attrs (-1) DT_UINT8) in
  let rop := SliceRecvOp.construct (example_recv_attrs (-1) DT_UINT8) in
  let input_t := bytes_tensor [x01; x02; x03; x04] in
  let ctx := example_ctx input_t false in
  let key_prefix := SliceSendOp.key_prefix_ sop in
  let frame_iter := {| frame_id := 1; iter_id := 0 |} in
  (- 2 ^ 63 <= SliceSendOp.slice_size_ sop < 0
   /\ SliceRecvOp.slice_size_ rop < 0
   /\ @TotalBytes example_framework input_t <= INT64_MAX
   /\ OpKernelContext.is_input_dead ctx = false
   /\ SliceRecvOp.key_prefix_ rop = key_prefix
   /\ OpKernelContext.has_rendezvous ctx = true
   /\ aborted (rendezvous fresh_world) = None)
  /\ exists w1 w2,
       @SliceSendOp.Compute example_framework sop ctx fresh_world
       = (Done tt, w1)
       /\ table (rendezvous w1)
          = [@total_bytes_message example_framework key_prefix frame_iter ctx
               input_t;
             direct_message key_prefix frame_iter ctx input_t]
       /\ @SliceRecvOp.Compute example_framework rop ctx w1
          = (Failed DEADLINE_EXCEEDED, w2)
       /\ table (rendezvous w2)
          = [direct_message key_prefix frame_iter ctx input_t].
Proof.
  intros sop rop input_t ctx key_prefix frame_iter.
  assert (H : - 2 ^ 63 <= SliceSendOp.slice_size_ sop < 0
              /\ SliceRecvOp.slice_size_ rop < 0
              /\ @TotalBytes example_framework input_t <= INT64_MAX
              /\ OpKernelContext.is_input_dead ctx = false
              /\ SliceRecvOp.key_prefix_ rop = key_prefix
              /\ OpKernelContext.has_rendezvous ctx = true
              /\ aborted (rendezvous fresh_world) = None)
    by (repeat split; vm_compute; solve [reflexivity | discriminate]).
  split; [exact H|].
  destruct H as (H1 & H2 & H3 & H4 & H5 & H6 & H7).
  apply (negative_slice_size_never_delivers example_framework sop rop ctx ctx
           fresh_world H1 H2 H3 H4 H5 eq_refl H6 H6 H7).
  - intros p. apply example_keys_accepted.
  - intros p [].
Defined.

(** ** One transfer after another *)

(** X16: transfers queued under the same keys are delivered in order. When
    the sender runs twice for the same transfer instance, on two payloads,
    before the receiver runs, the first run of the receiver returns the first
    payload, the second run the second payload, and the table is then as it
    was before the first send: the messages of the two transfers wait in the
    queues of their keys in the order sent and are never mixed up, also when
    one payload went the direct way and the other in slices. *)
Theorem back_to_back_transfers_in_order (fw : Framework)
    (sop : SliceSendOp.t) (rop : SliceRecvOp.t)
    (sctx1 sctx2 rctx : OpKernelContext.t) (w : World) :
  let first := OpKernelContext.input sctx1 in
  let second := OpKernelContext.input sctx2 in
  let frame_iter :=
    GetFrameAndIter sctx1 (SliceSendOp.hostmem_sendrecv_ sop) in
  let key := phase_key (SliceSendOp.key_prefix_ sop) frame_iter in
  1 <= SliceSendOp.slice_size_ sop <= INT64_MAX ->
  payload_wf first /\ payload_wf second ->
  TotalBytes first <= 2 ^ 62 /\ TotalBytes second <= 2 ^ 62 ->
  SliceSendOp.dtype_ sop = dtype first /\ dtype second = dtype first ->
  OpKernelContext.is_input_dead sctx1 = false
  /\ OpKernelContext.is_input_dead sctx2 = false ->
  matching sop rop ->
  GetFrameAndIter sctx2 (SliceSendOp.hostmem_sendrecv_ sop) = frame_iter
  /\ GetFrameAndIter rctx (SliceRecvOp.hostmem_sendrecv_ rop) = frame_iter ->
  OpKernelContext.has_rendezvous sctx1 = true
  /\ OpKernelContext.has_rendezvous sctx2 = true
  /\ OpKernelContext.has_rendezvous rctx = true ->
  aborted (rendezvous w) = None ->
  (forall p, ParseKey (key p) = true) ->
  (forall p, ~ In (key p) (map fst (table (rendezvous w)))) ->
  exists w1 w2 w3 w4,
    SliceSendOp.Compute sop sctx1 w = (Done tt, w1)
    /\ SliceSendOp.Compute sop sctx2 w1 = (Done tt, w2)
    /\ SliceRecvOp.Compute rop rctx w2 = (Done (Some first), w3)
    /\ SliceRecvOp.Compute rop rctx w3 = (Done (Some second), w4)
    /\ table (rendezvous w4) = table (rendezvous w).
Proof.
  intros first second frame_iter key HS [Hwf1 Hwf2] [Hfit1 Hfit2] [Ht1 Ht2]
    [Hl1 Hl2] Hm [Hfi2 Hfir] (Hr1 & Hr2 & Hrr) Ha Hk Hfresh.
  assert (Ht2' : SliceSendOp.dtype_ sop = dtype second) by congruence.
  assert (Hk2 : forall p,
             ParseKey
               (phase_key (SliceSendOp.key_prefix_ sop)
                  (GetFrameAndIter sctx2 (SliceSendOp.hostmem_sendrecv_ sop))
                  p) = true)
    by (intros p; rewrite Hfi2; apply Hk).
  destruct (Compute_sends sop sctx1 Hl1 HS Hfit1 Hk Hr1 Hwf1 Ht1 w Ha)
    as (w1 & E1 & A1 & T1).
  destruct (Compute_sends sop sctx2 Hl2 HS Hfit2 Hk2 Hr2 Hwf2 Ht2' w1 A1)
    as (w2 & E2 & A2 & T2).
  rewrite T1, <- app_assoc in T2.
  destruct (Compute_receives sop sctx1 HS Hfit1 Hk rop rctx
              (table (rendezvous w)) Hm Hfir Hfresh Hrr Hwf1 Ht1 w2 _
              (conj A2 T2))
    as (o3 & w3 & E3 & [A3 T3] & ->).
  destruct (Compute_receives sop sctx2 HS Hfit2 Hk2 rop rctx
              (table (rendezvous w)) Hm
              ltac:(rewrite Hfi2; exact Hfir)
              ltac:(intros p; rewrite Hfi2; apply Hfresh)
              Hrr Hwf2 Ht2' w3 [])
    as (o4 & w4 & E4 & [A4 T4] & ->).
  { split; [exact A3|]. now rewrite app_nil_r. }
  exists w1, w2, w3, w4.
  repeat (split; [assumption|]). now rewrite T4, app_nil_r.
Qed.

Lemma back_to_back_transfers_in_order_witness :
  let sop := SliceSendOp.construct (example_send_attrs 3 DT_UINT8) in
  let rop := SliceRecvOp.construct (example_recv_attrs 3 DT_UINT8) in
  let first := bytes_tensor [x01; x02] in
  let second := bytes_tensor [x03; x04; x05; x06; x07] in
  let sctx1 := example_ctx first false in
  let sctx2 := example_ctx second false in
  (1 <= SliceSendOp.slice_size_ sop <= INT64_MAX
   /\ (payload_wf first /\ payload_wf second)
   /\ (@TotalBytes example_framework first <= 2 ^ 62
       /\ @TotalBytes example_framework second <= 2 ^ 62)
   /\ (SliceSendOp.dtype_ sop = dtype first /\ dtype second = dtype first)
   /\ (OpKernelContext.is_input_dead sctx1 = false
       /\ OpKernelContext.is_input_dead sctx2 = false)
   /\ matching sop rop
   /\ (OpKernelContext.has_rendezvous sctx1 = true
       /\ OpKernelContext.has_rendezvous sctx2 = true
       /\ OpKernelContext.has_rendezvous sctx1 = true)
   /\ aborted (rendezvous fresh_world) = None)
  /\ exists w1 w2 w3 w4,
       @SliceSendOp.Compute example_framework sop sctx1 fresh_world
       = (Done tt, w1)
       /\ @SliceSendOp.Compute example_framework sop sctx2 w1 = (Done tt, w2)
       /\ @SliceRecvOp.Compute example_framework rop sctx1 w2
          = (Done (Some first), w3)
       /\ @SliceRecvOp.Compute example_framework rop sctx1 w3
          = (Done (Some second), w4)
       /\ table (rendezvous w4) = table (rendezvous fresh_world).
Proof.
  intros sop rop first second sctx1 sctx2.
  assert (H : 1 <= SliceSendOp.slice_size_ sop <= INT64_MAX
              /\ (payload_wf first /\ payload_wf second)
              /\ (@TotalBytes example_framework first <= 2 ^ 62
                  /\ @TotalBytes example_framework second <= 2 ^ 62)
              /\ (SliceSendOp.dtype_ sop = dtype first
                  /\ dtype second = dtype first)
              /\ (OpKernelContext.is_input_dead sctx1 = false
                  /\ OpKernelContext.is_input_dead sctx2 = false)
              /\ matching sop rop
              /\ (OpKernelContext.has_rendezvous sctx1 = true
                  /\ OpKernelContext.has_rendezvous sctx2 = true
                  /\ OpKernelContext.has_rendezvous sctx1 = true)
              /\ aborted (rendezvous fresh_world) = None)
    by (repeat split; vm_compute; solve [reflexivity | discriminate]).
  split; [exact H|].
  destruct H as (H1 & H2 & H3 & H4 & H5 & H6 & H7 & H8).
  apply (back_to_back_transfers_in_order example_framework sop rop sctx1
           sctx2 sctx1 fresh_world H1 H2 H3 H4 H5 H6 (conj eq_refl eq_refl)
           H7 H8).
  - intros p. apply example_keys_accepted.
  - intros p [].
Defined.

(** ** What travels with a message *)

Ltac sent_with_args_rest :=
  eexists;
  split; [reflexivity|]; split; [reflexivity|];
  first [reflexivity | symmetry; assumption].

Ltac sent_with_args_side :=
  solve [ exact I
        | discriminate
        | unfold sent_with_args;
          first [ exists TransferData; sent_with_args_rest
                | exists TotalBytesPhase; sent_with_args_rest
                | exists ShapePhase; sent_with_args_rest
                | exists ElementsSizePhase; sent_with_args_rest
                | eexists (DataSlice _); sent_with_args_rest
                | eexists (DataSubSlice _ _); sent_with_args_rest ] ].

Lemma send_args_of_phases `{Framework} (op : SliceSendOp.t)
    (ctx : OpKernelContext.t) :
  respects
    (sent_with_args (SliceSendOp.key_prefix_ op)
       (GetFrameAndIter ctx (SliceSendOp.hostmem_sendrecv_ op)) ctx)
    (fun _ => True) (fun _ => False)
    (SliceSendOp.Compute op ctx).
Proof. respects_kernel sent_with_args_side. Qed.

(** X17: what travels with each message of the sender, in every run: the
    device context of the op, no cancellation manager, the dead flag of the
    input, and the allocator attributes of the input for the messages that
    carry data (direct transfer, slices and pieces) but the default
    allocator attributes for the [TotalBytes], [Shape] and element-sizes
    envelopes. *)
Theorem sender_args_by_phase (fw : Framework) (op : SliceSendOp.t)
    (ctx : OpKernelContext.t) (w : World) :
  exists evs,
    trace (snd (SliceSendOp.Compute op ctx w)) = trace w ++ evs
    /\ Forall
         (fun e =>
            exists p m,
              e = SendEvent
                    (phase_key (SliceSendOp.key_prefix_ op)
                       (GetFrameAndIter ctx
                          (SliceSendOp.hostmem_sendrecv_ op)) p) m
              /\ msg_args m
                 = {| device_context := OpKernelContext.op_device_context ctx;
                      alloc_attrs :=
                        match p with
                        | TotalBytesPhase | ShapePhase | ElementsSizePhase =>
                            AllocatorAttributes
                        | _ => OpKernelContext.input_alloc_attr ctx
                        end;
                      cancellation_manager := None |}
              /\ msg_is_dead m = OpKernelContext.is_input_dead ctx) evs.
Proof.
  destruct (respects_all _ _ _ (send_args_of_phases op ctx) w)
    as (evs & E & Hall).
  exists evs. split; [exact E|].
  eapply Forall_impl; [|exact Hall].
  intros e (p & m & -> & Hargs & Hdead). exists p, m.
  split; [reflexivity|]. split; [|exact Hdead].
  rewrite Hargs. now destruct p.
Qed.

(** ** The slicing rule on the runs *)

(** C2, as amended: for a value of [N] bytes sliced with slice size [S],
    [1 <= S < N], sender and receiver both go through exactly [ceil(N/S)]
    slices; slice [i] starts at offset [i * S] and has length [S], unless
    [i * S > N - S], which only the final slice can satisfy and which gives
    it the length [N - i * S]. This is so of the two loops, of the run of
    [SliceSendOp], which deposits after the [TotalBytes] and [Shape]
    envelopes one [DT_INT8] tensor for each [i < ceil(N/S)], under the key of
    slice [i] and holding the bytes of the input from offset [i * S] on in
    that length, and of the run of [SliceRecvOp], which takes exactly these
    messages and returns the tensor whose bytes are those of the slices, each
    at its offset. For [N = 10], [S = 3] the lengths are [3; 3; 3; 1]. *)
Theorem slice_boundary_law :
  (forall N S : Z,
      1 <= S -> S < N -> N + S <= INT64_MAX ->
      let n := ceil_div N S in
      SliceSendOp.basic_slice_num N S = Some n
      /\ SliceRecvOp.slice_num_of N S = Some n
      /\ (forall i, 0 <= i < n ->
            SliceSendOp.basic_slice N S i
            = (i * S, if N - S <? i * S then N - i * S else S)
            /\ SliceRecvOp.basic_slice N S i
               = SliceSendOp.basic_slice N S i
            /\ (i < n - 1 -> snd (SliceSendOp.basic_slice N S i) = S)
            /\ (N - S < i * S -> i = n - 1))
      /\ snd (SliceSendOp.basic_slice N S (n - 1)) = N - (n - 1) * S)
  /\ (forall (fw : Framework) (op : SliceSendOp.t) (ctx : OpKernelContext.t)
             (w : World) (b : list byte),
        let input_t := OpKernelContext.input ctx in
        let N := size b in
        let S := SliceSendOp.slice_size_ op in
        let key_prefix := SliceSendOp.key_prefix_ op in
        let frame_iter :=
          GetFrameAndIter ctx (SliceSendOp.hostmem_sendrecv_ op) in
        let length_of := fun i => if N - S <? i * S then N - i * S else S in
        let slice := fun i =>
          (phase_key key_prefix frame_iter (DataSlice i),
           {| msg_args :=
                send_args ctx (OpKernelContext.input_alloc_attr ctx);
              msg_val :=
                {| dtype := DT_INT8; shape := [length_of i];
                   buf := RawBytes
                            (firstn (Z.to_nat (length_of i))
                               (skipn (Z.to_nat (i * S)) b)) |};
              msg_is_dead := false |}) in
        buf input_t = RawBytes b ->
        payload_wf input_t ->
        SliceSendOp.dtype_ op = dtype input_t ->
        1 <= S -> S < N -> N <= 2 ^ 62 ->
        OpKernelContext.is_input_dead ctx = false ->
        OpKernelContext.has_rendezvous ctx = true ->
        aborted (rendezvous w) = None ->
        (forall p, ParseKey (phase_key key_prefix frame_iter p) = true) ->
        exists w1,
          SliceSendOp.Compute op ctx w = (Done tt, w1)
          /\ table (rendezvous w1)
             = table (rendezvous w)
                 ++ total_bytes_message key_prefix frame_iter ctx input_t
                 :: shape_message key_prefix frame_iter ctx input_t
                 :: map slice (range 0 (Z.to_nat (ceil_div N S))))
  /\ (forall (fw : Framework) (sop : SliceSendOp.t) (rop : SliceRecvOp.t)
             (sctx rctx : OpKernelContext.t) (w : World)
             (older later : list (string * Message)) (b : list byte),
        let input_t := OpKernelContext.input sctx in
        let N := size b in
        let S := SliceRecvOp.slice_size_ rop in
        let key_prefix := SliceRecvOp.key_prefix_ rop in
        let frame_iter :=
          GetFrameAndIter rctx (SliceRecvOp.hostmem_sendrecv_ rop) in
        let length_of := fun i => if N - S <? i * S then N - i * S else S in
        let slice := fun i =>
          (phase_key key_prefix frame_iter (DataSlice i),
           {| msg_args :=
                send_args sctx (OpKernelContext.input_alloc_attr sctx);
              msg_val :=
                {| dtype := DT_INT8; shape := [length_of i];
                   buf := RawBytes
                            (firstn (Z.to_nat (length_of i))
                               (skipn (Z.to_nat (i * S)) b)) |};
              msg_is_dead := false |}) in
        buf input_t = RawBytes b ->
        payload_wf input_t ->
        SliceSendOp.dtype_ sop = dtype input_t ->
        1 <= S -> S < N -> N <= 2 ^ 62 ->
        matching sop rop ->
        GetFrameAndIter sctx (SliceSendOp.hostmem_sendrecv_ sop)
        = frame_iter ->
        OpKernelContext.has_rendezvous rctx = true ->
        aborted (rendezvous w) = None ->
        (forall p, ParseKey (phase_key key_prefix frame_iter p) = true) ->
        (forall p, ~ In (phase_key key_prefix frame_iter p)
                     (map fst older)) ->
        table (rendezvous w)
        = older
            ++ (total_bytes_message key_prefix frame_iter sctx input_t
                :: shape_message key_prefix frame_iter sctx input_t
                :: map slice (range 0 (Z.to_nat (ceil_div N S))))
            ++ later ->
        exists w2,
          SliceRecvOp.Compute rop rctx w
          = (Done (Some {| dtype := dtype input_t; shape := shape input_t;
                           buf := RawBytes b |}), w2)
          /\ table (rendezvous w2) = older ++ later)
  /\ option_map (map snd) (send_slices 10 3) = Some [3; 3; 3; 1]
  /\ option_map (map snd) (recv_slices 10 3) = Some [3; 3; 3; 1]
  /\ (let input_t :=
        {| dtype := DT_INT16; shape := [5];
           buf := RawBytes
                    [x01; x02; x03; x04; x05; x06; x07; x08; x09; x0a] |} in
      let sent :=
        @SliceSendOp.Compute example_framework
          (SliceSendOp.construct (example_send_attrs 3 DT_INT16))
          (example_ctx input_t false) fresh_world in
      sent_slice_lengths (trace (snd sent)) = [3; 3; 3; 1]
      /\ fst (@SliceRecvOp.Compute example_framework
                (SliceRecvOp.construct (example_recv_attrs 3 DT_INT16))
                (example_ctx input_t false) (snd sent))
         = Done (Some input_t)).
Proof.
  split; [exact slice_arithmetic|].
  split; [|split; [|repeat split; vm_compute; reflexivity]].
  - intros fw op ctx w b input_t N S key_prefix frame_iter length_of slice
      Hb Hwf Ht HS HN Hmax Hlive Hr Ha Hk.
    assert (Hfit : TotalBytes input_t <= 2 ^ 62)
      by (unfold TotalBytes; rewrite Hb; exact Hmax).
    assert (HS' : 1 <= SliceSendOp.slice_size_ op <= INT64_MAX)
      by (unfold INT64_MAX; subst S N; lia).
    destruct (Compute_sends op ctx Hlive HS' Hfit Hk Hr Hwf Ht w Ha)
      as (w1 & E1 & _ & T1).
    exists w1. split; [exact E1|].
    unfold transfer_messages in T1. fold input_t in T1.
    replace (TotalBytes input_t) with (size b) in T1
      by (unfold TotalBytes; now rewrite Hb).
    rewrite Hb in T1.
    destruct (Z.leb_spec (size b) (SliceSendOp.slice_size_ op)) as [?|_];
      [subst S N; lia|].
    exact T1.
  - intros fw sop rop sctx rctx w older later b input_t N S key_prefix
      frame_iter length_of slice Hb Hwf Ht HS HN Hmax Hm Hfi Hr Ha Hk Hfresh
      Htable.
    destruct Hm as (Mp & Mh & Ms & Md).
    assert (Hm : matching sop rop) by (repeat split; assumption).
    assert (Hfit : TotalBytes input_t <= 2 ^ 62)
      by (unfold TotalBytes; rewrite Hb; exact Hmax).
    assert (HS' : 1 <= SliceSendOp.slice_size_ sop <= INT64_MAX)
      by (rewrite Ms; unfold INT64_MAX; subst S N; lia).
    subst slice length_of key_prefix frame_iter S N.
    rewrite <- Mp, <- Hfi, <- Ms in *.
    destruct (Compute_receives sop sctx HS' Hfit Hk rop rctx older
                Hm (eq_sym Hfi) Hfresh Hr Hwf Ht w later)
      as (o & w2 & E2 & [_ T2] & ->).
    { split; [exact Ha|]. rewrite Htable. do 2 f_equal.
      unfold transfer_messages. fold input_t.
      replace (TotalBytes input_t) with (size b)
        by (unfold TotalBytes; now rewrite Hb).
      rewrite Hb.
      destruct (Z.leb_spec (size b) (SliceSendOp.slice_size_ sop)) as [?|_];
        [lia|].
      reflexivity. }
    exists w2. split; [|exact T2].
    rewrite E2. do 3 f_equal. fold input_t.
    destruct input_t; simpl in *. now subst.
Qed.

Lemma slice_boundary_law_witness :
  let sop := SliceSendOp.construct (example_send_attrs 3 DT_INT16) in
  let rop := SliceRecvOp.construct (example_recv_attrs 3 DT_INT16) in
  let b := [x01; x02; x03; x04; x05; x06; x07; x08; x09; x0a] in
  let input_t := {| dtype := DT_INT16; shape := [5]; buf := RawBytes b |} in
  let ctx := example_ctx input_t false in
  let key_prefix := SliceSendOp.key_prefix_ sop in
  let frame_iter := {| frame_id := 1; iter_id := 0 |} in
  let slice := fun i start len =>
    (phase_key key_prefix frame_iter (DataSlice i),
     {| msg_args := send_args ctx (OpKernelContext.input_alloc_attr ctx);
        msg_val :=
          {| dtype := DT_INT8; shape := [len];
             buf := RawBytes (firstn (Z.to_nat len)
                                (skipn (Z.to_nat start) b)) |};
        msg_is_dead := false |}) in
  let messages :=
    [@total_bytes_message example_framework key_prefix frame_iter ctx input_t;
     shape_message key_prefix frame_iter ctx input_t;
     slice 0 0 3; slice 1 3 3; slice 2 6 3; slice 3 9 1] in
  let w := set_table messages fresh_world in
  ((1 <= 3 /\ 3 < 10 /\ 10 + 3 <= INT64_MAX)
   /\ buf input_t = RawBytes b
   /\ payload_wf input_t
   /\ SliceSendOp.dtype_ sop = dtype input_t
   /\ (1 <= SliceSendOp.slice_size_ sop
       /\ SliceSendOp.slice_size_ sop < size b
       /\ size b <= 2 ^ 62)
   /\ OpKernelContext.is_input_dead ctx = false
   /\ OpKernelContext.has_rendezvous ctx = true
   /\ aborted (rendezvous fresh_world) = None
   /\ matching sop rop
   /\ aborted (rendezvous w) = None
   /\ table (rendezvous w) = [] ++ messages ++ [])
  /\ (SliceSendOp.basic_slice_num 10 3 = Some 4
      /\ SliceRecvOp.slice_num_of 10 3 = Some 4)
  /\ (exists w1,
        @SliceSendOp.Compute example_framework sop ctx fresh_world
        = (Done tt, w1)
        /\ table (rendezvous w1) = messages)
  /\ (exists w2,
        @SliceRecvOp.Compute example_framework rop ctx w
        = (Done (Some input_t), w2)
        /\ table (rendezvous w2) = []).
Proof.
  intros sop rop b input_t ctx key_prefix frame_iter slice messages w.
  assert (H : (1 <= 3 /\ 3 < 10 /\ 10 + 3 <= INT64_MAX)
              /\ buf input_t = RawBytes b
              /\ payload_wf input_t
              /\ SliceSendOp.dtype_ sop = dtype input_t
              /\ (1 <= SliceSendOp.slice_size_ sop
                  /\ SliceSendOp.slice_size_ sop < size b
                  /\ size b <= 2 ^ 62)
              /\ OpKernelContext.is_input_dead ctx = false
              /\ OpKernelContext.has_rendezvous ctx = true
              /\ aborted (rendezvous fresh_world) = None
              /\ matching sop rop
              /\ aborted (rendezvous w) = None
              /\ table (rendezvous w) = [] ++ messages ++ [])
    by (repeat split; vm_compute; solve [reflexivity | discriminate]).
  split; [exact H|].
  destruct H as ((A1 & A2 & A3) & H1 & H2 & H3 & (H4 & H5 & H6) & H7 & H8
                 & H9 & H10 & H11 & H12).
  destruct slice_boundary_law as (L1 & L2 & L3 & _).
  split; [|split].
  - pose proof (L1 10 3 A1 A2 A3) as L. split; [exact (proj1 L)|].
    exact (proj1 (proj2 L)).
  - exact (L2 example_framework sop ctx fresh_world b H1 H2 H3 H4 H5 H6 H7
             H8 H9 (example_keys_accepted 3 DT_INT16 frame_iter)).
  - refine (L3 example_framework sop rop ctx ctx w [] [] b H1 H2 H3 H4 H5 H6
              H10 eq_refl H8 H11
              (example_keys_accepted 3 DT_INT16 frame_iter) _ H12).
    intros p [].
Defined.

(** C2 as stated, for every slice size below the size of the value, fails at
    [S = 0]: with [N = 1 > S] the number of slices is the result of a
    division by zero in both loops; on a live one-byte payload the sender
    deposits no slice at all and ends in that division after the [Shape]
    phase, and so does the receiver run on what the sender left. *)
Lemma slice_boundary_law_fails_at_slice_size_zero :
  let sent :=
    @SliceSendOp.Compute example_framework
      (SliceSendOp.construct (example_send_attrs 0 DT_UINT8))
      (example_ctx (bytes_tensor [x01]) false) fresh_world in
  0 < size [x01]
  /\ SliceSendOp.basic_slice_num 1 0 = None
  /\ SliceRecvOp.slice_num_of 1 0 = None
  /\ ~ (forall N S : Z,
          S < N -> N + S <= INT64_MAX ->
          exists n,
            SliceSendOp.basic_slice_num N S = Some n
            /\ SliceRecvOp.slice_num_of N S = Some n)
  /\ fst sent = Halt DivideByZero
  /\ sent_slice_lengths (trace (snd sent)) = []
  /\ fst (@SliceRecvOp.Compute example_framework
            (SliceRecvOp.construct (example_recv_attrs 0 DT_UINT8))
            (example_ctx (bytes_tensor []) false) (snd sent))
     = Halt DivideByZero.
Proof.
  intros sent.
  split; [reflexivity|]. split; [reflexivity|]. split; [reflexivity|].
  split.
  - intros Hall.
    destruct (Hall 1 0 ltac:(lia) ltac:(unfold INT64_MAX; lia))
      as (n & E & _).
    discriminate E.
  - repeat split; vm_compute; reflexivity.
Qed.
